(** * mt32-pi: the SSD1306 OLED driver (src/lcd/ssd1306.cpp)

    A shallow embedding of the driver's font conversion, pixel addressing,
    glyph and text rendering, level meters and bus protocol, followed by the
    properties proved about them.
    The parsers of option values of src/config.cpp follow the driver, in a
    part of their own.

    Conventions.
    - A [u8], [u16], [char] or [size_t] value is a [Z]; every conversion to a
      narrower type the source performs is written out with [u8] or [u16].
    - Arrays are lists, indexed through [load] and [store], which report an
      access outside the array as undefined behaviour.
    - A member function is a function from the driver object to a [result]
      holding the updated object. *)

From Stdlib Require Import ZArith Lia List Bool.
From stdpp Require Import base list.
From Stdlib Require String Ascii.
From stdpp Require Import gmap.

Local Open Scope Z_scope.

(** ** Machine integers *)

(** Conversion to [u8] (assignment to a [u8] object). *)
Definition u8 (z : Z) : Z := z mod 2 ^ 8.

(** Conversion to [u16]. *)
Definition u16 (z : Z) : Z := z mod 2 ^ 16.

(** ** Outcomes of running a member function

    [Ok] carries the value computed; [AssertionFailed] is a failed
    [assert]; [Undefined] is behaviour the C++ standard leaves undefined
    (an array access out of bounds, a shift by a negative count, a call
    through a null pointer). *)
Inductive result (A : Type) : Type :=
| Ok (a : A)
| AssertionFailed
| Undefined.

Arguments Ok {A} a.
Arguments AssertionFailed {A}.
Arguments Undefined {A}.

#[global] Instance result_ret : MRet result := fun A a => Ok a.

#[global] Instance result_bind : MBind result := fun A B f m =>
  match m with
  | Ok a => f a
  | AssertionFailed => AssertionFailed
  | Undefined => Undefined
  end.

(** A [for] loop over the indices [idx], threading the state [s]. *)
Fixpoint for_each {S : Type} (idx : list Z) (body : Z -> S -> result S) (s : S)
  : result S :=
  match idx with
  | [] => Ok s
  | i :: rest => s' ← body i s; for_each rest body s'
  end.

(** [a << n] on [int] operands: undefined for a negative count or one that
    reaches the width of [int]. *)
Definition shl (a n : Z) : result Z :=
  if (0 <=? n) && (n <? 32) then Ok (Z.shiftl a n) else Undefined.

(** ** Arrays *)

(** [a[i]] read. *)
Definition load (a : list Z) (i : Z) : result Z :=
  if 0 <=? i then
    match a !! Z.to_nat i with
    | Some v => Ok v
    | None => Undefined
    end
  else Undefined.

(** [a[i] = v]; the value is converted to the element type [u8]. *)
Definition store (a : list Z) (i : Z) (v : Z) : result (list Z) :=
  if (0 <=? i) && (i <? Z.of_nat (length a))
  then Ok (<[Z.to_nat i := u8 v]> a)
  else Undefined.

(** ** Compile-time font conversion *)

(** [CharData] is [u8[8]]: the eight rows of a glyph, six pixels each.  The
    array has eight elements by its type; a row absent from the list reads
    as 0. *)
Definition CharData : Type := list Z.

Definition row (cd : CharData) (i : Z) : Z := nth (Z.to_nat i) cd 0.

(** [SingleColumn]: collect bit [5 - nColumn] of every row.  [Font] calls
    it for the columns 0 to 5 only, so every shift count is one of 0 to 7. *)
Definition SingleColumn (cd : CharData) (nColumn : Z) : Z :=
  let bit := u8 (5 - nColumn) in
  fold_left
    (fun column i =>
       u8 (Z.lor column (Z.shiftl (Z.land (Z.shiftr (row cd i) bit) 1) i)))
    (seqZ 0 8) 0.

(** [DoubleColumn]: duplicate every bit of the single column into two
    adjacent bits of a 16-bit value. *)
Definition DoubleColumn (cd : CharData) (nColumn : Z) : Z :=
  let singleColumn := SingleColumn cd nColumn in
  fold_left
    (fun column i =>
       let bit := Z.b2z (negb (Z.land (Z.shiftr singleColumn i) 1 =? 0)) in
       u16 (Z.lor column
              (Z.lor (Z.shiftl bit (i * 2)) (Z.shiftl bit (i * 2 + 1)))))
    (seqZ 0 8) 0.

(** The [Font] class template: [N] glyphs of six precomputed columns. *)
Definition Font (Function : CharData -> Z -> Z) (table : list CharData)
  : list (list Z) :=
  map (fun cd => map (Function cd) (seqZ 0 6)) table.

(** [Font::operator[]] followed by the column subscript. *)
Definition font_column (font : list (list Z)) (nIndex i : Z) : result Z :=
  if 0 <=? nIndex then
    match font !! Z.to_nat nIndex with
    | Some columns => load columns i
    | None => Undefined
    end
  else Undefined.

(** [FontSingle] and [FontDouble], over the row-major table [Font6x8] of
    lcd/font6x8.h. *)
Definition FontSingle (Font6x8 : list CharData) : list (list Z) :=
  Font SingleColumn Font6x8.

Definition FontDouble (Font6x8 : list CharData) : list (list Z) :=
  Font DoubleColumn Font6x8.

(** ** The bus *)

(** The I2C master the driver points to, as the list of the writes it has
    carried out, oldest first: the device address and the bytes sent. *)
Definition CI2CMaster : Type := list (Z * list Z).

(** [CI2CMaster::Write (ucAddress, pBuffer, nCount)]: a blocking write of
    the first [nCount] bytes of the buffer; its status is not used by the
    driver. *)
Definition CI2CMaster_Write (bus : CI2CMaster) (ucAddress : Z)
    (pBuffer : list Z) (nCount : Z) : result CI2CMaster :=
  if (0 <=? nCount) && (nCount <=? Z.of_nat (length pBuffer))
  then Ok (bus ++ [(ucAddress, take (Z.to_nat nCount) pBuffer)])
  else Undefined.

(** ** The driver object *)

(** [mPartLevels] and [mPeakLevels] are the [u8[9]] members inherited from
    [CMT32LCD]; [mI2CMaster] is [None] for a null pointer. *)
Record CSSD1306 : Type := {
  mI2CMaster : option CI2CMaster;
  mAddress : Z;
  mHeight : Z;
  mFramebuffer : list Z;
  mPartLevels : list Z;
  mPeakLevels : list Z
}.

Definition set_framebuffer (self : CSSD1306) (fb : list Z) : CSSD1306 :=
  {| mI2CMaster := mI2CMaster self; mAddress := mAddress self;
     mHeight := mHeight self; mFramebuffer := fb;
     mPartLevels := mPartLevels self; mPeakLevels := mPeakLevels self |}.

Definition set_bus (self : CSSD1306) (bus : CI2CMaster) : CSSD1306 :=
  {| mI2CMaster := Some bus; mAddress := mAddress self;
     mHeight := mHeight self; mFramebuffer := mFramebuffer self;
     mPartLevels := mPartLevels self; mPeakLevels := mPeakLevels self |}.

(** [mI2CMaster->Write (mAddress, buffer, count)]. *)
Definition bus_write (self : CSSD1306) (buffer : list Z) (count : Z)
  : result CSSD1306 :=
  match mI2CMaster self with
  | None => Undefined
  | Some bus =>
      bus' ← CI2CMaster_Write bus (mAddress self) buffer count;
      Ok (set_bus self bus')
  end.

Definition InitSequence : list Z :=
  [ 0xAE;
    0x81; 0x7F;
    0xA6;
    0x20; 0x0;
    0x21; 0x00; 0x7F;
    0x22; 0x00; 0x03;
    0xA1;
    0xA8; 0x1F;
    0xC8;
    0xD3; 0x00;
    0xDA; 0x02;
    0xD5; 0x80;
    0xD9; 0x22;
    0xDB; 0x20;
    0x8D;
    0x14;
    0xA4;
    0xAF ].

(** A glyph table of 97 entries (codes 0x20 to 0x80) used to instantiate
    the theorems below; every glyph is the same test pattern. *)
Definition sample_Font6x8 : list CharData :=
  replicate 97 [0x0E; 0x11; 0x11; 0x1F; 0x11; 0x11; 0x11; 0x00].

Section Driver.

(** What the headers decide: the glyph table (lcd/font6x8.h), the declared
    length of [mFramebuffer] (lcd/ssd1306.h), and whether [assert] is
    compiled out. *)
Variable Font6x8 : list CharData.
Variable FramebufferLength : nat.
Variable NDEBUG : bool.

Definition assert_ (condition : bool) : result unit :=
  if NDEBUG then Ok tt
  else if condition then Ok tt else AssertionFailed.

(** The constructor.  [partLevels] and [peakLevels] are the members the
    base-class constructor [CMT32LCD ()] has initialised; [mFramebuffer{0x40}]
    sets the first element and zeroes the rest. *)
Definition CSSD1306_new (pI2CMaster : option CI2CMaster) (nAddress nHeight : Z)
    (partLevels peakLevels : list Z) : result CSSD1306 :=
  let nAddress := u8 nAddress in
  let nHeight := u8 nHeight in
  let self :=
    {| mI2CMaster := pI2CMaster; mAddress := nAddress; mHeight := nHeight;
       mFramebuffer := 0x40 :: replicate (FramebufferLength - 1) 0;
       mPartLevels := partLevels; mPeakLevels := peakLevels |} in
  _ ← assert_ ((nHeight =? 32) || (nHeight =? 64));
  Ok self.

Definition Initialize (self : CSSD1306) : result (bool * CSSD1306) :=
  _ ← assert_ (bool_decide (mI2CMaster self ≠ None));
  if negb ((mHeight self =? 32) || (mHeight self =? 64)) then Ok (false, self)
  else
    '(_, self) ← for_each InitSequence
      (fun byte '(buffer, self) =>
         buffer ← store buffer 1 byte;
         self ← bus_write self buffer 2;
         Ok (buffer, self))
      ([0x80; 0], self);
    Ok (true, self).

Definition WriteFramebuffer (self : CSSD1306) : result CSSD1306 :=
  bus_write self (mFramebuffer self) (mHeight self * 16 + 1).

Definition SetPixel (nX nY : Z) (self : CSSD1306) : result CSSD1306 :=
  let nX := u8 nX in
  let nY := u8 nY in
  let nX := u8 (Z.land nX 0x7f) in
  let nY := u8 (Z.land nY 0x3f) in
  let offset := Z.shiftl (Z.land nY 0xf8) 4 + nX + 1 in
  old ← load (mFramebuffer self) offset;
  fb ← store (mFramebuffer self) offset
         (Z.lor old (Z.shiftl 1 (Z.land nY 7)));
  Ok (set_framebuffer self fb).

Definition ClearPixel (nX nY : Z) (self : CSSD1306) : result CSSD1306 :=
  let nX := u8 nX in
  let nY := u8 nY in
  let nX := u8 (Z.land nX 0x7f) in
  let nY := u8 (Z.land nY 0x3f) in
  let offset := Z.shiftl (Z.land nY 0xf8) 4 + nX + 1 in
  old ← load (mFramebuffer self) offset;
  fb ← store (mFramebuffer self) offset
         (Z.land old (Z.lnot (Z.shiftl 1 (Z.land nY 7))));
  Ok (set_framebuffer self fb).

(** The index [DrawChar] looks up: [static_cast<u8>(chChar - ' ')], after
    its one remapping.  [chChar] is the character's byte, 0 to 255; the
    conversion to [u8] gives the same index whether [char] is signed or
    not. *)
Definition glyph_index (chChar : Z) : Z :=
  let chChar := if chChar =? 0xFF then 0x80 else chChar in
  u8 (chChar - 32).

(** The body of the loop of [DrawChar]: column [i] of the glyph, written
    at [offset] and, for the lower half, 128 bytes further on. *)
Definition DrawChar_column (chChar rowOffset columnOffset : Z)
    (bInverted bDoubleWidth : bool) (i : Z) (fb : list Z) : result (list Z) :=
  fontColumn ← font_column (FontDouble Font6x8) (glyph_index chChar) i;
  let fontColumn :=
    if (0 <? i) && bInverted then u16 (Z.lxor fontColumn 0x3FFF)
    else fontColumn in
  let offset :=
    rowOffset + columnOffset + (if bDoubleWidth then i * 2 else i) in
  fb ← store fb offset (Z.land fontColumn 0xFF);
  fb ← store fb (offset + 128) (Z.land (Z.shiftr fontColumn 8) 0xFF);
  if bDoubleWidth then
    left ← load fb offset;
    fb ← store fb (offset + 1) left;
    left ← load fb (offset + 128);
    store fb (offset + 128 + 1) left
  else Ok fb.

Definition DrawChar (chChar nCursorX nCursorY : Z)
    (bInverted bDoubleWidth : bool) (self : CSSD1306) : result CSSD1306 :=
  let chChar := u8 chChar in
  let nCursorX := u8 nCursorX in
  let nCursorY := u8 nCursorY in
  let rowOffset := nCursorY * 128 * 2 in
  let columnOffset := nCursorX * (if bDoubleWidth then 12 else 6) + 4 in
  fb ← for_each (seqZ 0 6)
    (DrawChar_column chChar rowOffset columnOffset bInverted bDoubleWidth)
    (mFramebuffer self);
  Ok (set_framebuffer self fb).

(** The "Bar graphs" block of [DrawPartLevels]: [(topVal, bottomVal)] for
    one level. *)
Definition BarGraph (level : Z) : result (Z * Z) :=
  if 8 <? level then
    v ← shl 0xFF (8 - (level - 8));
    Ok (u8 v, 0xFF)
  else
    v ← shl 0xFF (8 - level);
    Ok (0x00, u8 v).

(** The "Peak meters" block: the peak's bit is or-ed into one of the two
    values. *)
Definition PeakMeter (peak : Z) (vals : Z * Z) : result (Z * Z) :=
  let '(topVal, bottomVal) := vals in
  if 8 <? peak then
    v ← shl 1 (8 - (peak - 8));
    Ok (u8 (Z.lor topVal v), bottomVal)
  else
    v ← shl 1 (8 - peak);
    Ok (topVal, u8 (Z.lor bottomVal v)).

(** The body of the outer loop of [DrawPartLevels], for channel [i]. *)
Definition DrawPartLevels_channel (bDrawPeaks : bool) (i : Z)
    (self : CSSD1306) : result CSSD1306 :=
  level ← load (mPartLevels self) i;
  vals ← BarGraph level;
  if bDrawPeaks then
    peak ← load (mPeakLevels self) i;
    '(topVal, bottomVal) ← PeakMeter peak vals;
    fb ← for_each (seqZ 0 12)
      (fun j fb =>
         fb ← store fb (256 + i * 14 + j + 3) topVal;
         store fb (256 + i * 14 + j + 128 + 3) bottomVal)
      (mFramebuffer self);
    Ok (set_framebuffer self fb)
  else Ok self.

Definition DrawPartLevels (bDrawPeaks : bool) (self : CSSD1306)
  : result CSSD1306 :=
  for_each (seqZ 0 9) (DrawPartLevels_channel bDrawPeaks) self.

(** The default arguments of [DrawChar], declared in lcd/ssd1306.h. *)
Definition DrawChar_bInverted_default : bool := false.
Definition DrawChar_bDoubleWidth_default : bool := false.

(** First loop of [Print]: [pText] lists the characters in front of the
    terminating NUL; the loop also stops at a NUL inside the list. *)
Fixpoint Print_text (pText : list Z) (nCursorX nCursorY : Z) (self : CSSD1306)
  : result (Z * CSSD1306) :=
  match pText with
  | [] => Ok (nCursorX, self)
  | ch :: pText =>
      if negb (u8 ch =? 0) && (nCursorX <? 20) then
        self ← DrawChar ch nCursorX nCursorY
                 DrawChar_bInverted_default DrawChar_bDoubleWidth_default self;
        Print_text pText (u8 (nCursorX + 1)) nCursorY self
      else Ok (nCursorX, self)
  end.

(** Second loop of [Print]; [fuel] bounds the number of iterations. *)
Fixpoint Print_clear (fuel : nat) (nCursorX nCursorY : Z) (self : CSSD1306)
  : result (Z * CSSD1306) :=
  match fuel with
  | O => Ok (nCursorX, self)
  | S fuel =>
      if nCursorX <? 20 then
        self ← DrawChar 32 nCursorX nCursorY
                 DrawChar_bInverted_default DrawChar_bDoubleWidth_default self;
        Print_clear fuel (u8 (nCursorX + 1)) nCursorY self
      else Ok (nCursorX, self)
  end.

(** [Print].  The cursor is a [u8] below 20 whenever the second loop runs,
    so 20 iterations exhaust it (see [Print_clear_exit]). *)
Definition Print (pText : list Z) (nCursorX nCursorY : Z)
    (bClearLine bImmediate : bool) (self : CSSD1306) : result CSSD1306 :=
  let nCursorX := u8 nCursorX in
  let nCursorY := u8 nCursorY in
  '(nCursorX, self) ← Print_text pText nCursorX nCursorY self;
  '(nCursorX, self) ←
    (if bClearLine then Print_clear 20 nCursorX nCursorY self
     else Ok (nCursorX, self));
  if bImmediate then WriteFramebuffer self else Ok self.

(** [std::fill (a + first, a + last, value)]. *)
Definition fill (a : list Z) (first last value : Z) : result (list Z) :=
  for_each (seqZ first (last - first)) (fun i a => store a i value) a.

Definition Clear (self : CSSD1306) : result CSSD1306 :=
  fb ← fill (mFramebuffer self) 1 (mHeight self * 16 + 1) 0;
  WriteFramebuffer (set_framebuffer self fb).

(** The drawing and clearing operations as one type, to state what holds
    of all of them. *)
Inductive operation : Type :=
| OpSetPixel (nX nY : Z)
| OpClearPixel (nX nY : Z)
| OpDrawChar (chChar nCursorX nCursorY : Z) (bInverted bDoubleWidth : bool)
| OpPrint (pText : list Z) (nCursorX nCursorY : Z)
    (bClearLine bImmediate : bool)
| OpDrawPartLevels (bDrawPeaks : bool)
| OpClear.

Definition run (op : operation) (self : CSSD1306) : result CSSD1306 :=
  match op with
  | OpSetPixel nX nY => SetPixel nX nY self
  | OpClearPixel nX nY => ClearPixel nX nY self
  | OpDrawChar c x y inv dw => DrawChar c x y inv dw self
  | OpPrint t x y cl imm => Print t x y cl imm self
  | OpDrawPartLevels b => DrawPartLevels b self
  | OpClear => Clear self
  end.

End Driver.

(** A driver of height 64 at address 0x3C over a framebuffer of
    128 * 64 / 8 + 1 bytes, all levels and peaks at zero, with an idle bus. *)
Definition sample_driver : CSSD1306 :=
  {| mI2CMaster := Some []; mAddress := 0x3C; mHeight := 64;
     mFramebuffer := 0x40 :: replicate 1024 0;
     mPartLevels := replicate 9 0; mPeakLevels := replicate 9 0 |}.

(** The same driver with a null bus pointer and height 32. *)
Definition sample_driver_no_bus : CSSD1306 :=
  {| mI2CMaster := None; mAddress := 0x3C; mHeight := 32;
     mFramebuffer := 0x40 :: replicate 1024 0;
     mPartLevels := replicate 9 0; mPeakLevels := replicate 9 0 |}.

(** The sample driver with the pixel at (0, 0) lit. *)
Definition sample_driver_pixel_set : CSSD1306 :=
  set_framebuffer sample_driver (<[1%nat := 1]> (mFramebuffer sample_driver)).

(** The sample driver with channel 0 at level 16 and a peak of 16. *)
Definition sample_driver_full_level : CSSD1306 :=
  {| mI2CMaster := Some []; mAddress := 0x3C; mHeight := 64;
     mFramebuffer := 0x40 :: replicate 1024 0;
     mPartLevels := 16 :: replicate 8 0; mPeakLevels := 16 :: replicate 8 0 |}.

(** A text of 30 characters: the codes 65 ('A') to 84, then ten line
    feeds, which have no glyph in [sample_Font6x8]. *)
Definition sample_text : list Z := seqZ 65 20 ++ replicate 10 10.

(** ** Definitions used to state the properties *)

(** [off] lies in the run of [width] bytes that starts at [base]. *)
Definition in_block (base width off : Z) : bool :=
  (base <=? off) && (off <? base + width).

(** The two values [DrawPartLevels] computes for channel [i] when peaks
    are drawn. *)
Definition channel_vals (self : CSSD1306) (i : Z) : result (Z * Z) :=
  level ← load (mPartLevels self) i;
  vals ← BarGraph level;
  peak ← load (mPeakLevels self) i;
  PeakMeter peak vals.

(** The framebuffer shows glyph [cd] in the text cell at column
    [nCursorX] of row [nCursorY]: the low bytes of its six double-height
    columns in one page, the high bytes in the page below. *)
Definition shows_glyph (fb : list Z) (cd : CharData) (nCursorX nCursorY : Z)
  : Prop :=
  forall i, 0 <= i < 6 ->
    load fb (nCursorY * 256 + nCursorX * 6 + 4 + i)
    = Ok (Z.land (DoubleColumn cd i) 0xFF) /\
    load fb (nCursorY * 256 + nCursorX * 6 + 4 + i + 128)
    = Ok (Z.land (Z.shiftr (DoubleColumn cd i) 8) 0xFF).

(** [off] lies in one of the text cells [first .. last - 1] of row
    [nCursorY]. *)
Definition in_cells (nCursorY first last off : Z) : bool :=
  in_block (nCursorY * 256 + first * 6 + 4) ((last - first) * 6) off
  || in_block (nCursorY * 256 + first * 6 + 4 + 128) ((last - first) * 6) off.

(** The bus writes [Initialize] issues: one two-byte write per byte of the
    sequence, the command-select marker first. *)
Definition command_writes (address : Z) (bytes : list Z) : CI2CMaster :=
  map (fun byte => (address, [0x80; byte])) bytes.

(** ** Definitions in the words of the specification *)

(** The byte offset and the bit of a pixel:
    [Offset (x, y) = ((y & 0xF8) << 4) + x + 1], [bit = y & 7]. *)
Definition spec_Offset (x y : Z) : Z := Z.shiftl (Z.land y 0xF8) 4 + x + 1.

Definition spec_bit (y : Z) : Z := Z.land y 7.

(** ** The refresh and the driver's interface *)

Definition set_levels (self : CSSD1306) (partLevels peakLevels : list Z)
  : CSSD1306 :=
  {| mI2CMaster := mI2CMaster self; mAddress := mAddress self;
     mHeight := mHeight self; mFramebuffer := mFramebuffer self;
     mPartLevels := partLevels; mPeakLevels := peakLevels |}.

(** [Update].  Its first three calls ([CMT32LCD::Update], [UpdatePartLevels],
    [UpdatePeakLevels]) are base-class code outside this file: the text
    buffer, the levels and the peaks they leave are arguments here.  The
    default arguments of [Print] and [DrawPartLevels] are declared in
    lcd/ssd1306.h and are arguments too. *)
Definition Update (Font6x8 : list CharData)
    (Print_bImmediate_default DrawPartLevels_bDrawPeaks_default : bool)
    (mTextBuffer partLevels peakLevels : list Z) (self : CSSD1306)
  : result CSSD1306 :=
  let self := set_levels self partLevels peakLevels in
  self ← Print Font6x8 mTextBuffer 0 0 true Print_bImmediate_default self;
  self ← DrawPartLevels DrawPartLevels_bDrawPeaks_default self;
  WriteFramebuffer self.

(** A call of one of the driver's member functions. *)
Inductive request : Type :=
| ReqInitialize
| ReqWriteFramebuffer
| ReqDraw (op : operation)
| ReqUpdate (Print_bImmediate_default DrawPartLevels_bDrawPeaks_default : bool)
    (mTextBuffer partLevels peakLevels : list Z).

Definition serve (Font6x8 : list CharData) (NDEBUG : bool) (req : request)
    (self : CSSD1306) : result CSSD1306 :=
  match req with
  | ReqInitialize => '(_, self) ← Initialize NDEBUG self; Ok self
  | ReqWriteFramebuffer => WriteFramebuffer self
  | ReqDraw op => run Font6x8 op self
  | ReqUpdate imm peaks text partLevels peakLevels =>
      Update Font6x8 imm peaks text partLevels peakLevels self
  end.

(** A sequence of calls, each on the object the previous one left. *)
Fixpoint serve_all (Font6x8 : list CharData) (NDEBUG : bool)
    (reqs : list request) (self : CSSD1306) : result CSSD1306 :=
  match reqs with
  | [] => Ok self
  | req :: reqs =>
      self ← serve Font6x8 NDEBUG req self;
      serve_all Font6x8 NDEBUG reqs self
  end.

(** A driver of height 32 over the same framebuffer, with an idle bus. *)
Definition sample_driver_32 : CSSD1306 :=
  {| mI2CMaster := Some []; mAddress := 0x3C; mHeight := 32;
     mFramebuffer := 0x40 :: replicate 1024 0;
     mPartLevels := replicate 9 0; mPeakLevels := replicate 9 0 |}.

(** ** More definitions used to state properties *)

(** The state of the pixel at column [x] of row [y] in the controller's
    memory layout: bit [y mod 8] of the byte of column [x] in page [y / 8],
    behind the control byte. *)
Definition pixel_lit (fb : list Z) (x y : Z) : result bool :=
  byte ← load fb (1 + 128 * (y / 8) + x);
  Ok (Z.testbit byte (y mod 8)).

(** The 16 rows of a meter column as one number, the top row in bit 0: the
    top-page byte below the bottom-page byte. *)
Definition meter_rows (vals : Z * Z) : Z := vals.1 + 256 * vals.2.

(** The glyph column [DrawChar] writes for column [i]: inverted in all but
    its two highest bits when [bInverted] is set and [i] is not 0. *)
Definition drawn_column (cd : CharData) (bInverted : bool) (i : Z) : Z :=
  if (0 <? i) && bInverted then u16 (Z.lxor (DoubleColumn cd i) 0x3FFF)
  else DoubleColumn cd i.

(** A bus write is a command (the marker 0x80 and one byte) or a frame (the
    marker 0x40 and [height * 16] bytes), sent to [address]. *)
Definition protocol_write (address height : Z) (w : Z * list Z) : Prop :=
  w.1 = address /\
  ((exists byte, w.2 = [0x80; byte]) \/
   (exists pixels, w.2 = 0x40 :: pixels /\
                   Z.of_nat (length pixels) = height * 16)).

(** What a call that returned did to the driver, apart from the pixels: it
    kept the address, the height, the length of the framebuffer and its
    control byte, and sent the writes [sent]. *)
Definition effect (self self' : CSSD1306) (sent : CI2CMaster) : Prop :=
  mAddress self' = mAddress self /\
  mHeight self' = mHeight self /\
  length (mFramebuffer self') = length (mFramebuffer self) /\
  load (mFramebuffer self') 0 = load (mFramebuffer self) 0 /\
  match mI2CMaster self with
  | Some bus => mI2CMaster self' = Some (bus ++ sent)
  | None => mI2CMaster self' = None /\ sent = []
  end.

(** A step from a driver whose framebuffer starts with the data-mode marker:
    it has the [effect] of sending protocol writes only. *)
Definition protocol_step (self self' : CSSD1306) : Prop :=
  load (mFramebuffer self) 0 = Ok 0x40 ->
  exists sent,
    effect self self' sent /\
    Forall (protocol_write (mAddress self) (mHeight self)) sent.

(** * The configuration parsers (src/config.cpp)

    The parsers of option values.  A C string is the list of its characters
    in front of the terminating NUL; a character array is the list of its
    bytes, and a pointer into it is the list of the bytes from the pointer
    to the end of the array, so that reading at [[]] is a read past the
    array. *)

(** ** The C library *)

(** The characters of a string literal. *)
Definition c_bytes (s : String.string) : list Z :=
  map (fun c => Z.of_nat (Ascii.nat_of_ascii c)) (String.list_ascii_of_string s).

(** The lists that are C strings: no character is NUL. *)
Definition c_string (s : list Z) : bool :=
  forallb (fun c => (0 <? c) && (c <? 256)) s.

Definition tolower (c : Z) : Z :=
  if (65 <=? c) && (c <=? 90) then c + 32 else c.

(** [strcasecmp]: the strings are compared character by character after
    [tolower], the terminating NUL included; the sign of the result is the
    order of the first pair that differs. *)
Fixpoint strcasecmp (s1 s2 : list Z) : Z :=
  match s1, s2 with
  | [], [] => 0
  | [], c2 :: _ => 0 - tolower c2
  | c1 :: _, [] => tolower c1 - 0
  | c1 :: s1, c2 :: s2 =>
      if tolower c1 =? tolower c2 then strcasecmp s1 s2
      else tolower c1 - tolower c2
  end.

(** [strncpy (dest, src, n)]: the [n] bytes written to [dest], which end in
    NUL only when [src] is shorter than [n]. *)
Definition strncpy (src : list Z) (n : nat) : list Z :=
  take n (src ++ replicate n 0).

Definition is_delimiter (delim : list Z) (c : Z) : bool :=
  existsb (Z.eqb c) delim.

(** [strtok] first skips the delimiters in front of the token. *)
Fixpoint skip_delimiters (delim mem : list Z) : result (list Z) :=
  match mem with
  | [] => Undefined
  | c :: rest =>
      if c =? 0 then Ok mem
      else if is_delimiter delim c then skip_delimiters delim rest
      else Ok mem
  end.

(** It then reads the token up to the next delimiter, which it overwrites
    with NUL, or up to the terminating NUL.  The result is the token and
    the pointer saved for the next call. *)
Fixpoint scan_token (delim mem : list Z) : result (list Z * list Z) :=
  match mem with
  | [] => Undefined
  | c :: rest =>
      if c =? 0 then Ok ([], mem)
      else if is_delimiter delim c then Ok ([], rest)
      else '(tok, saved) ← scan_token delim rest; Ok (c :: tok, saved)
  end.

(** [strtok (str, delim)] and [strtok (nullptr, delim)], the latter on the
    pointer saved by the previous call: the token found, if any, and the
    pointer saved. *)
Definition strtok (mem delim : list Z) : result (option (list Z) * list Z) :=
  start ← skip_delimiters delim mem;
  match start with
  | [] => Undefined
  | c :: _ =>
      if c =? 0 then Ok (None, start)
      else '(tok, saved) ← scan_token delim start; Ok (Some tok, saved)
  end.

Fixpoint starts_with (needle s : list Z) : bool :=
  match needle, s with
  | [], _ => true
  | _ :: _, [] => false
  | n :: needle, c :: s => (n =? c) && starts_with needle s
  end.

(** [strstr (haystack, needle)]: the first occurrence, if any. *)
Fixpoint strstr (haystack needle : list Z) : option (list Z) :=
  if starts_with needle haystack then Some haystack
  else match haystack with
       | [] => None
       | _ :: rest => strstr rest needle
       end.

(** A pointer used as a condition. *)
Definition non_null {A : Type} (p : option A) : bool :=
  match p with Some _ => true | None => false end.

Definition isspace (c : Z) : bool := (c =? 32) || ((9 <=? c) && (c <=? 13)).

Definition isdigit (c : Z) : bool := (48 <=? c) && (c <=? 57).

Fixpoint atoi_digits (s : list Z) (acc : Z) : Z :=
  match s with
  | c :: rest => if isdigit c then atoi_digits rest (10 * acc + (c - 48)) else acc
  | [] => acc
  end.

Fixpoint atoi_sign (s : list Z) : Z :=
  match s with
  | c :: rest =>
      if isspace c then atoi_sign rest
      else if c =? 45 then - atoi_digits rest 0
      else if c =? 43 then atoi_digits rest 0
      else atoi_digits s 0
  | [] => 0
  end.

(** [atoi]: white space, an optional sign, decimal digits.  The behaviour
    is undefined when the value is no [int]. *)
Definition atoi (s : list Z) : result Z :=
  let v := atoi_sign s in
  if (- 2 ^ 31 <=? v) && (v <? 2 ^ 31) then Ok v else Undefined.

(** ** String literals *)

Module Literal.
Import String.
Local Open Scope string_scope.

Definition TrueStrings : list (list Z) := map c_bytes ["true"; "on"; "1"].
Definition FalseStrings : list (list Z) := map c_bytes ["false"; "off"; "0"].

Definition period : list Z := c_bytes ".".
Definition comma : list Z := c_bytes ",".
Definition synth : list Z := c_bytes "synth".
Definition gpio : list Z := c_bytes "gpio".
Definition pisound : list Z := c_bytes "pisound".
Definition usb_midi : list Z := c_bytes "usb_midi".
Definition usb_serial : list Z := c_bytes "usb_serial".
Definition rtp : list Z := c_bytes "rtp".
Definition udp : list Z := c_bytes "udp".

End Literal.

(** ** Sample option values *)

Module Sample.
Import String.
Local Open Scope string_scope.

Definition routing : list Z := c_bytes "gpio,,pisound , none,synth".
Definition three_groups : list Z := c_bytes "10.0.1".
Definition long_address : list Z := c_bytes "192.168.100.1000".

End Sample.

(** ** Enumerations *)

(** [ParseEnum]: the table of names is a template argument; the value of
    type [T] written to [*pOut] is the index of the name.  The result is
    the value returned and the content of [*pOut]. *)
Fixpoint ParseEnum_from (pEnumStrings : list (list Z)) (i : Z)
    (pString : list Z) (pOut : Z) : bool * Z :=
  match pEnumStrings with
  | [] => (false, pOut)
  | name :: rest =>
      if strcasecmp pString name =? 0 then (true, i)
      else ParseEnum_from rest (i + 1) pString pOut
  end.

Definition ParseEnum (pEnumStrings : list (list Z)) (pString : list Z)
    (pOut : Z) : bool * Z :=
  ParseEnum_from pEnumStrings 0 pString pOut.

(** ** Booleans *)

Definition ParseOption_bool (pString : list Z) (pOutBool : bool) : bool * bool :=
  if existsb (fun pTrueString => strcasecmp pString pTrueString =? 0)
       Literal.TrueStrings
  then (true, true)
  else if existsb (fun pFalseString => strcasecmp pString pFalseString =? 0)
            Literal.FalseStrings
  then (true, false)
  else (false, pOutBool).

(** ** Addresses *)

(** The loop over the four groups: [None] is the early [return false]. *)
Fixpoint ParseOption_CIPAddress_loop (n : nat) (i : nat)
    (pToken : option (list Z)) (saved : list Z) (IPAddress : list Z)
  : result (option (list Z)) :=
  match n with
  | O => Ok (Some IPAddress)
  | S n =>
      match pToken with
      | None => Ok None
      | Some tok =>
          v ← atoi tok;
          '(pToken, saved) ← strtok saved Literal.period;
          ParseOption_CIPAddress_loop n (S i) pToken saved
            (<[i := u8 v]> IPAddress)
      end
  end.

(** A [CIPAddress] is its four bytes. *)
Definition ParseOption_CIPAddress (pString : list Z) (pOut : list Z)
  : result (bool * list Z) :=
  let Buffer := strncpy pString 16 in
  '(pToken, saved) ← strtok Buffer Literal.period;
  r ← ParseOption_CIPAddress_loop 4 0 pToken saved (replicate 4 0);
  match r with
  | None => Ok (false, pOut)
  | Some IPAddress => Ok (true, IPAddress)
  end.

(** ** MIDI routing *)

Inductive TMIDIRoutingDest : Type :=
| Synth | GPIO | Pisound | USBMIDI | USBSerial | RTP | UDP.

#[global] Instance TMIDIRoutingDest_eq_dec : EqDecision TMIDIRoutingDest :=
  ltac:(solve_decision).

Definition TMIDIRoutingDest_index (dest : TMIDIRoutingDest) : nat :=
  match dest with
  | Synth => 0 | GPIO => 1 | Pisound => 2 | USBMIDI => 3
  | USBSerial => 4 | RTP => 5 | UDP => 6
  end%nat.

Definition TMIDIRoutingDest_at (n : nat) : TMIDIRoutingDest :=
  match n with
  | 0 => Synth | 1 => GPIO | 2 => Pisound | 3 => USBMIDI
  | 4 => USBSerial | 5 => RTP | _ => UDP
  end%nat.

#[global] Instance TMIDIRoutingDest_countable : Countable TMIDIRoutingDest :=
  inj_countable' TMIDIRoutingDest_index TMIDIRoutingDest_at
    (fun dest => match dest with
                 | Synth | GPIO | Pisound | USBMIDI | USBSerial | RTP | UDP =>
                     eq_refl
                 end).

(** A routing is a set of destinations; [TMIDIRoutingDest::None] is the
    empty one and [|=] adds a destination. *)
Definition TMIDIRouting : Type := gset TMIDIRoutingDest.

(** The destination a token names: the first of the chain whose name
    occurs in it. *)
Definition routing_dest (pToken : list Z) : option TMIDIRoutingDest :=
  if non_null (strstr pToken Literal.synth) then Some Synth
  else if non_null (strstr pToken Literal.gpio) then Some GPIO
  else if non_null (strstr pToken Literal.pisound) then Some Pisound
  else if non_null (strstr pToken Literal.usb_midi) then Some USBMIDI
  else if non_null (strstr pToken Literal.usb_serial) then Some USBSerial
  else if non_null (strstr pToken Literal.rtp) then Some RTP
  else if non_null (strstr pToken Literal.udp) then Some UDP
  else None.

(** The [while] loop; [None] when [fuel] iterations do not reach its end. *)
Fixpoint ParseOption_TMIDIRouting_loop (fuel : nat) (pToken : option (list Z))
    (saved : list Z) (Routing : TMIDIRouting) : option (result TMIDIRouting) :=
  match pToken with
  | None => Some (Ok Routing)
  | Some tok =>
      match fuel with
      | O => None
      | S fuel =>
          let Routing :=
            match routing_dest tok with
            | Some dest => Routing ∪ {[dest]}
            | None => Routing
            end in
          match strtok saved Literal.comma with
          | Ok (pToken, saved) =>
              ParseOption_TMIDIRouting_loop fuel pToken saved Routing
          | AssertionFailed => Some AssertionFailed
          | Undefined => Some Undefined
          end
      end
  end.

Definition ParseOption_TMIDIRouting (pString : list Z) (pOut : TMIDIRouting)
  : option (result (bool * TMIDIRouting)) :=
  let Buffer := strncpy pString (length pString + 1) in
  match strtok Buffer Literal.comma with
  | Ok (pToken, saved) =>
      match ParseOption_TMIDIRouting_loop (length Buffer) pToken saved ∅ with
      | Some (Ok Routing) => Some (Ok (true, Routing))
      | Some AssertionFailed => Some AssertionFailed
      | Some Undefined => Some Undefined
      | None => None
      end
  | AssertionFailed => Some AssertionFailed
  | Undefined => Some Undefined
  end.

(** ** Definitions used to state the properties of the parsers *)

(** The strings [ts] with [sep] between them. *)
Fixpoint join_with (sep : Z) (ts : list (list Z)) : list Z :=
  match ts with
  | [] => []
  | [t] => t
  | t :: ts => t ++ sep :: join_with sep ts
  end.

(** The fields of [s] that [sep] separates. *)
Fixpoint fields (sep : Z) (s : list Z) : list (list Z) :=
  match s with
  | [] => [[]]
  | c :: s =>
      if c =? sep then [] :: fields sep s
      else match fields sep s with
           | t :: ts => (c :: t) :: ts
           | [] => [[c]]
           end
  end.

(** The routing that names the destinations of the fields [ts]. *)
Definition routing_of (ts : list (list Z)) : TMIDIRouting :=
  list_to_set (omap routing_dest ts).

(** The characters of a field: none is NUL or the separator. *)
Definition field (sep : Z) (t : list Z) : Prop :=
  Forall (fun c => c <> 0 /\ c <> sep) t.

(** A call of [strtok] followed by the loop of the routing parser. *)
Definition routing_run (fuel : nat) (mem : list Z) (Routing : TMIDIRouting)
  : option (result TMIDIRouting) :=
  match strtok mem Literal.comma with
  | Ok (pToken, saved) => ParseOption_TMIDIRouting_loop fuel pToken saved Routing
  | AssertionFailed => Some AssertionFailed
  | Undefined => Some Undefined
  end.

(** The groups of an address: the fields between periods that are not
    empty. *)
Definition groups (s : list Z) : list (list Z) :=
  filter (fun t => t <> []) (fields 46 s).

(** [atoi] on each of the tokens [ts], in their order. *)
Fixpoint atoi_each (ts : list (list Z)) : result (list Z) :=
  match ts with
  | [] => Ok []
  | t :: ts => v ← atoi t; vs ← atoi_each ts; Ok (v :: vs)
  end.

(** The assignments of the loop of the address parser, from index [i] on. *)
Fixpoint assign_from (i : nat) (vs : list Z) (IPAddress : list Z) : list Z :=
  match vs with
  | [] => IPAddress
  | v :: vs => assign_from (S i) vs (<[i := u8 v]> IPAddress)
  end.

(** A call of [strtok] followed by the loop of the address parser. *)
Definition address_run (n i : nat) (mem : list Z) (IPAddress : list Z)
  : result (option (list Z)) :=
  '(pToken, saved) ← strtok mem Literal.period;
  ParseOption_CIPAddress_loop n i pToken saved IPAddress.

(** The outcome of the loop in terms of the tokens read. *)
Definition address_outcome (n i : nat) (ts : list (list Z))
    (IPAddress : list Z) : result (option (list Z)) :=
  vs ← atoi_each (take n ts);
  if (length vs =? n)%nat then Ok (Some (assign_from i vs IPAddress))
  else Ok None.

(** The number of periods in a character array. *)
Definition periods (mem : list Z) : nat :=
  length (filter (fun c => c = 46) mem).

(** The decimal numeral of a byte. *)
Definition decimal (n : Z) : list Z :=
  if n <? 10 then [48 + n]
  else if n <? 100 then [48 + n / 10; 48 + n mod 10]
  else [48 + n / 100; 48 + n / 10 mod 10; 48 + n mod 10].

Definition dotted_quad (a b c d : Z) : list Z :=
  join_with 46 [decimal a; decimal b; decimal c; decimal d].

(** * Properties *)

(** ** The [result] monad and loops *)

Lemma bind_Ok {A B : Type} (m : result A) (f : A -> result B) (b : B) :
  m ≫= f = Ok b <-> exists a, m = Ok a /\ f a = Ok b.
Proof.
  split.
  - destruct m as [a| |]; cbn; intros H; try discriminate. eauto.
  - intros (a & -> & H). exact H.
Qed.

Lemma bind_Ok_l {A B : Type} (m : result A) (f : A -> result B) (a : A) :
  m = Ok a -> m ≫= f = f a.
Proof. intros ->. reflexivity. Qed.

(** Split a hypothesis [x ← m; k = Ok r] into [m = Ok x] and [k = Ok r]. *)
Ltac bind_inv H :=
  let a := fresh "r" in
  let Ha := fresh "E" in
  apply bind_Ok in H; destruct H as (a & Ha & H).

Lemma for_each_app {S : Type} (l1 l2 : list Z) (body : Z -> S -> result S) s :
  for_each (l1 ++ l2) body s = s' ← for_each l1 body s; for_each l2 body s'.
Proof.
  revert s. induction l1 as [|i l1 IH]; intros s; cbn.
  - reflexivity.
  - destruct (body i s) as [s'| |]; cbn; [apply IH|reflexivity..].
Qed.

Lemma for_each_ext {S : Type} (l : list Z) (body body' : Z -> S -> result S) :
  (forall i s, i ∈ l -> body i s = body' i s) ->
  forall s, for_each l body s = for_each l body' s.
Proof.
  induction l as [|i l IH]; intros Hb s; cbn.
  - reflexivity.
  - rewrite (Hb i s) by constructor.
    destruct (body' i s) as [s'| |]; cbn; [|reflexivity..].
    apply IH. intros j t Hj. apply Hb. now constructor.
Qed.

(** A property every iteration preserves is preserved by the loop. *)
Lemma for_each_invariant {S : Type} (P : S -> Prop) (l : list Z)
    (body : Z -> S -> result S) :
  (forall i s s', i ∈ l -> P s -> body i s = Ok s' -> P s') ->
  forall s s', P s -> for_each l body s = Ok s' -> P s'.
Proof.
  induction l as [|i l IH]; intros Hb s s' Hs H; cbn in H.
  - injection H as <-. exact Hs.
  - bind_inv H. eapply IH; [| |exact H].
    + intros j t t' Hj. apply Hb. now constructor.
    + eapply Hb; [constructor|exact Hs|exact E].
Qed.

(** A loop whose iterations all succeed succeeds. *)
Lemma for_each_total {S : Type} (P : S -> Prop) (l : list Z)
    (body : Z -> S -> result S) :
  (forall i s, i ∈ l -> P s -> exists s', body i s = Ok s' /\ P s') ->
  forall s, P s -> exists s', for_each l body s = Ok s' /\ P s'.
Proof.
  induction l as [|i l IH]; intros Hb s Hs; cbn.
  - eauto.
  - destruct (Hb i s) as (s1 & E & H1); [constructor|exact Hs|].
    rewrite E. cbn. apply IH; [|exact H1].
    intros j t Hj. apply Hb. now constructor.
Qed.

Lemma shl_Ok a n : 0 <= n < 32 -> shl a n = Ok (Z.shiftl a n).
Proof.
  intros Hn. unfold shl.
  destruct (Z.leb_spec 0 n), (Z.ltb_spec n 32); try lia. reflexivity.
Qed.

(** ** Arrays *)

Lemma load_Ok (a : list Z) i v :
  load a i = Ok v <-> 0 <= i /\ a !! Z.to_nat i = Some v.
Proof.
  unfold load. destruct (Z.leb_spec 0 i).
  - destruct (a !! Z.to_nat i) as [w|]; split.
    + intros [= ->]. auto.
    + intros [_ [= ->]]. reflexivity.
    + discriminate.
    + intros [_ ?]. discriminate.
  - split; [discriminate|lia].
Qed.

Lemma load_in_range (a : list Z) i :
  0 <= i < Z.of_nat (length a) -> exists v, load a i = Ok v.
Proof.
  intros Hi. destruct (lookup_lt_is_Some_2 a (Z.to_nat i)) as [v Hv]; [lia|].
  exists v. apply load_Ok. split; [lia|exact Hv].
Qed.

Lemma load_Ok_range (a : list Z) i v :
  load a i = Ok v -> 0 <= i < Z.of_nat (length a).
Proof.
  intros H. apply load_Ok in H as [Hi Hv].
  apply lookup_lt_Some in Hv. lia.
Qed.

Lemma store_Ok (a : list Z) i v a' :
  store a i v = Ok a' <->
  0 <= i < Z.of_nat (length a) /\ a' = <[Z.to_nat i := u8 v]> a.
Proof.
  unfold store. destruct (Z.leb_spec 0 i), (Z.ltb_spec i (Z.of_nat (length a)));
    cbn; split; try discriminate; try lia.
  - intros [= <-]. split; [lia|reflexivity].
  - intros [_ ->]. reflexivity.
Qed.

Lemma store_in_range (a : list Z) i v :
  0 <= i < Z.of_nat (length a) -> store a i v = Ok (<[Z.to_nat i := u8 v]> a).
Proof. intros Hi. apply store_Ok. auto. Qed.

Lemma store_length (a : list Z) i v a' :
  store a i v = Ok a' -> length a' = length a.
Proof. intros H. apply store_Ok in H as [_ ->]. apply length_insert. Qed.

(** Reading after a write: the written cell holds the converted value, every
    other cell what it held. *)
Lemma load_store (a : list Z) i v a' j :
  store a i v = Ok a' ->
  load a' j = if j =? i then Ok (u8 v) else load a j.
Proof.
  intros H. apply store_Ok in H as [Hi ->].
  destruct (Z.eqb_spec j i) as [->|Hne].
  - apply load_Ok. split; [lia|]. apply list_lookup_insert_eq. lia.
  - unfold load. destruct (Z.leb_spec 0 j); [|reflexivity].
    rewrite list_lookup_insert_ne by lia. reflexivity.
Qed.

Lemma load_store_eq (a : list Z) i v a' :
  store a i v = Ok a' -> load a' i = Ok (u8 v).
Proof. intros H. rewrite (load_store _ _ _ _ i H), Z.eqb_refl. reflexivity. Qed.

Lemma load_store_ne (a : list Z) i v a' j :
  store a i v = Ok a' -> j <> i -> load a' j = load a j.
Proof.
  intros H Hne. rewrite (load_store _ _ _ _ j H).
  destruct (Z.eqb_spec j i); [contradiction|reflexivity].
Qed.

(** ** Machine integers *)

Lemma u8_range z : 0 <= u8 z < 256.
Proof. unfold u8. apply Z.mod_pos_bound. lia. Qed.

Lemma u8_small z : 0 <= z < 256 -> u8 z = z.
Proof. intros H. unfold u8. apply Z.mod_small. simpl. lia. Qed.

Lemma u8_u8 z : u8 (u8 z) = u8 z.
Proof. apply u8_small, u8_range. Qed.

Lemma u8_testbit z n : 0 <= n ->
  Z.testbit (u8 z) n = (n <? 8) && Z.testbit z n.
Proof. intros Hn. unfold u8. apply Z.testbit_mod_pow2. lia. Qed.

Lemma u16_testbit z n : 0 <= n ->
  Z.testbit (u16 z) n = (n <? 16) && Z.testbit z n.
Proof. intros Hn. unfold u16. apply Z.testbit_mod_pow2. lia. Qed.

Lemma b2z_shiftl_testbit (b : bool) k n : 0 <= k -> 0 <= n ->
  Z.testbit (Z.shiftl (Z.b2z b) k) n = (n =? k) && b.
Proof.
  intros Hk Hn. destruct b; simpl.
  - rewrite Z.shiftl_1_l, Z.pow2_bits_eqb by lia.
    rewrite andb_true_r. apply Z.eqb_sym.
  - rewrite Z.shiftl_0_l, Z.bits_0, andb_false_r. reflexivity.
Qed.

Lemma land_1_nonzero s i : 0 <= i ->
  negb (Z.land (Z.shiftr s i) 1 =? 0) = Z.testbit s i.
Proof.
  intros Hi. change 1 with (Z.ones 1). rewrite Z.land_ones by lia.
  replace (Z.testbit s i) with (Z.testbit (Z.shiftr s i) 0)
    by (rewrite Z.shiftr_spec by lia; f_equal; lia).
  rewrite Z.bit0_eqb. change (2 ^ 1) with 2.
  pose proof (Z.mod_pos_bound (Z.shiftr s i) 2 ltac:(lia)) as Hb.
  destruct (Z.eqb_spec (Z.shiftr s i mod 2) 0),
    (Z.eqb_spec (Z.shiftr s i mod 2) 1); simpl; try reflexivity; lia.
Qed.

(** ** Font conversion *)

Lemma seqZ_0_8 : seqZ 0 8 = [0; 1; 2; 3; 4; 5; 6; 7].
Proof. reflexivity. Qed.

(** The gathering loop of [SingleColumn], started from any accumulator:
    bit [n] of the result is bit [n] of the accumulator or, when row [n] is
    visited, the selected bit of that row. *)
Lemma single_loop_testbit (cd : CharData) bit l : forall acc n,
  0 <= n < 8 -> 0 <= bit -> Forall (fun i => 0 <= i) l ->
  Z.testbit
    (fold_left
       (fun column i =>
          u8 (Z.lor column (Z.shiftl (Z.land (Z.shiftr (row cd i) bit) 1) i)))
       l acc) n
  = Z.testbit acc n || existsb (fun i => (n =? i) && Z.testbit (row cd i) bit) l.
Proof.
  induction l as [|i l IH]; intros acc n Hn Hbit Hl; cbn [fold_left existsb].
  - rewrite orb_false_r. reflexivity.
  - inversion Hl as [|? ? Hi Hl']; subst. rewrite IH by assumption.
    rewrite u8_testbit, Z.lor_spec by lia.
    replace (n <? 8) with true by (symmetry; apply Z.ltb_lt; lia).
    assert (E : Z.land (Z.shiftr (row cd i) bit) 1
                = Z.b2z (Z.testbit (row cd i) bit)).
    { rewrite <- (land_1_nonzero (row cd i) bit) by lia.
      change 1 with (Z.ones 1). rewrite Z.land_ones by lia.
      change (2 ^ 1) with 2.
      pose proof (Z.mod_pos_bound (Z.shiftr (row cd i) bit) 2 ltac:(lia)).
      destruct (Z.eqb_spec (Z.shiftr (row cd i) bit mod 2) 0) as [->|];
        cbn; lia. }
    rewrite E, b2z_shiftl_testbit by lia.
    rewrite andb_true_l, orb_assoc. reflexivity.
Qed.

(** Bit [n] of a single-height column is bit [5 - nColumn] of row [n]. *)
Lemma SingleColumn_bits (cd : CharData) nColumn n :
  0 <= nColumn <= 5 -> 0 <= n < 8 ->
  Z.testbit (SingleColumn cd nColumn) n = Z.testbit (row cd n) (5 - nColumn).
Proof.
  intros Hc Hn. unfold SingleColumn. cbv zeta.
  rewrite (u8_small (5 - nColumn)) by lia.
  rewrite seqZ_0_8, single_loop_testbit by (try lia; repeat constructor; lia).
  rewrite Z.bits_0, orb_false_l.
  assert (Hcases : n = 0 \/ n = 1 \/ n = 2 \/ n = 3 \/
                   n = 4 \/ n = 5 \/ n = 6 \/ n = 7) by lia.
  destruct Hcases as [->|[->|[->|[->|[->|[->|[->| ->]]]]]]];
    cbn [existsb Z.eqb andb orb Pos.eqb]; rewrite ?orb_false_r; reflexivity.
Qed.

Lemma SingleColumn_range (cd : CharData) nColumn :
  0 <= SingleColumn cd nColumn < 256.
Proof.
  unfold SingleColumn. cbv zeta. rewrite seqZ_0_8. cbn [fold_left].
  apply u8_range.
Qed.

(** The doubling loop of [DoubleColumn], started from any accumulator. *)
Lemma double_loop_testbit s l : forall acc n,
  0 <= n < 16 -> Forall (fun i => 0 <= i) l ->
  Z.testbit
    (fold_left
       (fun column i =>
          u16 (Z.lor column
                 (Z.lor
                    (Z.shiftl (Z.b2z (negb (Z.land (Z.shiftr s i) 1 =? 0)))
                       (i * 2))
                    (Z.shiftl (Z.b2z (negb (Z.land (Z.shiftr s i) 1 =? 0)))
                       (i * 2 + 1)))))
       l acc) n
  = Z.testbit acc n || existsb (fun i => (n / 2 =? i) && Z.testbit s i) l.
Proof.
  induction l as [|i l IH]; intros acc n Hn Hl; cbn [fold_left existsb].
  - rewrite orb_false_r. reflexivity.
  - inversion Hl as [|? ? Hi Hl']; subst. rewrite IH by assumption.
    rewrite u16_testbit by lia.
    rewrite !Z.lor_spec, !b2z_shiftl_testbit, land_1_nonzero by lia.
    replace (n <? 16) with true by (symmetry; apply Z.ltb_lt; lia).
    assert (E : (n / 2 =? i) = (n =? i * 2) || (n =? i * 2 + 1)).
    { destruct (Z.eqb_spec (n / 2) i), (Z.eqb_spec n (i * 2)),
        (Z.eqb_spec n (i * 2 + 1)); simpl; try reflexivity; exfalso;
        Z.div_mod_to_equations; lia. }
    rewrite E. destruct (Z.testbit acc n), (n =? i * 2), (n =? i * 2 + 1),
      (Z.testbit s i); reflexivity.
Qed.

Lemma DoubleColumn_range (cd : CharData) nColumn :
  0 <= DoubleColumn cd nColumn < 65536.
Proof.
  unfold DoubleColumn. generalize (SingleColumn cd nColumn) as s. intros s.
  cbv zeta. rewrite seqZ_0_8. cbn [fold_left].
  unfold u16 at 1. apply Z.mod_pos_bound. reflexivity.
Qed.

(** Bit [n] of a double-height column is bit [n / 2] of the single-height
    column. *)
Lemma DoubleColumn_bits (cd : CharData) nColumn n : 0 <= n < 16 ->
  Z.testbit (DoubleColumn cd nColumn) n
  = Z.testbit (SingleColumn cd nColumn) (n / 2).
Proof.
  intros Hn. unfold DoubleColumn.
  generalize (SingleColumn cd nColumn) as s. intros s. cbv zeta.
  rewrite seqZ_0_8, (double_loop_testbit s)
    by (try lia; repeat constructor; lia).
  rewrite Z.bits_0, orb_false_l.
  assert (Hcases : n / 2 = 0 \/ n / 2 = 1 \/ n / 2 = 2 \/ n / 2 = 3 \/
                   n / 2 = 4 \/ n / 2 = 5 \/ n / 2 = 6 \/ n / 2 = 7)
    by (Z.div_mod_to_equations; lia).
  destruct Hcases as [->|[->|[->|[->|[->|[->|[->| ->]]]]]]];
    cbn [existsb Z.eqb andb orb Pos.eqb]; rewrite ?orb_false_r; reflexivity.
Qed.

(** A column of a precomputed font is the conversion function applied to the
    glyph's rows. *)
Lemma font_column_Font (Function : CharData -> Z -> Z) (table : list CharData)
    (g : nat) (cd : CharData) (i : Z) :
  table !! g = Some cd -> 0 <= i < 6 ->
  font_column (Font Function table) (Z.of_nat g) i = Ok (Function cd i).
Proof.
  intros Hg Hi. unfold font_column, Font.
  destruct (Z.leb_spec 0 (Z.of_nat g)); [|lia].
  rewrite Nat2Z.id, list_lookup_fmap, Hg. cbn.
  apply load_Ok. split; [lia|].
  rewrite list_lookup_fmap, lookup_seqZ_lt by lia. cbn.
  do 2 f_equal. lia.
Qed.

Lemma font_column_out_of_range (Function : CharData -> Z -> Z)
    (table : list CharData) (g i : Z) :
  Z.of_nat (length table) <= g ->
  font_column (Font Function table) g i = Undefined.
Proof.
  intros Hg. unfold font_column, Font.
  destruct (Z.leb_spec 0 g); [|reflexivity].
  rewrite list_lookup_fmap, lookup_ge_None_2 by lia. reflexivity.
Qed.

(** C8.  For every glyph [g] of the font table, every column [i] in 0..5
    and every bit position [b] in 0..7, the single-height and the
    double-height table both hold a column for [(g, i)], and bits [2b] and
    [2b+1] of the 16-bit double-height column both equal bit [b] of the
    8-bit single-height column. *)
Theorem double_height_duplicates_bits (Font6x8 : list CharData) (g : nat)
    (i b : Z) :
  (g < length Font6x8)%nat -> 0 <= i <= 5 -> 0 <= b <= 7 ->
  exists single double : Z,
    font_column (FontSingle Font6x8) (Z.of_nat g) i = Ok single /\
    font_column (FontDouble Font6x8) (Z.of_nat g) i = Ok double /\
    0 <= single < 2 ^ 8 /\ 0 <= double < 2 ^ 16 /\
    Z.testbit double (2 * b) = Z.testbit single b /\
    Z.testbit double (2 * b + 1) = Z.testbit single b.
Proof.
  intros Hg Hi Hb.
  destruct (lookup_lt_is_Some_2 Font6x8 g Hg) as [cd Hcd].
  exists (SingleColumn cd i), (DoubleColumn cd i).
  unfold FontSingle, FontDouble.
  rewrite !(font_column_Font _ _ _ cd) by (assumption || lia).
  split; [reflexivity|]. split; [reflexivity|].
  split; [exact (SingleColumn_range cd i)|].
  split; [exact (DoubleColumn_range cd i)|].
  rewrite !DoubleColumn_bits by lia.
  generalize (SingleColumn cd i) as s. intros s.
  split; f_equal; Z.div_mod_to_equations; lia.
Qed.

(** ** Pixel addressing *)

Lemma mask_7f x : u8 (Z.land (u8 x) 0x7f) = x mod 128.
Proof.
  change 0x7f with (Z.ones 7). rewrite Z.land_ones by lia.
  unfold u8. change (2 ^ 8) with 256. change (2 ^ 7) with 128.
  Z.div_mod_to_equations. lia.
Qed.

Lemma mask_3f y : u8 (Z.land (u8 y) 0x3f) = y mod 64.
Proof.
  change 0x3f with (Z.ones 6). rewrite Z.land_ones by lia.
  unfold u8. change (2 ^ 8) with 256. change (2 ^ 6) with 64.
  Z.div_mod_to_equations. lia.
Qed.

(** A check that holds on every element of a range holds on each of them;
    used to settle facts over the small domains of the driver by
    evaluation. *)
Lemma range_check (P : Z -> bool) (lo n : Z) :
  forallb P (seqZ lo n) = true -> forall z, lo <= z < lo + n -> P z = true.
Proof.
  intros H z Hz. rewrite forallb_forall in H. apply H.
  apply list_elem_of_In, elem_of_seqZ. exact Hz.
Qed.

Lemma page_mask y : 0 <= y < 64 -> Z.land y 0xF8 = 8 * (y / 8).
Proof.
  intros Hy. apply Z.eqb_eq.
  apply (range_check (fun y => Z.land y 0xF8 =? 8 * (y / 8)) 0 64);
    [vm_compute; reflexivity|lia].
Qed.

(** The offset of a wrapped coordinate: page [y / 8], column [x], behind
    the control byte. *)
Lemma spec_Offset_eq x y :
  0 <= y < 64 -> spec_Offset x y = 128 * (y / 8) + x + 1.
Proof.
  intros Hy. unfold spec_Offset.
  rewrite Z.shiftl_mul_pow2, page_mask by lia. change (2 ^ 4) with 16. lia.
Qed.

Lemma spec_Offset_range x y :
  0 <= x < 128 -> 0 <= y < 64 -> 1 <= spec_Offset x y <= 1024.
Proof.
  intros Hx Hy. rewrite spec_Offset_eq by lia.
  Z.div_mod_to_equations. lia.
Qed.

Lemma spec_bit_range y : 0 <= spec_bit y < 8.
Proof.
  unfold spec_bit. change 7 with (Z.ones 3). rewrite Z.land_ones by lia.
  apply Z.mod_pos_bound. reflexivity.
Qed.

Lemma pixel_mask_testbit bit n : 0 <= bit ->
  Z.testbit (Z.shiftl 1 bit) n = (bit =? n).
Proof. intros Hb. rewrite Z.shiftl_1_l. apply Z.pow2_bits_eqb. exact Hb. Qed.




Lemma set_framebuffer_id self : set_framebuffer self (mFramebuffer self) = self.
Proof. destruct self. reflexivity. Qed.

Lemma set_framebuffer_twice self fb fb' :
  set_framebuffer (set_framebuffer self fb) fb' = set_framebuffer self fb'.
Proof. reflexivity. Qed.

(** [SetPixel] and [ClearPixel] as a read and a write at the wrapped
    coordinate's offset. *)
Lemma SetPixel_unfold nX nY self :
  SetPixel nX nY self =
  (old ← load (mFramebuffer self) (spec_Offset (nX mod 128) (nY mod 64));
   fb ← store (mFramebuffer self) (spec_Offset (nX mod 128) (nY mod 64))
          (Z.lor old (Z.shiftl 1 (spec_bit (nY mod 64))));
   Ok (set_framebuffer self fb)).
Proof. unfold SetPixel. cbv zeta. rewrite mask_7f, mask_3f. reflexivity. Qed.

Lemma ClearPixel_unfold nX nY self :
  ClearPixel nX nY self =
  (old ← load (mFramebuffer self) (spec_Offset (nX mod 128) (nY mod 64));
   fb ← store (mFramebuffer self) (spec_Offset (nX mod 128) (nY mod 64))
          (Z.land old (Z.lnot (Z.shiftl 1 (spec_bit (nY mod 64)))));
   Ok (set_framebuffer self fb)).
Proof. unfold ClearPixel. cbv zeta. rewrite mask_7f, mask_3f. reflexivity. Qed.

(** With the addressed byte in the buffer, both operations succeed and
    replace that byte alone. *)
Lemma SetPixel_Ok nX nY self old :
  load (mFramebuffer self) (spec_Offset (nX mod 128) (nY mod 64)) = Ok old ->
  SetPixel nX nY self =
  Ok (set_framebuffer self
        (<[Z.to_nat (spec_Offset (nX mod 128) (nY mod 64)) :=
             u8 (Z.lor old (Z.shiftl 1 (spec_bit (nY mod 64))))]>
           (mFramebuffer self))).
Proof.
  intros Hold. rewrite SetPixel_unfold, Hold. cbn.
  rewrite store_in_range by (eapply load_Ok_range; exact Hold). reflexivity.
Qed.

Lemma ClearPixel_Ok nX nY self old :
  load (mFramebuffer self) (spec_Offset (nX mod 128) (nY mod 64)) = Ok old ->
  ClearPixel nX nY self =
  Ok (set_framebuffer self
        (<[Z.to_nat (spec_Offset (nX mod 128) (nY mod 64)) :=
             u8 (Z.land old (Z.lnot (Z.shiftl 1 (spec_bit (nY mod 64)))))]>
           (mFramebuffer self))).
Proof.
  intros Hold. rewrite ClearPixel_unfold, Hold. cbn.
  rewrite store_in_range by (eapply load_Ok_range; exact Hold). reflexivity.
Qed.

(** A buffer of 128 * 64 / 8 + 1 bytes holds the byte of every pixel. *)
Lemma pixel_byte_in_buffer nX nY (fb : list Z) :
  1025 <= Z.of_nat (length fb) ->
  exists old, load fb (spec_Offset (nX mod 128) (nY mod 64)) = Ok old.
Proof.
  intros Hlen. apply load_in_range.
  pose proof (spec_Offset_range (nX mod 128) (nY mod 64)
                (Z.mod_pos_bound nX 128 eq_refl)
                (Z.mod_pos_bound nY 64 eq_refl)).
  lia.
Qed.

(** Without it, both are undefined. *)
Lemma SetPixel_out_of_range nX nY self :
  load (mFramebuffer self) (spec_Offset (nX mod 128) (nY mod 64)) = Undefined ->
  SetPixel nX nY self = Undefined /\ ClearPixel nX nY self = Undefined.
Proof.
  intros H. rewrite SetPixel_unfold, ClearPixel_unfold, H. split; reflexivity.
Qed.

Lemma load_cases (a : list Z) i :
  (exists v, load a i = Ok v) \/ load a i = Undefined.
Proof.
  unfold load. destruct (0 <=? i); [|now right].
  destruct (a !! Z.to_nat i) as [v|]; [left; eauto|now right].
Qed.

Lemma load_insert_eq (a : list Z) i v w :
  load a i = Ok v -> load (<[Z.to_nat i := w]> a) i = Ok w.
Proof.
  intros H. pose proof (load_Ok_range _ _ _ H).
  apply load_Ok. split; [lia|]. apply list_lookup_insert_eq. lia.
Qed.

(** C5.  [SetPixel] reduces [x] modulo 128 and [y] modulo 64, then ors
    [1 << (y & 7)] into the framebuffer byte at offset
    [((y & 0xF8) << 4) + x + 1]; [ClearPixel] ands the complement of that
    bit into the byte at the same offset; no other byte changes.  So
    [SetPixel (128, 0)] and [SetPixel (0, 64)] both act as
    [SetPixel (0, 0)]. *)
Theorem pixel_addressing (nX nY : Z) (self : CSSD1306) (old : Z) :
  let x := nX mod 128 in
  let y := nY mod 64 in
  let offset := Z.shiftl (Z.land y 0xF8) 4 + x + 1 in
  let bit := Z.land y 7 in
  load (mFramebuffer self) offset = Ok old ->
  SetPixel nX nY self
  = Ok (set_framebuffer self
          (<[Z.to_nat offset := u8 (Z.lor old (Z.shiftl 1 bit))]>
             (mFramebuffer self))) /\
  ClearPixel nX nY self
  = Ok (set_framebuffer self
          (<[Z.to_nat offset := u8 (Z.land old (Z.lnot (Z.shiftl 1 bit)))]>
             (mFramebuffer self))) /\
  SetPixel 128 0 self = SetPixel 0 0 self /\
  SetPixel 0 64 self = SetPixel 0 0 self.
Proof.
  intros x y offset bit Hold.
  split; [exact (SetPixel_Ok nX nY self old Hold)|].
  split; [exact (ClearPixel_Ok nX nY self old Hold)|].
  split; rewrite !SetPixel_unfold; reflexivity.
Qed.


(** ** Initialization *)

Lemma set_bus_twice self bus bus' :
  set_bus (set_bus self bus) bus' = set_bus self bus'.
Proof. reflexivity. Qed.

Lemma bus_write_Ok self bus (buffer : list Z) count :
  mI2CMaster self = Some bus ->
  0 <= count <= Z.of_nat (length buffer) ->
  bus_write self buffer count
  = Ok (set_bus self (bus ++ [(mAddress self, take (Z.to_nat count) buffer)])).
Proof.
  intros Hbus Hc. unfold bus_write, CI2CMaster_Write. rewrite Hbus.
  destruct (Z.leb_spec 0 count), (Z.leb_spec count (Z.of_nat (length buffer)));
    try lia.
  reflexivity.
Qed.

Lemma bus_write_null self (buffer : list Z) count :
  mI2CMaster self = None -> bus_write self buffer count = Undefined.
Proof. intros Hbus. unfold bus_write. rewrite Hbus. reflexivity. Qed.

(** The transmission loop of [Initialize] over any list of bytes. *)
Lemma Initialize_loop (bytes : list Z) : forall self bus b0,
  mI2CMaster self = Some bus ->
  exists b1,
    for_each bytes
      (fun byte '(buffer, self) =>
         buffer ← store buffer 1 byte;
         self ← bus_write self buffer 2;
         Ok (buffer, self))
      ([0x80; b0], self)
    = Ok ([0x80; b1],
          if bytes is [] then self
          else set_bus self (bus ++ command_writes (mAddress self) (map u8 bytes))).
Proof.
  induction bytes as [|byte bytes IH]; intros self bus b0 Hbus.
  - exists b0. reflexivity.
  - destruct (IH (set_bus self (bus ++ [(mAddress self, [0x80; u8 byte])]))
                (bus ++ [(mAddress self, [0x80; u8 byte])]) (u8 byte) eq_refl)
      as [b1 E].
    exists b1. cbn [for_each].
    replace (store [0x80; b0] 1 byte) with (Ok [0x80; u8 byte] : result (list Z))
      by reflexivity.
    cbn [mbind result_bind].
    rewrite (bus_write_Ok self bus [0x80; u8 byte] 2 Hbus) by (cbn; lia).
    change (take (Z.to_nat 2) [0x80; u8 byte]) with [0x80; u8 byte].
    cbn [mbind result_bind]. rewrite E.
    destruct bytes as [|byte' bytes]; [reflexivity|].
    rewrite set_bus_twice, <- app_assoc. reflexivity.
Qed.

(** C3, as amended.  With the bus handle present, [Initialize] returns
    failure and sends nothing when the stored height is neither 32 nor 64,
    and otherwise returns success after sending every byte of
    [InitSequence] in order, each as a separate two-byte write behind the
    command-select marker 0x80.  With the handle absent it does not return
    failure: the assertion at its entry fails; where assertions are compiled
    out, the height test comes first and the first write through the null
    handle is undefined. *)
Theorem Initialize_outcome (NDEBUG : bool) (self : CSSD1306) :
  Initialize NDEBUG self =
  let supported := (mHeight self =? 32) || (mHeight self =? 64) in
  match mI2CMaster self with
  | Some bus =>
      if supported
      then Ok (true,
               set_bus self (bus ++ command_writes (mAddress self) InitSequence))
      else Ok (false, self)
  | None =>
      if NDEBUG
      then (if supported then Undefined else Ok (false, self))
      else AssertionFailed
  end.
Proof.
  unfold Initialize, assert_. cbv zeta.
  destruct (mI2CMaster self) as [bus|] eqn:Hbus.
  - replace (if NDEBUG then Ok tt
             else if bool_decide (Some bus ≠ None) then Ok tt
                  else AssertionFailed) with (Ok tt : result unit)
      by (destruct NDEBUG; reflexivity).
    cbn [mbind result_bind].
    destruct ((mHeight self =? 32) || (mHeight self =? 64)); [|reflexivity].
    cbn [negb].
    destruct (Initialize_loop InitSequence self bus 0 Hbus) as [b1 E].
    rewrite E. reflexivity.
  - destruct NDEBUG; [|reflexivity]. cbn [mbind result_bind].
    destruct ((mHeight self =? 32) || (mHeight self =? 64)); [|reflexivity].
    cbn [negb]. unfold InitSequence. cbn [for_each].
    replace (store [0x80; 0] 1 0xAE) with (Ok [0x80; 0xAE] : result (list Z))
      by reflexivity.
    cbn [mbind result_bind]. rewrite (bus_write_null _ _ _ Hbus). reflexivity.
Qed.

(** ** Loops that fill two rows of the framebuffer *)

Lemma in_block_true base width off :
  in_block base width off = true <-> base <= off < base + width.
Proof.
  unfold in_block.
  destruct (Z.leb_spec base off), (Z.ltb_spec off (base + width)); cbn;
    split; (discriminate || lia || reflexivity).
Qed.

Lemma in_block_false base width off :
  in_block base width off = false <-> off < base \/ base + width <= off.
Proof.
  unfold in_block.
  destruct (Z.leb_spec base off), (Z.ltb_spec off (base + width)); cbn;
    split; (discriminate || lia || reflexivity).
Qed.

(** A loop that writes [v1 j] at [b1 + j] and [v2 j] at [b2 + j] for [j]
    in [0 .. n), the second row behind the first: afterwards the two rows
    hold the values and every other byte is as before. *)
Lemma two_rows_loop (v1 v2 : Z -> Z) (b1 b2 : Z) (n : nat) :
  b1 + Z.of_nat n <= b2 ->
  forall fb fb',
  for_each (seqZ 0 (Z.of_nat n))
    (fun j fb => fb ← store fb (b1 + j) (v1 j); store fb (b2 + j) (v2 j)) fb
  = Ok fb' ->
  length fb' = length fb /\
  forall off,
    load fb' off =
    if in_block b1 (Z.of_nat n) off then Ok (u8 (v1 (off - b1)))
    else if in_block b2 (Z.of_nat n) off then Ok (u8 (v2 (off - b2)))
    else load fb off.
Proof.
  induction n as [|n IH]; intros Hrows fb fb' H.
  - cbn in H. injection H as <-. split; [reflexivity|]. intros off.
    change (Z.of_nat 0) with 0.
    rewrite (proj2 (in_block_false b1 0 off)), (proj2 (in_block_false b2 0 off))
      by lia.
    reflexivity.
  - rewrite seqZ_S, for_each_app in H. bind_inv H.
    apply IH in E as [Hlen Hload]; [|lia].
    cbn [for_each] in H. bind_inv H. injection H as <-. bind_inv E.
    split; [rewrite (store_length _ _ _ _ E), (store_length _ _ _ _ E0); exact Hlen|].
    intros off.
    rewrite (load_store _ _ _ _ off E), (load_store _ _ _ _ off E0), Hload.
    replace (Z.of_nat (S n)) with (Z.of_nat n + 1) by lia.
    destruct (Z.eqb_spec off (b2 + (0 + Z.of_nat n))) as [->|Hne2].
    + rewrite (proj2 (in_block_false b1 (Z.of_nat n + 1) _)) by lia.
      rewrite (proj2 (in_block_true b2 (Z.of_nat n + 1) _)) by lia.
      do 3 f_equal. lia.
    + destruct (Z.eqb_spec off (b1 + (0 + Z.of_nat n))) as [->|Hne1].
      * rewrite (proj2 (in_block_true b1 (Z.of_nat n + 1) _)) by lia.
        do 3 f_equal. lia.
      * destruct (in_block b1 (Z.of_nat n) off) eqn:E1.
        { apply in_block_true in E1.
          rewrite (proj2 (in_block_true b1 (Z.of_nat n + 1) _)) by lia.
          reflexivity. }
        apply in_block_false in E1.
        rewrite (proj2 (in_block_false b1 (Z.of_nat n + 1) _)) by lia.
        destruct (in_block b2 (Z.of_nat n) off) eqn:E2.
        { apply in_block_true in E2.
          rewrite (proj2 (in_block_true b2 (Z.of_nat n + 1) _)) by lia.
          reflexivity. }
        apply in_block_false in E2.
        rewrite (proj2 (in_block_false b2 (Z.of_nat n + 1) _)) by lia.
        reflexivity.
Qed.

(** The loop succeeds when both rows lie inside the buffer. *)
Lemma two_rows_loop_total (v1 v2 : Z -> Z) (b1 b2 : Z) (n : Z) (fb : list Z) :
  0 <= b1 -> b1 + n <= Z.of_nat (length fb) ->
  0 <= b2 -> b2 + n <= Z.of_nat (length fb) ->
  exists fb',
    for_each (seqZ 0 n)
      (fun j fb => fb ← store fb (b1 + j) (v1 j); store fb (b2 + j) (v2 j)) fb
    = Ok fb'.
Proof.
  intros H1 H1' H2 H2'.
  destruct (for_each_total (fun a => length a = length fb) (seqZ 0 n)
              (fun j fb => fb ← store fb (b1 + j) (v1 j); store fb (b2 + j) (v2 j)))
    with (s := fb) as (fb' & E & _); [|reflexivity|eauto].
  intros j a Hj Ha. apply elem_of_seqZ in Hj.
  rewrite store_in_range by lia. cbn.
  rewrite store_in_range by (rewrite length_insert; lia).
  eexists. split; [reflexivity|]. rewrite !length_insert. exact Ha.
Qed.

(** ** Level meters *)

Lemma BarGraph_range level top bottom :
  BarGraph level = Ok (top, bottom) ->
  0 <= top < 256 /\ 0 <= bottom < 256.
Proof.
  unfold BarGraph. destruct (8 <? level); intros H; bind_inv H;
    injection H as <- <-; split; (apply u8_range || lia).
Qed.

Lemma PeakMeter_range peak top bottom top' bottom' :
  PeakMeter peak (top, bottom) = Ok (top', bottom') ->
  0 <= top < 256 -> 0 <= bottom < 256 ->
  0 <= top' < 256 /\ 0 <= bottom' < 256.
Proof.
  unfold PeakMeter. destruct (8 <? peak); intros H Ht Hb; bind_inv H;
    injection H as <- <-; split; (apply u8_range || lia).
Qed.

Lemma channel_vals_range self i top bottom :
  channel_vals self i = Ok (top, bottom) ->
  0 <= top < 256 /\ 0 <= bottom < 256.
Proof.
  unfold channel_vals. intros H. bind_inv H. bind_inv H. bind_inv H.
  destruct r0 as [t b]. apply BarGraph_range in E0 as [Ht Hb].
  eapply PeakMeter_range; eauto.
Qed.

Lemma BarGraph_total level :
  0 <= level <= 16 -> exists top bottom, BarGraph level = Ok (top, bottom).
Proof.
  intros Hl. unfold BarGraph. destruct (Z.ltb_spec 8 level).
  - rewrite shl_Ok by lia. cbn. eauto.
  - rewrite shl_Ok by lia. cbn. eauto.
Qed.

Lemma PeakMeter_total peak vals :
  0 <= peak <= 16 -> exists top bottom, PeakMeter peak vals = Ok (top, bottom).
Proof.
  intros Hp. destruct vals as [t b]. unfold PeakMeter.
  destruct (Z.ltb_spec 8 peak).
  - rewrite shl_Ok by lia. cbn. eauto.
  - rewrite shl_Ok by lia. cbn. eauto.
Qed.

(** Channel [i] with peaks drawn: its two 12-byte runs are filled with the
    two values, nothing else changes. *)
Lemma DrawPartLevels_channel_true self i top bottom :
  0 <= i ->
  256 + i * 14 + 128 + 3 + 12 <= Z.of_nat (length (mFramebuffer self)) ->
  channel_vals self i = Ok (top, bottom) ->
  exists fb',
    DrawPartLevels_channel true i self = Ok (set_framebuffer self fb') /\
    length fb' = length (mFramebuffer self) /\
    forall off,
      load fb' off =
      if in_block (256 + i * 14 + 3) 12 off then Ok top
      else if in_block (256 + i * 14 + 128 + 3) 12 off then Ok bottom
      else load (mFramebuffer self) off.
Proof.
  intros Hi Hlen Hvals.
  destruct (channel_vals_range _ _ _ _ Hvals) as [Ht Hb].
  unfold channel_vals in Hvals. unfold DrawPartLevels_channel.
  bind_inv Hvals. bind_inv Hvals. bind_inv Hvals.
  rewrite E. cbn [mbind result_bind]. rewrite E0. cbn [mbind result_bind].
  rewrite E1. cbn [mbind result_bind]. rewrite Hvals. cbn [mbind result_bind].
  rewrite (for_each_ext _ _
             (fun j fb =>
                fb ← store fb (256 + i * 14 + 3 + j) ((fun _ => top) j);
                store fb (256 + i * 14 + 128 + 3 + j) ((fun _ => bottom) j))).
  2:{ intros j fb _. cbv beta.
      replace (256 + i * 14 + j + 3) with (256 + i * 14 + 3 + j) by lia.
      replace (256 + i * 14 + j + 128 + 3) with (256 + i * 14 + 128 + 3 + j)
        by lia.
      reflexivity. }
  destruct (two_rows_loop_total (fun _ => top) (fun _ => bottom)
              (256 + i * 14 + 3) (256 + i * 14 + 128 + 3) 12
              (mFramebuffer self)) as [fb' Hfb']; try lia.
  exists fb'. rewrite Hfb'. split; [reflexivity|].
  apply (two_rows_loop _ _ _ _ 12) in Hfb' as [Hl Hload]; [|lia].
  split; [exact Hl|]. intros off. rewrite Hload.
  change (Z.of_nat 12) with 12. rewrite !u8_small by lia. reflexivity.
Qed.

Lemma DrawPartLevels_channel_false self i :
  DrawPartLevels_channel false i self = Ok self \/
  DrawPartLevels_channel false i self = Undefined.
Proof.
  unfold DrawPartLevels_channel.
  destruct (load_cases (mPartLevels self) i) as [[level ->]| ->];
    [|right; reflexivity].
  cbn [mbind result_bind]. unfold BarGraph, shl.
  destruct (8 <? level).
  - destruct ((0 <=? 8 - (level - 8)) && (8 - (level - 8) <? 32));
      [left|right]; reflexivity.
  - destruct ((0 <=? 8 - level) && (8 - level <? 32));
      [left|right]; reflexivity.
Qed.

(** C1, on the code.  Without peaks [DrawPartLevels] writes nothing: it
    returns the driver as it was, whatever the levels (or is undefined when
    a level cannot be read or exceeds 16).  The bar bytes it computes for
    each channel reach the framebuffer only inside the branch taken when
    peaks are drawn. *)
Theorem DrawPartLevels_without_peaks (self : CSSD1306) :
  DrawPartLevels false self = Ok self \/
  DrawPartLevels false self = Undefined.
Proof.
  unfold DrawPartLevels. generalize (seqZ 0 9) as channels.
  induction channels as [|i channels IH]; cbn [for_each].
  - left. reflexivity.
  - destruct (DrawPartLevels_channel_false self i) as [-> | ->].
    + exact IH.
    + right. reflexivity.
Qed.

Lemma channel_vals_set_framebuffer self fb i :
  channel_vals (set_framebuffer self fb) i = channel_vals self i.
Proof. reflexivity. Qed.

(** The first [n] channels with peaks drawn. *)
Lemma DrawPartLevels_prefix (n : nat) (self : CSSD1306) :
  (n <= 9)%nat ->
  511 <= Z.of_nat (length (mFramebuffer self)) ->
  (forall i, 0 <= i < Z.of_nat n -> exists top bottom,
        channel_vals self i = Ok (top, bottom)) ->
  exists fb',
    for_each (seqZ 0 (Z.of_nat n)) (DrawPartLevels_channel true) self
    = Ok (set_framebuffer self fb') /\
    length fb' = length (mFramebuffer self) /\
    (forall i top bottom off,
        0 <= i < Z.of_nat n -> channel_vals self i = Ok (top, bottom) ->
        (in_block (256 + i * 14 + 3) 12 off = true -> load fb' off = Ok top) /\
        (in_block (256 + i * 14 + 128 + 3) 12 off = true ->
         load fb' off = Ok bottom)) /\
    (forall off, off < 259 \/ 511 <= off ->
                 load fb' off = load (mFramebuffer self) off).
Proof.
  induction n as [|n IH]; intros Hn Hlen Hvals.
  - exists (mFramebuffer self). cbn. rewrite set_framebuffer_id.
    repeat split; try reflexivity; lia.
  - destruct IH as (fb1 & E1 & Hlen1 & Hblocks & Hframe);
      [lia|exact Hlen|intros i Hi; apply Hvals; lia|].
    destruct (Hvals (Z.of_nat n)) as (top & bottom & Hv); [lia|].
    destruct (DrawPartLevels_channel_true (set_framebuffer self fb1)
                (Z.of_nat n) top bottom) as (fb' & E' & Hlen' & Hload);
      [lia|cbn; lia|exact Hv|].
    exists fb'. rewrite seqZ_S, for_each_app, E1. cbn [mbind result_bind for_each].
    rewrite Z.add_0_l, E'. cbn [mbind result_bind].
    split; [reflexivity|]. split; [cbn in Hlen'; lia|].
    cbn [mFramebuffer set_framebuffer] in Hload. split.
    + intros i t b off Hi Hv'. rewrite Hload.
      destruct (Z.eq_dec i (Z.of_nat n)) as [->|Hne].
      * rewrite Hv in Hv'. injection Hv' as <- <-. split; intros Hin.
        { rewrite Hin. reflexivity. }
        apply in_block_true in Hin.
        rewrite (proj2 (in_block_false (256 + Z.of_nat n * 14 + 3) 12 off))
          by lia.
        rewrite (proj2 (in_block_true (256 + Z.of_nat n * 14 + 128 + 3) 12 off))
          by lia.
        reflexivity.
      * destruct (Hblocks i t b off ltac:(lia) Hv') as [Htop Hbot].
        split; intros Hin; pose proof Hin as Hin'; apply in_block_true in Hin';
          rewrite (proj2 (in_block_false (256 + Z.of_nat n * 14 + 3) 12 off)),
            (proj2 (in_block_false (256 + Z.of_nat n * 14 + 128 + 3) 12 off))
            by lia; auto.
    + intros off Hoff. rewrite Hload.
      rewrite (proj2 (in_block_false (256 + Z.of_nat n * 14 + 3) 12 off)),
        (proj2 (in_block_false (256 + Z.of_nat n * 14 + 128 + 3) 12 off))
        by lia.
      apply Hframe. exact Hoff.
Qed.

(** With peaks drawn and every channel's values defined, [DrawPartLevels]
    succeeds and fills all 12 columns of every channel's block with the
    channel's two values. *)
Lemma DrawPartLevels_with_peaks (self : CSSD1306) :
  511 <= Z.of_nat (length (mFramebuffer self)) ->
  (forall i, 0 <= i < 9 -> exists top bottom,
        channel_vals self i = Ok (top, bottom)) ->
  exists fb',
    DrawPartLevels true self = Ok (set_framebuffer self fb') /\
    length fb' = length (mFramebuffer self) /\
    (forall i j top bottom,
        0 <= i < 9 -> 0 <= j < 12 -> channel_vals self i = Ok (top, bottom) ->
        load fb' (256 + i * 14 + j + 3) = Ok top /\
        load fb' (256 + i * 14 + j + 128 + 3) = Ok bottom) /\
    (forall off, off < 259 \/ 511 <= off ->
                 load fb' off = load (mFramebuffer self) off).
Proof.
  intros Hlen Hvals.
  destruct (DrawPartLevels_prefix 9 self) as (fb' & E & Hl & Hblocks & Hframe);
    [lia|exact Hlen|exact Hvals|].
  exists fb'. split; [exact E|]. split; [exact Hl|]. split; [|exact Hframe].
  intros i j top bottom Hi Hj Hv.
  split.
  - apply (proj1 (Hblocks i top bottom _ ltac:(lia) Hv)).
    apply in_block_true. lia.
  - apply (proj2 (Hblocks i top bottom _ ltac:(lia) Hv)).
    apply in_block_true. lia.
Qed.

(** Levels and peaks of at most 16 in all nine channels make every
    channel's values defined. *)
Lemma channel_vals_total self i :
  0 <= i < 9 ->
  length (mPartLevels self) = 9%nat -> length (mPeakLevels self) = 9%nat ->
  Forall (fun l => 0 <= l <= 16) (mPartLevels self) ->
  Forall (fun p => 0 <= p <= 16) (mPeakLevels self) ->
  exists top bottom, channel_vals self i = Ok (top, bottom).
Proof.
  intros Hi Hl Hp Hls Hps. unfold channel_vals.
  destruct (load_in_range (mPartLevels self) i) as [level El]; [lia|].
  destruct (load_in_range (mPeakLevels self) i) as [peak Ep]; [lia|].
  rewrite El. cbn [mbind result_bind].
  assert (0 <= level <= 16) as Hlevel.
  { apply load_Ok in El as [_ El].
    exact (proj1 (Forall_lookup _ _) Hls _ _ El). }
  assert (0 <= peak <= 16) as Hpeak.
  { apply load_Ok in Ep as [_ Ep].
    exact (proj1 (Forall_lookup _ _) Hps _ _ Ep). }
  destruct (BarGraph_total level Hlevel) as (t & b & ->).
  cbn [mbind result_bind]. rewrite Ep. cbn [mbind result_bind].
  apply PeakMeter_total. exact Hpeak.
Qed.

Lemma land_subset_testbit a b n :
  Z.land a b = a -> Z.testbit a n = true -> Z.testbit b n = true.
Proof.
  intros H Ha. rewrite <- H, Z.land_spec in Ha.
  apply andb_true_iff in Ha. tauto.
Qed.

(** C6.  For every level [L] in 0..15 (the same for every channel), the top
    and bottom bar bytes computed for [L + 1] have every bit set that the
    bytes computed for [L] have set. *)
Theorem BarGraph_monotone (level : Z) :
  0 <= level <= 15 ->
  exists top bottom top' bottom',
    BarGraph level = Ok (top, bottom) /\
    BarGraph (level + 1) = Ok (top', bottom') /\
    forall n,
      (Z.testbit top n = true -> Z.testbit top' n = true) /\
      (Z.testbit bottom n = true -> Z.testbit bottom' n = true).
Proof.
  intros Hl.
  pose proof (range_check
    (fun l => match BarGraph l, BarGraph (l + 1) with
              | Ok (t, b), Ok (t', b') =>
                  (Z.land t t' =? t) && (Z.land b b' =? b)
              | _, _ => false
              end) 0 16 ltac:(vm_compute; reflexivity) level ltac:(lia)) as H.
  cbv beta in H.
  destruct (BarGraph level) as [[t b]| |]; try discriminate.
  destruct (BarGraph (level + 1)) as [[t' b']| |]; try discriminate.
  apply andb_true_iff in H as [Ht Hb].
  apply Z.eqb_eq in Ht, Hb.
  exists t, b, t', b'. split; [reflexivity|]. split; [reflexivity|].
  intros n. split; eauto using land_subset_testbit.
Qed.

Lemma peak_zero_byte bottom :
  0 <= bottom < 256 -> u8 (Z.lor bottom (Z.shiftl 1 8)) = bottom.
Proof.
  intros Hb. apply Z.eqb_eq.
  apply (range_check (fun b => u8 (Z.lor b (Z.shiftl 1 8)) =? b) 0 256);
    [vm_compute; reflexivity|lia].
Qed.

Lemma PeakMeter_zero top bottom :
  0 <= bottom < 256 -> PeakMeter 0 (top, bottom) = Ok (top, bottom).
Proof.
  intros Hb. unfold PeakMeter. cbn [Z.ltb Z.compare].
  rewrite shl_Ok by lia. cbn [mbind result_bind Z.sub Z.opp Z.add].
  rewrite peak_zero_byte by exact Hb. reflexivity.
Qed.

(** C10.  With stored values taken modulo 2^8: level 0 gives the bar bytes
    (0, 0), as [0xFF << 8] truncates to 0; peak 0 leaves both bar bytes as
    they are, as [1 << 8] truncates to 0.  So when peaks are drawn, a
    channel whose peak is 0 shows exactly the bar bytes of its level in all
    12 columns of its block, and none of the block's bits is set when its
    level is 0 as well. *)
Theorem zero_level_zero_peak (self : CSSD1306) (i level top bottom : Z) :
  0 <= i < 9 ->
  511 <= Z.of_nat (length (mFramebuffer self)) ->
  length (mPartLevels self) = 9%nat -> length (mPeakLevels self) = 9%nat ->
  Forall (fun l => 0 <= l <= 16) (mPartLevels self) ->
  Forall (fun p => 0 <= p <= 16) (mPeakLevels self) ->
  load (mPartLevels self) i = Ok level ->
  load (mPeakLevels self) i = Ok 0 ->
  BarGraph level = Ok (top, bottom) ->
  BarGraph 0 = Ok (0, 0) /\
  PeakMeter 0 (top, bottom) = Ok (top, bottom) /\
  exists fb',
    DrawPartLevels true self = Ok (set_framebuffer self fb') /\
    forall j, 0 <= j < 12 ->
      load fb' (256 + i * 14 + j + 3) = Ok top /\
      load fb' (256 + i * 14 + j + 128 + 3) = Ok bottom /\
      (level = 0 -> top = 0 /\ bottom = 0).
Proof.
  intros Hi Hlen Hl Hp Hls Hps Elevel Epeak Ebar.
  destruct (BarGraph_range _ _ _ Ebar) as [Ht Hb].
  split; [reflexivity|]. split; [apply PeakMeter_zero; exact Hb|].
  destruct (DrawPartLevels_with_peaks self Hlen) as (fb' & E & _ & Hblocks & _).
  { intros k Hk. apply channel_vals_total; assumption. }
  exists fb'. split; [exact E|]. intros j Hj.
  assert (Hv : channel_vals self i = Ok (top, bottom)).
  { unfold channel_vals. rewrite Elevel. cbn [mbind result_bind].
    rewrite Ebar. cbn [mbind result_bind]. rewrite Epeak.
    cbn [mbind result_bind]. apply PeakMeter_zero. exact Hb. }
  destruct (Hblocks i j top bottom Hi Hj Hv) as [H1 H2].
  split; [exact H1|]. split; [exact H2|].
  intros ->. change (BarGraph 0) with (Ok (0, 0) : result (Z * Z)) in Ebar.
  injection Ebar as <- <-. split; reflexivity.
Qed.

(** ** Glyph lookup *)

Lemma seqZ_0_6 : seqZ 0 6 = [0; 1; 2; 3; 4; 5].
Proof. reflexivity. Qed.

(** The index as a function of the character code. *)
Lemma glyph_index_cases c :
  0 <= c < 256 ->
  glyph_index c = if c =? 255 then 96 else if c <? 32 then c + 224 else c - 32.
Proof.
  intros Hc. unfold glyph_index.
  destruct (Z.eqb_spec c 255) as [->|Hne]; [reflexivity|].
  unfold u8. change (2 ^ 8) with 256.
  destruct (Z.ltb_spec c 32); Z.div_mod_to_equations; lia.
Qed.

Lemma DrawChar_column_out_of_range Font6x8 chChar rowOffset columnOffset
    bInverted bDoubleWidth i fb :
  Z.of_nat (length Font6x8) <= glyph_index chChar ->
  DrawChar_column Font6x8 chChar rowOffset columnOffset bInverted bDoubleWidth
    i fb = Undefined.
Proof.
  intros Hg. unfold DrawChar_column, FontDouble.
  rewrite font_column_out_of_range by exact Hg. reflexivity.
Qed.

Lemma DrawChar_out_of_range Font6x8 chChar nCursorX nCursorY bInverted
    bDoubleWidth self :
  Z.of_nat (length Font6x8) <= glyph_index (u8 chChar) ->
  DrawChar Font6x8 chChar nCursorX nCursorY bInverted bDoubleWidth self
  = Undefined.
Proof.
  intros Hg. unfold DrawChar. cbv zeta. rewrite seqZ_0_6. cbn [for_each].
  rewrite (DrawChar_column_out_of_range _ _ _ _ _ _ 0 (mFramebuffer self) Hg).
  reflexivity.
Qed.

(** C4, on the code.  [DrawChar] remaps the character code 0xFF to the
    placeholder 0x80 and no other code: every other code [c] is looked up
    at index [(c - 0x20) mod 256].  Over a table of [N] glyphs the codes
    without a glyph that are not remapped are the codes below 0x20 whose
    index [c + 224] reaches [N], and the codes from [0x20 + N] on other than
    0xFF; for each of them [DrawChar] reads past the font table, which is
    undefined.  When the table has no glyph for 0xFF (at most 223 glyphs),
    which is what the remapping of 0xFF is there for, these are all
    control characters 0x00 .. 0x1F and all codes [0x20 + N .. 0xFE]. *)
Theorem DrawChar_reads_past_font_table (Font6x8 : list CharData)
    (chChar nCursorX nCursorY : Z) (bInverted bDoubleWidth : bool)
    (self : CSSD1306) :
  let c := u8 chChar in
  let N := Z.of_nat (length Font6x8) in
  glyph_index 0xFF = 0x80 - 0x20 /\
  ((c < 32 /\ N <= c + 224) \/ (32 + N <= c /\ c <> 255) ->
   glyph_index c = (c - 0x20) mod 256 /\
   N <= glyph_index c /\
   DrawChar Font6x8 chChar nCursorX nCursorY bInverted bDoubleWidth self
   = Undefined).
Proof.
  intros c N. split; [reflexivity|]. intros Hcode.
  pose proof (u8_range chChar) as Hc. fold c in Hc.
  pose proof (glyph_index_cases c Hc) as Hidx.
  assert (Hout : N <= glyph_index c).
  { rewrite Hidx. destruct (Z.eqb_spec c 255); [lia|].
    destruct (Z.ltb_spec c 32); lia. }
  split; [|split].
  - rewrite Hidx. destruct (Z.eqb_spec c 255); [lia|].
    destruct (Z.ltb_spec c 32); Z.div_mod_to_equations; lia.
  - exact Hout.
  - apply DrawChar_out_of_range. exact Hout.
Qed.

(** ** The control byte *)

Lemma store_keeps_byte0 (a : list Z) i v a' :
  store a i v = Ok a' -> i <> 0 -> load a' 0 = load a 0.
Proof. intros H Hi. apply (load_store_ne _ _ _ _ 0 H). lia. Qed.

Lemma wrapped_offset_positive nX nY :
  1 <= spec_Offset (nX mod 128) (nY mod 64) <= 1024.
Proof.
  apply spec_Offset_range; apply Z.mod_pos_bound; reflexivity.
Qed.

Lemma SetPixel_keeps_byte0 nX nY self self' :
  SetPixel nX nY self = Ok self' ->
  load (mFramebuffer self') 0 = load (mFramebuffer self) 0.
Proof.
  rewrite SetPixel_unfold. intros H. bind_inv H. bind_inv H.
  injection H as <-. cbn [mFramebuffer set_framebuffer].
  pose proof (wrapped_offset_positive nX nY).
  eapply store_keeps_byte0; [exact E0|lia].
Qed.

Lemma ClearPixel_keeps_byte0 nX nY self self' :
  ClearPixel nX nY self = Ok self' ->
  load (mFramebuffer self') 0 = load (mFramebuffer self) 0.
Proof.
  rewrite ClearPixel_unfold. intros H. bind_inv H. bind_inv H.
  injection H as <-. cbn [mFramebuffer set_framebuffer].
  pose proof (wrapped_offset_positive nX nY).
  eapply store_keeps_byte0; [exact E0|lia].
Qed.

Lemma DrawChar_column_keeps_byte0 Font6x8 chChar rowOffset columnOffset
    bInverted bDoubleWidth i fb fb' :
  0 <= rowOffset -> 4 <= columnOffset -> 0 <= i ->
  DrawChar_column Font6x8 chChar rowOffset columnOffset bInverted bDoubleWidth
    i fb = Ok fb' ->
  load fb' 0 = load fb 0.
Proof.
  intros Hr Hc Hi H. unfold DrawChar_column in H. cbv zeta in H.
  bind_inv H. bind_inv H. bind_inv H.
  assert (H0 : load r1 0 = load fb 0).
  { rewrite (store_keeps_byte0 _ _ _ _ E1), (store_keeps_byte0 _ _ _ _ E0);
      [reflexivity|destruct bDoubleWidth; lia..]. }
  destruct bDoubleWidth.
  - bind_inv H. bind_inv H. bind_inv H.
    rewrite (store_keeps_byte0 _ _ _ _ H), (store_keeps_byte0 _ _ _ _ E3);
      [exact H0|lia..].
  - injection H as <-. exact H0.
Qed.

Lemma DrawChar_keeps_byte0 Font6x8 chChar nCursorX nCursorY bInverted
    bDoubleWidth self self' :
  DrawChar Font6x8 chChar nCursorX nCursorY bInverted bDoubleWidth self
  = Ok self' ->
  load (mFramebuffer self') 0 = load (mFramebuffer self) 0.
Proof.
  unfold DrawChar. cbv zeta. intros H. bind_inv H. injection H as <-.
  cbn [mFramebuffer set_framebuffer].
  pose proof (u8_range nCursorX). pose proof (u8_range nCursorY).
  eapply (for_each_invariant
            (fun a => load a 0 = load (mFramebuffer self) 0));
    [|reflexivity|exact E].
  intros i a a' Hi Ha Hstep. apply elem_of_seqZ in Hi. rewrite <- Ha.
  eapply DrawChar_column_keeps_byte0; [| | |exact Hstep];
    [lia|destruct bDoubleWidth; lia|lia].
Qed.

Lemma WriteFramebuffer_framebuffer self self' :
  WriteFramebuffer self = Ok self' -> mFramebuffer self' = mFramebuffer self.
Proof.
  unfold WriteFramebuffer, bus_write.
  destruct (mI2CMaster self); [|discriminate].
  intros H. bind_inv H. injection H as <-. reflexivity.
Qed.

Lemma Print_text_keeps_byte0 Font6x8 pText nCursorY : forall nCursorX self r,
  Print_text Font6x8 pText nCursorX nCursorY self = Ok r ->
  load (mFramebuffer r.2) 0 = load (mFramebuffer self) 0.
Proof.
  induction pText as [|ch pText IH]; intros x self r H; cbn [Print_text] in H.
  - injection H as <-. reflexivity.
  - destruct (negb (u8 ch =? 0) && (x <? 20)).
    + bind_inv H. apply IH in H. rewrite H.
      eapply DrawChar_keeps_byte0. exact E.
    + injection H as <-. reflexivity.
Qed.

Lemma Print_clear_keeps_byte0 Font6x8 fuel nCursorY : forall nCursorX self r,
  Print_clear Font6x8 fuel nCursorX nCursorY self = Ok r ->
  load (mFramebuffer r.2) 0 = load (mFramebuffer self) 0.
Proof.
  induction fuel as [|fuel IH]; intros x self r H; cbn [Print_clear] in H.
  - injection H as <-. reflexivity.
  - destruct (x <? 20).
    + bind_inv H. apply IH in H. rewrite H.
      eapply DrawChar_keeps_byte0. exact E.
    + injection H as <-. reflexivity.
Qed.

Lemma Print_keeps_byte0 Font6x8 pText nCursorX nCursorY bClearLine bImmediate
    self self' :
  Print Font6x8 pText nCursorX nCursorY bClearLine bImmediate self = Ok self' ->
  load (mFramebuffer self') 0 = load (mFramebuffer self) 0.
Proof.
  unfold Print. cbv zeta. intros H. bind_inv H. destruct r as [x1 s1].
  bind_inv H. destruct r as [x2 s2].
  apply Print_text_keeps_byte0 in E. cbn [snd] in E.
  assert (E2 : load (mFramebuffer s2) 0 = load (mFramebuffer s1) 0).
  { destruct bClearLine.
    - apply Print_clear_keeps_byte0 in E0. exact E0.
    - injection E0 as _ <-. reflexivity. }
  destruct bImmediate.
  - apply WriteFramebuffer_framebuffer in H. rewrite H, E2. exact E.
  - injection H as <-. rewrite E2. exact E.
Qed.

Lemma DrawPartLevels_channel_keeps_byte0 bDrawPeaks i self self' :
  0 <= i ->
  DrawPartLevels_channel bDrawPeaks i self = Ok self' ->
  load (mFramebuffer self') 0 = load (mFramebuffer self) 0.
Proof.
  intros Hi H. unfold DrawPartLevels_channel in H.
  bind_inv H. bind_inv H. destruct bDrawPeaks.
  - bind_inv H. bind_inv H. destruct r2 as [topVal bottomVal].
    bind_inv H. injection H as <-. cbn [mFramebuffer set_framebuffer].
    eapply (for_each_invariant
              (fun a => load a 0 = load (mFramebuffer self) 0));
      [|reflexivity|exact E3].
    intros j a a' Hj Ha Hstep. apply elem_of_seqZ in Hj. bind_inv Hstep.
    rewrite (store_keeps_byte0 _ _ _ _ Hstep), (store_keeps_byte0 _ _ _ _ E4);
      [exact Ha|lia..].
  - injection H as <-. reflexivity.
Qed.

Lemma DrawPartLevels_keeps_byte0 bDrawPeaks self self' :
  DrawPartLevels bDrawPeaks self = Ok self' ->
  load (mFramebuffer self') 0 = load (mFramebuffer self) 0.
Proof.
  unfold DrawPartLevels. intros H.
  eapply (for_each_invariant
            (fun s => load (mFramebuffer s) 0 = load (mFramebuffer self) 0));
    [|reflexivity|exact H].
  intros i s s' Hi Hs Hstep. apply elem_of_seqZ in Hi. rewrite <- Hs.
  eapply DrawPartLevels_channel_keeps_byte0; [|exact Hstep]. lia.
Qed.

Lemma fill_keeps_byte0 (a : list Z) first last value a' :
  1 <= first -> fill a first last value = Ok a' -> load a' 0 = load a 0.
Proof.
  intros Hf H. unfold fill in H.
  eapply (for_each_invariant (fun b => load b 0 = load a 0));
    [|reflexivity|exact H].
  intros i b b' Hi Hb Hstep. apply elem_of_seqZ in Hi.
  rewrite (store_keeps_byte0 _ _ _ _ Hstep); [exact Hb|lia].
Qed.

Lemma Clear_keeps_byte0 self self' :
  Clear self = Ok self' ->
  load (mFramebuffer self') 0 = load (mFramebuffer self) 0.
Proof.
  unfold Clear. intros H. bind_inv H.
  apply WriteFramebuffer_framebuffer in H. rewrite H.
  cbn [mFramebuffer set_framebuffer].
  eapply fill_keeps_byte0; [|exact E]. lia.
Qed.

(** C9.  Right after construction framebuffer byte 0 is the data-mode
    marker 0x40, and each of [SetPixel], [ClearPixel], [DrawChar], [Print],
    [DrawPartLevels] and [Clear] leaves byte 0 as it found it. *)
Theorem control_byte_invariant (Font6x8 : list CharData)
    (FramebufferLength : nat) (NDEBUG : bool)
    (pI2CMaster : option CI2CMaster) (nAddress nHeight : Z)
    (partLevels peakLevels : list Z) (constructed : CSSD1306)
    (op : operation) (self self' : CSSD1306) :
  CSSD1306_new FramebufferLength NDEBUG pI2CMaster nAddress nHeight
    partLevels peakLevels = Ok constructed ->
  run Font6x8 op self = Ok self' ->
  load (mFramebuffer constructed) 0 = Ok 0x40 /\
  load (mFramebuffer self') 0 = load (mFramebuffer self) 0.
Proof.
  intros Hnew Hrun. split.
  - unfold CSSD1306_new in Hnew. cbv zeta in Hnew. bind_inv Hnew.
    injection Hnew as <-. reflexivity.
  - destruct op; cbn [run] in Hrun.
    + eapply SetPixel_keeps_byte0; exact Hrun.
    + eapply ClearPixel_keeps_byte0; exact Hrun.
    + eapply DrawChar_keeps_byte0; exact Hrun.
    + eapply Print_keeps_byte0; exact Hrun.
    + eapply DrawPartLevels_keeps_byte0; exact Hrun.
    + eapply Clear_keeps_byte0; exact Hrun.
Qed.

(** ** Text *)

Lemma in_cells_true y a b off :
  in_cells y a b off = true <->
  y * 256 + a * 6 + 4 <= off < y * 256 + b * 6 + 4 \/
  y * 256 + a * 6 + 4 + 128 <= off < y * 256 + b * 6 + 4 + 128.
Proof.
  unfold in_cells. rewrite orb_true_iff, !in_block_true. lia.
Qed.

Lemma in_cells_false y a b off :
  in_cells y a b off = false <->
  ~ (y * 256 + a * 6 + 4 <= off < y * 256 + b * 6 + 4) /\
  ~ (y * 256 + a * 6 + 4 + 128 <= off < y * 256 + b * 6 + 4 + 128).
Proof.
  rewrite <- not_true_iff_false, in_cells_true. tauto.
Qed.

Lemma low_byte_range v : 0 <= Z.land v 0xFF < 256.
Proof.
  change 0xFF with (Z.ones 8). rewrite Z.land_ones by lia.
  apply Z.mod_pos_bound. reflexivity.
Qed.

(** One column of a glyph, neither inverted nor doubled in width. *)
Lemma DrawChar_column_plain Font6x8 chChar cd rowOffset columnOffset i fb :
  0 <= glyph_index chChar ->
  Font6x8 !! Z.to_nat (glyph_index chChar) = Some cd ->
  0 <= i < 6 ->
  DrawChar_column Font6x8 chChar rowOffset columnOffset false false i fb
  = (fb ← store fb (rowOffset + columnOffset + i)
            (Z.land (DoubleColumn cd i) 0xFF);
     store fb (rowOffset + columnOffset + 128 + i)
       (Z.land (Z.shiftr (DoubleColumn cd i) 8) 0xFF)).
Proof.
  intros Hg Hcd Hi. unfold DrawChar_column, FontDouble.
  rewrite <- (Z2Nat.id (glyph_index chChar)) at 1 by exact Hg.
  rewrite (font_column_Font _ _ _ cd) by assumption.
  cbn [mbind result_bind]. rewrite andb_false_r.
  generalize (DoubleColumn cd i) as column. intros column.
  replace (rowOffset + columnOffset + i + 128)
    with (rowOffset + columnOffset + 128 + i) by lia.
  destruct (store fb (rowOffset + columnOffset + i) (Z.land column 255))
    as [fb1| |]; cbn [mbind result_bind]; [|reflexivity..].
  destruct (store fb1 (rowOffset + columnOffset + 128 + i)
              (Z.land (Z.shiftr column 8) 255)); reflexivity.
Qed.

Lemma glyph_index_nonneg c : 0 <= glyph_index c.
Proof. unfold glyph_index. apply u8_range. Qed.

(** [DrawChar] with its default arguments: the cell shows the glyph and
    every byte outside the cell is as before. *)
Lemma DrawChar_plain Font6x8 chChar cd nCursorX nCursorY self :
  Font6x8 !! Z.to_nat (glyph_index (u8 chChar)) = Some cd ->
  0 <= nCursorX < 256 -> 0 <= nCursorY < 256 ->
  nCursorY * 256 + nCursorX * 6 + 4 + 128 + 6
    <= Z.of_nat (length (mFramebuffer self)) ->
  exists fb',
    DrawChar Font6x8 chChar nCursorX nCursorY false false self
    = Ok (set_framebuffer self fb') /\
    length fb' = length (mFramebuffer self) /\
    shows_glyph fb' cd nCursorX nCursorY /\
    forall off, in_cells nCursorY nCursorX (nCursorX + 1) off = false ->
                load fb' off = load (mFramebuffer self) off.
Proof.
  intros Hcd Hx Hy Hlen. unfold DrawChar. cbv zeta.
  rewrite (u8_small nCursorX), (u8_small nCursorY) by lia.
  pose proof (glyph_index_nonneg (u8 chChar)) as Hg.
  set (base := nCursorY * 128 * 2 + (nCursorX * 6 + 4)).
  rewrite (for_each_ext _ _
             (fun i fb =>
                fb ← store fb (base + i)
                       ((fun i => Z.land (DoubleColumn cd i) 0xFF) i);
                store fb (base + 128 + i)
                  ((fun i => Z.land (Z.shiftr (DoubleColumn cd i) 8) 0xFF) i))).
  2:{ intros i fb Hi. apply elem_of_seqZ in Hi.
      apply DrawChar_column_plain; (assumption || lia). }
  destruct (two_rows_loop_total
              (fun i => Z.land (DoubleColumn cd i) 0xFF)
              (fun i => Z.land (Z.shiftr (DoubleColumn cd i) 8) 0xFF)
              base (base + 128) 6 (mFramebuffer self)) as [fb' Hfb'];
    try (unfold base; lia).
  exists fb'. rewrite Hfb'. split; [reflexivity|].
  apply (two_rows_loop _ _ _ _ 6) in Hfb' as [Hl Hload]; [|lia].
  change (Z.of_nat 6) with 6 in Hload.
  split; [exact Hl|]. split.
  - intros i Hi. rewrite !Hload.
    rewrite (proj2 (in_block_true base 6 _)) by (unfold base; lia).
    rewrite (proj2 (in_block_false base 6 (_ + 128))) by (unfold base; lia).
    rewrite (proj2 (in_block_true (base + 128) 6 _)) by (unfold base; lia).
    rewrite !u8_small by apply low_byte_range.
    split; do 4 f_equal; unfold base; lia.
  - intros off Hoff. apply in_cells_false in Hoff. rewrite Hload.
    rewrite (proj2 (in_block_false base 6 off)) by (unfold base; lia).
    rewrite (proj2 (in_block_false (base + 128) 6 off)) by (unfold base; lia).
    reflexivity.
Qed.

Lemma shows_glyph_frame (fb fb' : list Z) cd x y :
  shows_glyph fb cd x y ->
  (forall off, in_cells y x (x + 1) off = true -> load fb' off = load fb off) ->
  shows_glyph fb' cd x y.
Proof.
  intros Hs Hsame i Hi. destruct (Hs i Hi) as [H1 H2].
  rewrite !Hsame by (apply in_cells_true; lia). auto.
Qed.

(** The first loop of [Print] from column [x]: it draws the characters that
    fit in front of column 20, one cell each, and nothing else; it does not
    look at the characters behind them. *)
Lemma Print_text_cells Font6x8 y :
  0 <= y < 256 ->
  forall pText x self,
  0 <= x <= 20 ->
  Forall (fun ch => u8 ch <> 0 /\
                    glyph_index (u8 ch) < Z.of_nat (length Font6x8))
    (take (Z.to_nat (20 - x)) pText) ->
  y * 256 + 252 <= Z.of_nat (length (mFramebuffer self)) ->
  exists fb',
    Print_text Font6x8 pText x y self
    = Ok (Z.min 20 (x + Z.of_nat (length pText)), set_framebuffer self fb') /\
    length fb' = length (mFramebuffer self) /\
    (forall (k : nat) ch cd,
        pText !! k = Some ch -> x + Z.of_nat k < 20 ->
        Font6x8 !! Z.to_nat (glyph_index (u8 ch)) = Some cd ->
        shows_glyph fb' cd (x + Z.of_nat k) y) /\
    (forall off,
        in_cells y x (Z.min 20 (x + Z.of_nat (length pText))) off = false ->
        load fb' off = load (mFramebuffer self) off).
Proof.
  intros Hy. induction pText as [|ch pText IH]; intros x self Hx Hok Hlen.
  - exists (mFramebuffer self). cbn [Print_text length].
    rewrite set_framebuffer_id. replace (Z.min 20 (x + Z.of_nat 0)) with x by lia.
    split; [reflexivity|]. split; [reflexivity|]. split; [|reflexivity].
    intros k ch cd Hk. discriminate.
  - cbn [Print_text]. destruct (Z.ltb_spec x 20) as [Hlt|Hge].
    + replace (Z.to_nat (20 - x)) with (S (Z.to_nat (20 - (x + 1)))) in Hok
        by lia.
      cbn [take] in Hok.
      inversion Hok as [|? ? [Hnul Hglyph] Hok']; subst.
      destruct (Z.eqb_spec (u8 ch) 0) as [|_]; [contradiction|].
      cbn [negb andb].
      pose proof (glyph_index_nonneg (u8 ch)) as Hg.
      destruct (lookup_lt_is_Some_2 Font6x8 (Z.to_nat (glyph_index (u8 ch))))
        as [cd Hcd]; [lia|].
      destruct (DrawChar_plain Font6x8 ch cd x y self Hcd)
        as (fb1 & E1 & Hl1 & Hshow1 & Hframe1); [lia..|].
      unfold DrawChar_bInverted_default, DrawChar_bDoubleWidth_default.
      rewrite E1. cbn [mbind result_bind]. rewrite (u8_small (x + 1)) by lia.
      destruct (IH (x + 1) (set_framebuffer self fb1))
        as (fb' & E' & Hl' & Hshow' & Hframe');
        [lia|exact Hok'|cbn [mFramebuffer set_framebuffer]; lia|].
      cbn [mFramebuffer set_framebuffer] in Hl', Hframe'.
      exists fb'. rewrite E', set_framebuffer_twice.
      replace (x + Z.of_nat (length (ch :: pText)))
        with (x + 1 + Z.of_nat (length pText)) by (cbn [length]; lia).
      split; [reflexivity|]. split; [lia|]. split.
      * intros [|k] ch' cd' Hk Hfit Hcd'.
        { cbn in Hk. injection Hk as <-. rewrite Hcd in Hcd'.
          injection Hcd' as <-. replace (x + Z.of_nat 0) with x by lia.
          apply (shows_glyph_frame fb1); [exact Hshow1|].
          intros off Hoff. apply Hframe'.
          apply in_cells_true in Hoff. apply in_cells_false. lia. }
        replace (x + Z.of_nat (S k)) with (x + 1 + Z.of_nat k) by lia.
        apply (Hshow' k ch' cd'); [exact Hk|lia|exact Hcd'].
      * intros off Hoff. apply in_cells_false in Hoff.
        rewrite Hframe' by (apply in_cells_false; lia).
        apply Hframe1. apply in_cells_false. lia.
    + rewrite andb_false_r.
      exists (mFramebuffer self). rewrite set_framebuffer_id.
      replace (Z.min 20 (x + Z.of_nat (length (ch :: pText)))) with x by lia.
      split; [reflexivity|]. split; [reflexivity|]. split; [|reflexivity].
      intros k ch' cd' _ Hfit. lia.
Qed.

(** The second loop of [Print] from column [x], with fuel for the columns
    left: it ends at column 20 and fills every cell from [x] on with the
    glyph of the space character. *)
Lemma Print_clear_cells Font6x8 y blank :
  0 <= y < 256 ->
  Font6x8 !! 0%nat = Some blank ->
  forall fuel x self,
  0 <= x <= 20 -> 20 - x <= Z.of_nat fuel ->
  y * 256 + 252 <= Z.of_nat (length (mFramebuffer self)) ->
  exists fb',
    Print_clear Font6x8 fuel x y self = Ok (20, set_framebuffer self fb') /\
    length fb' = length (mFramebuffer self) /\
    (forall k, x <= k < 20 -> shows_glyph fb' blank k y) /\
    (forall off, in_cells y x 20 off = false ->
                 load fb' off = load (mFramebuffer self) off).
Proof.
  intros Hy Hblank.
  induction fuel as [|fuel IH]; intros x self Hx Hfuel Hlen.
  - assert (x = 20) as -> by lia. exists (mFramebuffer self).
    cbn [Print_clear]. rewrite set_framebuffer_id.
    split; [reflexivity|]. split; [reflexivity|]. split; [|reflexivity].
    intros k Hk. lia.
  - cbn [Print_clear]. destruct (Z.ltb_spec x 20) as [Hlt|Hge].
    + destruct (DrawChar_plain Font6x8 32 blank x y self Hblank)
        as (fb1 & E1 & Hl1 & Hshow1 & Hframe1); [lia..|].
      unfold DrawChar_bInverted_default, DrawChar_bDoubleWidth_default.
      rewrite E1. cbn [mbind result_bind]. rewrite (u8_small (x + 1)) by lia.
      destruct (IH (x + 1) (set_framebuffer self fb1))
        as (fb' & E' & Hl' & Hshow' & Hframe');
        [lia|lia|cbn [mFramebuffer set_framebuffer]; lia|].
      cbn [mFramebuffer set_framebuffer] in Hl', Hframe'.
      exists fb'. rewrite E', set_framebuffer_twice.
      split; [reflexivity|]. split; [lia|]. split.
      * intros k Hk. destruct (Z.eq_dec k x) as [->|Hne].
        { apply (shows_glyph_frame fb1); [exact Hshow1|].
          intros off Hoff. apply Hframe'.
          apply in_cells_true in Hoff. apply in_cells_false. lia. }
        apply Hshow'. lia.
      * intros off Hoff. apply in_cells_false in Hoff.
        rewrite Hframe' by (apply in_cells_false; lia).
        apply Hframe1. apply in_cells_false. lia.
    + assert (x = 20) as -> by lia. exists (mFramebuffer self).
      rewrite set_framebuffer_id.
      split; [reflexivity|]. split; [reflexivity|]. split; [|reflexivity].
      intros k Hk. lia.
Qed.

(** The second loop leaves by its condition, not for want of fuel. *)
Lemma Print_clear_exit Font6x8 fuel y : forall x self x' self',
  0 <= x -> 20 - x <= Z.of_nat fuel ->
  Print_clear Font6x8 fuel x y self = Ok (x', self') -> 20 <= x'.
Proof.
  induction fuel as [|fuel IH]; intros x self x' self' Hx Hfuel H;
    cbn [Print_clear] in H.
  - injection H as <- _. lia.
  - destruct (Z.ltb_spec x 20) as [Hlt|Hge].
    + bind_inv H. rewrite (u8_small (x + 1)) in H by lia.
      eapply IH; [| |exact H]; lia.
    + injection H as <- _. exact Hge.
Qed.

(** C7.  [Print] from column 0 of row [y] draws at most 20 characters: the
    cells of the first 20 characters of the text show their glyphs (for a
    text of 30 characters, exactly the first 20), no byte outside the 20
    cells of the row changes, and the characters behind the 20th are not
    looked at (only the first 20 need a glyph).  With [bClearLine] the cells behind the text,
    up to column 19, show the glyph of the space character (for a text of 5
    characters, the cells 5 to 19); without it they keep their bytes.  With
    [bImmediate] one write of the whole framebuffer, [mHeight * 16 + 1]
    bytes as drawn, follows on the bus; without it the bus is left alone. *)
Theorem Print_draws_twenty_cells (Font6x8 : list CharData) (pText : list Z)
    (nCursorY : Z) (bClearLine bImmediate : bool) (self : CSSD1306)
    (blank : CharData) :
  Forall (fun ch => u8 ch <> 0 /\
                    glyph_index (u8 ch) < Z.of_nat (length Font6x8))
    (take 20 pText) ->
  Font6x8 !! 0%nat = Some blank ->
  u8 nCursorY * 256 + 252 <= Z.of_nat (length (mFramebuffer self)) ->
  (bImmediate = true ->
   is_Some (mI2CMaster self) /\
   0 <= mHeight self * 16 + 1 <= Z.of_nat (length (mFramebuffer self))) ->
  exists self',
    Print Font6x8 pText 0 nCursorY bClearLine bImmediate self = Ok self' /\
    (forall (k : nat) ch cd,
        pText !! k = Some ch -> (k < 20)%nat ->
        Font6x8 !! Z.to_nat (glyph_index (u8 ch)) = Some cd ->
        shows_glyph (mFramebuffer self') cd (Z.of_nat k) (u8 nCursorY)) /\
    (forall k, Z.of_nat (length pText) <= k < 20 ->
        if bClearLine
        then shows_glyph (mFramebuffer self') blank k (u8 nCursorY)
        else forall off, in_cells (u8 nCursorY) k (k + 1) off = true ->
               load (mFramebuffer self') off = load (mFramebuffer self) off) /\
    (forall off, in_cells (u8 nCursorY) 0 20 off = false ->
        load (mFramebuffer self') off = load (mFramebuffer self) off) /\
    mI2CMaster self'
    = (if bImmediate
       then (fun bus =>
               bus ++ [(mAddress self,
                        take (Z.to_nat (mHeight self * 16 + 1))
                          (mFramebuffer self'))]) <$> mI2CMaster self
       else mI2CMaster self).
Proof.
  intros Hok Hblank Hlen Himm.
  pose proof (u8_range nCursorY) as Hy. set (y := u8 nCursorY) in *.
  set (x1 := Z.min 20 (0 + Z.of_nat (length pText))).
  destruct (Print_text_cells Font6x8 y Hy pText 0 self)
    as (fb1 & E1 & Hl1 & Hshow1 & Hframe1); [lia|exact Hok|exact Hlen|].
  fold x1 in E1, Hframe1.
  (* the framebuffer after both loops *)
  assert (exists fb2,
    (if bClearLine
     then Print_clear Font6x8 20 x1 y (set_framebuffer self fb1)
     else Ok (x1, set_framebuffer self fb1))
    = Ok (if bClearLine then 20 else x1, set_framebuffer self fb2) /\
    length fb2 = length (mFramebuffer self) /\
    (forall (k : nat) ch cd,
        pText !! k = Some ch -> (k < 20)%nat ->
        Font6x8 !! Z.to_nat (glyph_index (u8 ch)) = Some cd ->
        shows_glyph fb2 cd (Z.of_nat k) y) /\
    (forall k, Z.of_nat (length pText) <= k < 20 ->
        if bClearLine then shows_glyph fb2 blank k y
        else forall off, in_cells y k (k + 1) off = true ->
               load fb2 off = load (mFramebuffer self) off) /\
    (forall off, in_cells y 0 20 off = false ->
        load fb2 off = load (mFramebuffer self) off))
    as (fb2 & E2 & Hl2 & Hshow2 & Hpad2 & Hframe2).
  { destruct bClearLine.
    - destruct (Print_clear_cells Font6x8 y blank Hy Hblank 20 x1
                  (set_framebuffer self fb1))
        as (fb2 & E2 & Hl2 & Hshow2 & Hframe2);
        [lia|lia|cbn [mFramebuffer set_framebuffer]; lia|].
      cbn [mFramebuffer set_framebuffer] in Hl2, Hframe2.
      exists fb2. rewrite E2, set_framebuffer_twice.
      split; [reflexivity|]. split; [lia|]. split; [|split].
      + intros k ch cd Hk Hk20 Hcd.
        pose proof (lookup_lt_Some _ _ _ Hk) as Hklen.
        apply (shows_glyph_frame fb1).
        * replace (Z.of_nat k) with (0 + Z.of_nat k) by lia.
          apply (Hshow1 k ch cd); [exact Hk|lia|exact Hcd].
        * intros off Hoff. apply Hframe2.
          apply in_cells_true in Hoff. apply in_cells_false. lia.
      + intros k Hk. apply Hshow2. lia.
      + intros off Hoff. apply in_cells_false in Hoff.
        rewrite Hframe2 by (apply in_cells_false; lia).
        apply Hframe1. apply in_cells_false. lia.
    - exists fb1. split; [reflexivity|]. split; [exact Hl1|]. split; [|split].
      + intros k ch cd Hk Hk20 Hcd.
        replace (Z.of_nat k) with (0 + Z.of_nat k) by lia.
        apply (Hshow1 k ch cd); [exact Hk|lia|exact Hcd].
      + intros k Hk off Hoff. apply Hframe1.
        apply in_cells_true in Hoff. apply in_cells_false. lia.
      + intros off Hoff. apply in_cells_false in Hoff.
        apply Hframe1. apply in_cells_false. lia. }
  unfold Print. cbv zeta. fold y. change (u8 0) with 0.
  rewrite E1. cbn [mbind result_bind]. rewrite E2. cbn [mbind result_bind].
  destruct bImmediate.
  - destruct (Himm eq_refl) as [[bus Hbus] Hheight].
    unfold WriteFramebuffer.
    rewrite (bus_write_Ok (set_framebuffer self fb2) bus fb2 _ Hbus)
      by (cbn [mHeight set_framebuffer]; lia).
    eexists. split; [reflexivity|]. cbn [mFramebuffer set_bus mI2CMaster].
    cbn [mFramebuffer set_framebuffer mAddress mHeight].
    rewrite Hbus. auto.
  - eexists. split; [reflexivity|]. cbn [mFramebuffer set_framebuffer mI2CMaster].
    auto.
Qed.

(** * Instances and counterexamples *)

Lemma sample_driver_length :
  Z.of_nat (length (mFramebuffer sample_driver)) = 1025.
Proof. reflexivity. Qed.

Lemma sample_Font6x8_length : Z.of_nat (length sample_Font6x8) = 97.
Proof. reflexivity. Qed.

(** C1, at channel 0 with level 16: the bar bytes are (0xFF, 0xFF); drawn
    with peaks they fill the block, drawn without peaks the block stays
    empty. *)
Example level_16_bars_need_peaks :
  BarGraph 16 = Ok (0xFF, 0xFF) /\
  DrawPartLevels false sample_driver_full_level = Ok sample_driver_full_level /\
  load (mFramebuffer sample_driver_full_level) 259 = Ok 0 /\
  exists drawn,
    DrawPartLevels true sample_driver_full_level = Ok drawn /\
    load (mFramebuffer drawn) 259 = Ok 0xFF /\
    load (mFramebuffer drawn) (259 + 128) = Ok 0xFF.
Proof.
  split; [reflexivity|]. split; [vm_compute; reflexivity|].
  split; [reflexivity|].
  vm_compute. eexists. split; [reflexivity|]. split; reflexivity.
Qed.



(** C3: with a null bus handle and height 32, [Initialize] does not return
    failure: the assertion fails, or, with assertions compiled out, the
    first write goes through the null handle. *)
Lemma Initialize_null_handle_no_failure_return :
  Initialize false sample_driver_no_bus = AssertionFailed /\
  Initialize true sample_driver_no_bus = Undefined.
Proof. split; reflexivity. Qed.

(** C4, at the line feed (code 10) over a table without a glyph for
    0xFF: the code is not remapped, its index is 234, and [DrawChar] reads
    past the table. *)
Lemma DrawChar_reads_past_font_table_witness :
  glyph_index (u8 10) = 234 /\
  DrawChar sample_Font6x8 10 0 0 false false sample_driver = Undefined.
Proof.
  destruct (proj2 (DrawChar_reads_past_font_table sample_Font6x8 10 0 0
                     false false sample_driver)) as (Hidx & _ & Hdraw).
  - left. rewrite sample_Font6x8_length. change (u8 10) with 10. lia.
  - split; [exact Hidx|exact Hdraw].
Defined.

Lemma pixel_addressing_witness :
  load (mFramebuffer sample_driver) 131 = Ok 0 /\
  SetPixel 130 77 sample_driver
  = Ok (set_framebuffer sample_driver
          (<[131%nat := 32]> (mFramebuffer sample_driver))) /\
  ClearPixel 130 77 sample_driver = Ok sample_driver /\
  SetPixel 128 0 sample_driver = SetPixel 0 0 sample_driver /\
  SetPixel 0 64 sample_driver = SetPixel 0 0 sample_driver.
Proof.
  split; [reflexivity|].
  destruct (pixel_addressing 130 77 sample_driver 0 eq_refl)
    as (Hset & Hclear & Hx & Hy).
  split; [exact Hset|]. split; [|split; [exact Hx|exact Hy]].
  rewrite Hclear. reflexivity.
Defined.

Lemma BarGraph_monotone_witness :
  exists top bottom top' bottom',
    BarGraph 8 = Ok (top, bottom) /\
    BarGraph (8 + 1) = Ok (top', bottom') /\
    forall n,
      (Z.testbit top n = true -> Z.testbit top' n = true) /\
      (Z.testbit bottom n = true -> Z.testbit bottom' n = true).
Proof. apply (BarGraph_monotone 8). lia. Defined.

Lemma sample_text_ok :
  Forall (fun ch => u8 ch <> 0 /\
                    glyph_index (u8 ch) < Z.of_nat (length sample_Font6x8))
    (take 20 sample_text).
Proof.
  change (take 20 sample_text) with (seqZ 65 20).
  apply Forall_seqZ. intros ch Hch. rewrite sample_Font6x8_length.
  rewrite (u8_small ch) by lia. rewrite glyph_index_cases by lia.
  destruct (Z.eqb_spec ch 255); [lia|]. destruct (Z.ltb_spec ch 32); lia.
Qed.

Lemma Print_draws_twenty_cells_witness :
  length sample_text = 30%nat /\
  exists self',
    Print sample_Font6x8 sample_text 0 0 true true sample_driver = Ok self' /\
    (forall off, in_cells (u8 0) 0 20 off = false ->
       load (mFramebuffer self') off = load (mFramebuffer sample_driver) off).
Proof.
  split; [reflexivity|].
  destruct (Print_draws_twenty_cells sample_Font6x8 sample_text 0 true true
              sample_driver [0x0E; 0x11; 0x11; 0x1F; 0x11; 0x11; 0x11; 0x00])
    as (self' & E & _ & _ & Hframe & _).
  - exact sample_text_ok.
  - reflexivity.
  - rewrite sample_driver_length. change (u8 0) with 0. lia.
  - intros _. split; [eexists; reflexivity|].
    rewrite sample_driver_length. change (mHeight sample_driver) with 64. lia.
  - exists self'. split; [exact E|exact Hframe].
Defined.

Lemma double_height_duplicates_bits_witness :
  exists single double : Z,
    font_column (FontSingle sample_Font6x8) (Z.of_nat 33) 2 = Ok single /\
    font_column (FontDouble sample_Font6x8) (Z.of_nat 33) 2 = Ok double /\
    0 <= single < 2 ^ 8 /\ 0 <= double < 2 ^ 16 /\
    Z.testbit double (2 * 3) = Z.testbit single 3 /\
    Z.testbit double (2 * 3 + 1) = Z.testbit single 3.
Proof.
  apply (double_height_duplicates_bits sample_Font6x8 33 2 3).
  - vm_compute. lia.
  - lia.
  - lia.
Defined.

Lemma control_byte_invariant_witness :
  load (mFramebuffer sample_driver) 0 = Ok 0x40 /\
  exists self',
    run sample_Font6x8 (OpPrint [72; 105] 0 0 true false) sample_driver
    = Ok self' /\
    load (mFramebuffer self') 0 = Ok 0x40.
Proof.
  assert (exists self',
             run sample_Font6x8 (OpPrint [72; 105] 0 0 true false)
               sample_driver = Ok self') as [self' E]
    by (vm_compute; eexists; reflexivity).
  destruct (control_byte_invariant sample_Font6x8 1025 false (Some []) 0x3C 64
              (replicate 9 0) (replicate 9 0) sample_driver
              (OpPrint [72; 105] 0 0 true false) sample_driver self'
              eq_refl E) as [Hnew Hkeep].
  split; [exact Hnew|]. exists self'. split; [exact E|].
  rewrite Hkeep. exact Hnew.
Defined.

Lemma zero_level_zero_peak_witness :
  BarGraph 0 = Ok (0, 0) /\
  PeakMeter 0 (0, 0) = Ok (0, 0) /\
  exists fb',
    DrawPartLevels true sample_driver = Ok (set_framebuffer sample_driver fb') /\
    forall j, 0 <= j < 12 ->
      load fb' (256 + 4 * 14 + j + 3) = Ok 0 /\
      load fb' (256 + 4 * 14 + j + 128 + 3) = Ok 0 /\
      (0 = 0 -> 0 = 0 /\ 0 = 0).
Proof.
  apply (zero_level_zero_peak sample_driver 4 0 0 0).
  - lia.
  - rewrite sample_driver_length. lia.
  - reflexivity.
  - reflexivity.
  - repeat constructor; lia.
  - repeat constructor; lia.
  - reflexivity.
  - reflexivity.
  - reflexivity.
Defined.

(** * Further properties *)

(** ** Font conversion *)

Lemma testbit_above_range v n bound :
  0 <= v < 2 ^ bound -> 0 <= bound <= n -> Z.testbit v n = false.
Proof.
  intros Hv Hn. rewrite <- (Z.mod_small v (2 ^ bound)) by exact Hv.
  apply Z.mod_pow2_bits_high. lia.
Qed.

(** X1.  The single-height table holds, for glyph [g] and column [i], a byte
    whose bit [n] is bit [5 - i] of row [n] of the glyph: the conversion
    transposes the 6 x 8 bitmap, leftmost pixel (bit 5) to column 0, row 0
    to bit 0. *)
Theorem FontSingle_transposes (Font6x8 : list CharData) (g : nat)
    (cd : CharData) (i : Z) :
  Font6x8 !! g = Some cd -> 0 <= i <= 5 ->
  exists column,
    font_column (FontSingle Font6x8) (Z.of_nat g) i = Ok column /\
    0 <= column < 256 /\
    forall n, 0 <= n <= 7 ->
      Z.testbit column n = Z.testbit (row cd n) (5 - i).
Proof.
  intros Hg Hi. exists (SingleColumn cd i). unfold FontSingle.
  rewrite (font_column_Font _ _ _ cd) by (assumption || lia).
  split; [reflexivity|]. split; [exact (SingleColumn_range cd i)|].
  intros n Hn. apply SingleColumn_bits; lia.
Qed.

Lemma FontSingle_transposes_witness :
  exists column,
    font_column (FontSingle sample_Font6x8) (Z.of_nat 33) 1 = Ok column /\
    0 <= column < 256 /\
    forall n, 0 <= n <= 7 ->
      Z.testbit column n
      = Z.testbit (row [0x0E; 0x11; 0x11; 0x1F; 0x11; 0x11; 0x11; 0x00] n)
          (5 - 1).
Proof.
  apply (FontSingle_transposes sample_Font6x8 33).
  - reflexivity.
  - lia.
Defined.

(** X2.  The six columns of a glyph keep exactly the six low bits of each
    of its eight rows: two glyphs convert to the same columns if and only if
    their rows agree modulo 64. *)
Theorem SingleColumn_keeps_six_bits (cd cd' : CharData) :
  (forall n, 0 <= n <= 7 -> row cd n mod 64 = row cd' n mod 64) <->
  (forall i, 0 <= i <= 5 -> SingleColumn cd i = SingleColumn cd' i).
Proof.
  split.
  - intros Hrows i Hi. apply Z.bits_inj'. intros n Hn.
    destruct (Z_lt_le_dec n 8) as [Hlt|Hge].
    + rewrite !SingleColumn_bits by lia.
      rewrite <- (Z.mod_pow2_bits_low (row cd n) 6) by lia.
      rewrite <- (Z.mod_pow2_bits_low (row cd' n) 6) by lia.
      change (2 ^ 6) with 64. rewrite Hrows by lia. reflexivity.
    + rewrite !(testbit_above_range _ n 8);
        [reflexivity|apply SingleColumn_range|lia|apply SingleColumn_range|lia].
  - intros Hcols n Hn. change 64 with (2 ^ 6). apply Z.bits_inj'. intros k Hk.
    rewrite !Z.testbit_mod_pow2 by lia.
    destruct (Z.ltb_spec k 6) as [Hlt|Hge]; [|reflexivity].
    cbn [andb]. replace k with (5 - (5 - k)) by lia.
    rewrite <- !SingleColumn_bits by lia. rewrite Hcols by lia. reflexivity.
Qed.

(** ** Pixels *)

Lemma spec_bit_mod y : spec_bit y = y mod 8.
Proof.
  unfold spec_bit. change 7 with (Z.ones 3). rewrite Z.land_ones by lia.
  reflexivity.
Qed.

Lemma load_insert (a : list Z) i v j :
  0 <= i < Z.of_nat (length a) ->
  load (<[Z.to_nat i := v]> a) j = if j =? i then Ok v else load a j.
Proof.
  intros Hi. destruct (Z.eqb_spec j i) as [->|Hne].
  - apply load_Ok. split; [lia|]. apply list_lookup_insert_eq. lia.
  - unfold load. destruct (Z.leb_spec 0 j); [|reflexivity].
    rewrite list_lookup_insert_ne by lia. reflexivity.
Qed.

Lemma load_Undefined (a : list Z) i :
  load a i = Undefined <-> ~ (0 <= i < Z.of_nat (length a)).
Proof.
  split.
  - intros H Hi. destruct (load_in_range a i Hi) as [v Hv]. congruence.
  - intros Hi. destruct (load_cases a i) as [[v Hv]|H]; [|exact H].
    apply load_Ok_range in Hv. contradiction.
Qed.

Lemma load_insert_Undefined (a : list Z) i k v :
  load a i = Undefined -> load (<[k := v]> a) i = Undefined.
Proof. rewrite !load_Undefined, length_insert. auto. Qed.

(** [SetPixel] and [ClearPixel] as one read followed by the update of the
    byte read. *)
Lemma SetPixel_bind nX nY self :
  SetPixel nX nY self =
  (old ← load (mFramebuffer self) (spec_Offset (nX mod 128) (nY mod 64));
   Ok (set_framebuffer self
         (<[Z.to_nat (spec_Offset (nX mod 128) (nY mod 64)) :=
              u8 (Z.lor old (Z.shiftl 1 (spec_bit (nY mod 64))))]>
            (mFramebuffer self)))).
Proof.
  destruct (load_cases (mFramebuffer self)
              (spec_Offset (nX mod 128) (nY mod 64))) as [[old Hold]|Hund].
  - rewrite (SetPixel_Ok _ _ _ _ Hold), Hold. reflexivity.
  - destruct (SetPixel_out_of_range _ _ _ Hund) as [-> _]. rewrite Hund.
    reflexivity.
Qed.

Lemma ClearPixel_bind nX nY self :
  ClearPixel nX nY self =
  (old ← load (mFramebuffer self) (spec_Offset (nX mod 128) (nY mod 64));
   Ok (set_framebuffer self
         (<[Z.to_nat (spec_Offset (nX mod 128) (nY mod 64)) :=
              u8 (Z.land old (Z.lnot (Z.shiftl 1 (spec_bit (nY mod 64)))))]>
            (mFramebuffer self)))).
Proof.
  destruct (load_cases (mFramebuffer self)
              (spec_Offset (nX mod 128) (nY mod 64))) as [[old Hold]|Hund].
  - rewrite (ClearPixel_Ok _ _ _ _ Hold), Hold. reflexivity.
  - destruct (SetPixel_out_of_range _ _ _ Hund) as [_ ->]. rewrite Hund.
    reflexivity.
Qed.

(** The pixel at [(x, y)] after the byte at the offset of [(X, Y)] has been
    replaced: the new byte's bit for the pixels of that byte, the old state
    for every other pixel. *)
Lemma pixel_lit_insert (fb : list Z) X Y x y old v :
  0 <= X < 128 -> 0 <= Y < 64 -> 0 <= x < 128 -> 0 <= y < 64 ->
  load fb (spec_Offset X Y) = Ok old ->
  pixel_lit (<[Z.to_nat (spec_Offset X Y) := v]> fb) x y
  = if (x =? X) && (y / 8 =? Y / 8) then Ok (Z.testbit v (y mod 8))
    else pixel_lit fb x y.
Proof.
  intros HX HY Hx Hy Hold. unfold pixel_lit.
  rewrite load_insert by (eapply load_Ok_range; exact Hold).
  rewrite spec_Offset_eq by lia.
  assert (0 <= y / 8 < 8 /\ 0 <= Y / 8 < 8) as [Hp HP]
    by (split; Z.div_mod_to_equations; lia).
  destruct (Z.eqb_spec x X) as [->|Hne], (Z.eqb_spec (y / 8) (Y / 8)) as [E|E];
    cbn [andb].
  - rewrite E. rewrite (proj2 (Z.eqb_eq _ _)) by lia. reflexivity.
  - rewrite (proj2 (Z.eqb_neq _ _)) by lia. reflexivity.
  - rewrite (proj2 (Z.eqb_neq _ _)) by lia. reflexivity.
  - rewrite (proj2 (Z.eqb_neq _ _)) by lia. reflexivity.
Qed.

(** X3.  On a framebuffer of at least 1025 bytes [SetPixel] and [ClearPixel]
    succeed for every argument, and of the 128 x 64 pixels they change the
    addressed one alone: afterwards the pixel at the wrapped coordinate is
    lit (dark), every other pixel is as it was. *)
Theorem SetPixel_ClearPixel_one_pixel (nX nY : Z) (self : CSSD1306) (x y : Z) :
  1025 <= Z.of_nat (length (mFramebuffer self)) ->
  0 <= x < 128 -> 0 <= y < 64 ->
  exists lit dark,
    SetPixel nX nY self = Ok lit /\
    ClearPixel nX nY self = Ok dark /\
    pixel_lit (mFramebuffer lit) x y
    = (if (x =? nX mod 128) && (y =? nY mod 64) then Ok true
       else pixel_lit (mFramebuffer self) x y) /\
    pixel_lit (mFramebuffer dark) x y
    = (if (x =? nX mod 128) && (y =? nY mod 64) then Ok false
       else pixel_lit (mFramebuffer self) x y).
Proof.
  intros Hlen Hx Hy.
  pose proof (Z.mod_pos_bound nX 128 eq_refl) as HX.
  pose proof (Z.mod_pos_bound nY 64 eq_refl) as HY.
  destruct (pixel_byte_in_buffer nX nY _ Hlen) as [old Hold].
  eexists. eexists.
  split; [exact (SetPixel_Ok _ _ _ _ Hold)|].
  split; [exact (ClearPixel_Ok _ _ _ _ Hold)|].
  cbn [mFramebuffer set_framebuffer].
  rewrite !(pixel_lit_insert _ _ _ x y old) by assumption.
  pose proof (Z.mod_pos_bound y 8 eq_refl) as Hb.
  rewrite !u8_testbit, Z.lor_spec, Z.land_spec, Z.lnot_spec by lia.
  rewrite pixel_mask_testbit, spec_bit_mod
    by (pose proof (spec_bit_range (nY mod 64)); lia).
  replace (y mod 8 <? 8) with true by (symmetry; apply Z.ltb_lt; lia).
  cbn [andb].
  destruct (Z.eqb_spec x (nX mod 128)) as [Ex|Ex]; cbn [andb];
    [|split; reflexivity].
  destruct (Z.eqb_spec (y / 8) (nY mod 64 / 8)) as [Ep|Ep].
  - destruct (Z.eqb_spec y (nY mod 64)) as [Ey|Ey].
    + rewrite Ey, Z.eqb_refl, orb_true_r, andb_false_r. split; reflexivity.
    + rewrite (proj2 (Z.eqb_neq (nY mod 64 mod 8) (y mod 8)))
        by (Z.div_mod_to_equations; lia).
      rewrite orb_false_r, andb_true_r.
      unfold pixel_lit.
      replace (1 + 128 * (y / 8) + x)
        with (spec_Offset (nX mod 128) (nY mod 64))
        by (rewrite spec_Offset_eq by lia; lia).
      rewrite Hold. split; reflexivity.
  - destruct (Z.eqb_spec y (nY mod 64)) as [Ey|Ey]; [|split; reflexivity].
    subst y. contradiction.
Qed.

Lemma SetPixel_ClearPixel_one_pixel_witness :
  exists lit dark,
    SetPixel 130 77 sample_driver = Ok lit /\
    ClearPixel 130 77 sample_driver = Ok dark /\
    pixel_lit (mFramebuffer lit) 2 13 = Ok true /\
    pixel_lit (mFramebuffer dark) 2 13 = Ok false.
Proof.
  destruct (SetPixel_ClearPixel_one_pixel 130 77 sample_driver 2 13)
    as (lit & dark & Hs & Hc & Hlit & Hdark).
  - rewrite sample_driver_length. lia.
  - lia.
  - lia.
  - exists lit, dark. split; [exact Hs|]. split; [exact Hc|].
    split; [exact Hlit|exact Hdark].
Defined.

Lemma clear_clear_byte old bit : 0 <= bit ->
  u8 (Z.land (u8 (Z.land old (Z.lnot (Z.shiftl 1 bit)))) (Z.lnot (Z.shiftl 1 bit)))
  = u8 (Z.land old (Z.lnot (Z.shiftl 1 bit))).
Proof.
  intros Hb. apply Z.bits_inj'. intros n Hn.
  rewrite !u8_testbit, !Z.land_spec, !u8_testbit, !Z.land_spec by lia.
  rewrite Z.lnot_spec, pixel_mask_testbit by lia.
  destruct (n <? 8), (Z.testbit old n), (bit =? n); reflexivity.
Qed.

Lemma clear_set_byte old bit : 0 <= bit ->
  u8 (Z.lor (u8 (Z.land old (Z.lnot (Z.shiftl 1 bit)))) (Z.shiftl 1 bit))
  = u8 (Z.lor old (Z.shiftl 1 bit)).
Proof.
  intros Hb. apply Z.bits_inj'. intros n Hn.
  rewrite !u8_testbit, !Z.lor_spec, !u8_testbit, !Z.land_spec by lia.
  rewrite Z.lnot_spec, pixel_mask_testbit by lia.
  destruct (n <? 8), (Z.testbit old n), (bit =? n); reflexivity.
Qed.

Lemma set_set_commute_byte old bit bit' : 0 <= bit -> 0 <= bit' ->
  u8 (Z.lor (u8 (Z.lor old (Z.shiftl 1 bit))) (Z.shiftl 1 bit'))
  = u8 (Z.lor (u8 (Z.lor old (Z.shiftl 1 bit'))) (Z.shiftl 1 bit)).
Proof.
  intros Hb Hb'. apply Z.bits_inj'. intros n Hn.
  rewrite !u8_testbit, !Z.lor_spec, !u8_testbit, !Z.lor_spec by lia.
  rewrite !pixel_mask_testbit by lia.
  destruct (n <? 8), (Z.testbit old n), (bit =? n), (bit' =? n); reflexivity.
Qed.

(** X4.  How the pixel operations compose, on every framebuffer and for
    all arguments: [ClearPixel] is idempotent; [ClearPixel] followed by
    [SetPixel] at the same coordinate is [SetPixel] alone; two [SetPixel]
    calls give the same result in either order. *)
Theorem pixel_operations_compose (nX nY nX' nY' : Z) (self : CSSD1306) :
  (c ← ClearPixel nX nY self; ClearPixel nX nY c) = ClearPixel nX nY self /\
  (c ← ClearPixel nX nY self; SetPixel nX nY c) = SetPixel nX nY self /\
  (s ← SetPixel nX nY self; SetPixel nX' nY' s)
  = (s ← SetPixel nX' nY' self; SetPixel nX nY s).
Proof.
  pose proof (spec_bit_range (nY mod 64)) as Hbit.
  pose proof (spec_bit_range (nY' mod 64)) as Hbit'.
  set (o := spec_Offset (nX mod 128) (nY mod 64)).
  set (o' := spec_Offset (nX' mod 128) (nY' mod 64)).
  split; [|split].
  - rewrite (ClearPixel_bind nX nY self). fold o.
    destruct (load_cases (mFramebuffer self) o) as [[old Hold]| ->];
      [|reflexivity].
    rewrite Hold. cbn [mbind result_bind]. rewrite ClearPixel_bind. fold o.
    cbn [mFramebuffer set_framebuffer].
    rewrite (load_insert_eq _ _ _ _ Hold). cbn [mbind result_bind].
    rewrite list_insert_insert_eq, clear_clear_byte by lia. reflexivity.
  - rewrite (ClearPixel_bind nX nY self), (SetPixel_bind nX nY self). fold o.
    destruct (load_cases (mFramebuffer self) o) as [[old Hold]| ->];
      [|reflexivity].
    rewrite Hold. cbn [mbind result_bind]. rewrite SetPixel_bind. fold o.
    cbn [mFramebuffer set_framebuffer].
    rewrite (load_insert_eq _ _ _ _ Hold). cbn [mbind result_bind].
    rewrite list_insert_insert_eq, clear_set_byte by lia. reflexivity.
  - rewrite (SetPixel_bind nX nY self), (SetPixel_bind nX' nY' self).
    fold o o'.
    destruct (load_cases (mFramebuffer self) o) as [[old Hold]|Hund];
      destruct (load_cases (mFramebuffer self) o') as [[old' Hold']|Hund'].
    + pose proof (load_Ok_range _ _ _ Hold) as Ho.
      pose proof (load_Ok_range _ _ _ Hold') as Ho'.
      rewrite Hold, Hold'. cbn [mbind result_bind].
      rewrite !SetPixel_bind. fold o o'. cbn [mFramebuffer set_framebuffer].
      rewrite !load_insert by lia.
      destruct (Z.eqb_spec o' o) as [E|E].
      * rewrite E in *. rewrite Z.eqb_refl. cbn [mbind result_bind].
        rewrite Hold in Hold'. injection Hold' as <-.
        rewrite !list_insert_insert_eq.
        rewrite (set_set_commute_byte old) by lia. reflexivity.
      * rewrite (proj2 (Z.eqb_neq o o')) by lia.
        rewrite Hold, Hold'. cbn [mbind result_bind].
        rewrite (list_insert_insert_ne _ (Z.to_nat o) (Z.to_nat o')) by lia. reflexivity.
    + rewrite Hold, Hund'. cbn [mbind result_bind].
      rewrite SetPixel_bind. fold o'. cbn [mFramebuffer set_framebuffer].
      rewrite (load_insert_Undefined _ _ _ _ Hund'). reflexivity.
    + rewrite Hund, Hold'. cbn [mbind result_bind].
      rewrite SetPixel_bind. fold o. cbn [mFramebuffer set_framebuffer].
      rewrite (load_insert_Undefined _ _ _ _ Hund). reflexivity.
    + rewrite Hund, Hund'. reflexivity.
Qed.

Lemma WriteFramebuffer_Ok self bus :
  mI2CMaster self = Some bus ->
  0 <= mHeight self * 16 + 1 <= Z.of_nat (length (mFramebuffer self)) ->
  WriteFramebuffer self
  = Ok (set_bus self
          (bus ++ [(mAddress self,
                    take (Z.to_nat (mHeight self * 16 + 1))
                      (mFramebuffer self))])).
Proof. intros Hbus Hh. unfold WriteFramebuffer. apply bus_write_Ok; assumption. Qed.

(** X5.  [SetPixel] and [ClearPixel] wrap the row at 64 whatever the stored
    height.  On a driver of height 32 a row from 32 to 63 addresses a byte
    behind the 513 bytes [WriteFramebuffer] sends: the call changes nothing
    of what is transmitted. *)
Theorem pixel_rows_beyond_height_32_not_sent (nX nY : Z)
    (self changed : CSSD1306) (bus : CI2CMaster) :
  mHeight self = 32 ->
  mI2CMaster self = Some bus ->
  32 <= nY mod 64 ->
  SetPixel nX nY self = Ok changed \/ ClearPixel nX nY self = Ok changed ->
  exists frame,
    length frame = 513%nat /\
    WriteFramebuffer self
    = Ok (set_bus self (bus ++ [(mAddress self, frame)])) /\
    WriteFramebuffer changed
    = Ok (set_bus changed (bus ++ [(mAddress self, frame)])).
Proof.
  intros Hh Hbus Hrow Hop.
  pose proof (Z.mod_pos_bound nX 128 eq_refl) as HX.
  pose proof (Z.mod_pos_bound nY 64 eq_refl) as HY.
  assert (Hoff : 513 <= spec_Offset (nX mod 128) (nY mod 64)).
  { rewrite spec_Offset_eq by lia. Z.div_mod_to_equations. lia. }
  assert (exists v old,
    load (mFramebuffer self) (spec_Offset (nX mod 128) (nY mod 64)) = Ok old /\
    changed = set_framebuffer self
                (<[Z.to_nat (spec_Offset (nX mod 128) (nY mod 64)) := v]>
                   (mFramebuffer self))) as (v & old & Hold & ->).
  { destruct Hop as [H|H].
    - rewrite SetPixel_bind in H. bind_inv H. injection H as <-. eauto.
    - rewrite ClearPixel_bind in H. bind_inv H. injection H as <-. eauto. }
  pose proof (load_Ok_range _ _ _ Hold) as Hrange.
  exists (take 513 (mFramebuffer self)).
  split; [rewrite length_take; lia|].
  rewrite (WriteFramebuffer_Ok self bus) by (rewrite ?Hh; (assumption || lia)).
  rewrite (WriteFramebuffer_Ok _ bus)
    by (cbn [mI2CMaster mHeight mFramebuffer set_framebuffer];
        rewrite ?Hh, ?length_insert; (assumption || lia)).
  cbn [mAddress mHeight mFramebuffer set_framebuffer]. rewrite Hh.
  change (Z.to_nat (32 * 16 + 1)) with 513%nat.
  rewrite take_insert_ge by lia. split; reflexivity.
Qed.

Lemma pixel_rows_beyond_height_32_not_sent_witness :
  exists changed frame,
    SetPixel 5 40 sample_driver_32 = Ok changed /\
    changed <> sample_driver_32 /\
    WriteFramebuffer sample_driver_32
    = Ok (set_bus sample_driver_32 [(0x3C, frame)]) /\
    WriteFramebuffer changed = Ok (set_bus changed [(0x3C, frame)]).
Proof.
  assert (exists changed, SetPixel 5 40 sample_driver_32 = Ok changed /\
                          changed <> sample_driver_32) as (changed & E & Hne).
  { eexists. split; [vm_compute; reflexivity|].
    intros H. apply (f_equal (fun d => load (mFramebuffer d) 646)) in H.
    vm_compute in H. discriminate H. }
  destruct (pixel_rows_beyond_height_32_not_sent 5 40 sample_driver_32 changed [])
    as (frame & _ & H1 & H2).
  - reflexivity.
  - reflexivity.
  - vm_compute. discriminate.
  - left. exact E.
  - exists changed, frame. split; [exact E|]. split; [exact Hne|].
    split; [exact H1|exact H2].
Defined.

(** ** Clearing *)

(** [std::fill] over a range inside the array. *)
Lemma fill_loop (v : Z) (n : nat) : forall (f : nat) (a : list Z),
  (f + n <= length a)%nat ->
  for_each (seqZ (Z.of_nat f) (Z.of_nat n)) (fun i a => store a i v) a
  = Ok (take f a ++ replicate n (u8 v) ++ drop (f + n) a).
Proof.
  induction n as [|n IH]; intros f a Hlen.
  - cbn. rewrite Nat.add_0_r, take_drop. reflexivity.
  - rewrite seqZ_cons by lia. cbn [for_each].
    rewrite store_in_range by lia. cbn [mbind result_bind].
    rewrite Nat2Z.id.
    replace (Z.succ (Z.of_nat f)) with (Z.of_nat (S f)) by lia.
    replace (Z.pred (Z.of_nat (S n))) with (Z.of_nat n) by lia.
    rewrite IH by (rewrite length_insert; lia).
    rewrite (take_S_r _ _ (u8 v))
      by (apply list_lookup_insert_eq; lia).
    rewrite take_insert_ge by lia. rewrite drop_insert_lt by lia.
    rewrite <- app_assoc. cbn [replicate app].
    replace (S f + n)%nat with (f + S n)%nat by lia. reflexivity.
Qed.

(** X6.  [Clear] on a driver with a bus and a framebuffer of at least
    [mHeight * 16 + 1] bytes: it zeroes the bytes [1 .. mHeight * 16], keeps
    the control byte and every byte behind the drawable region, and then
    sends one frame, the control byte followed by [mHeight * 16] zeros. *)
Theorem Clear_zero_fills (self : CSSD1306) (bus : CI2CMaster) :
  mI2CMaster self = Some bus ->
  0 <= mHeight self ->
  mHeight self * 16 + 1 <= Z.of_nat (length (mFramebuffer self)) ->
  exists cleared,
    Clear self = Ok cleared /\
    mFramebuffer cleared
    = take 1 (mFramebuffer self)
        ++ replicate (Z.to_nat (mHeight self * 16)) 0
        ++ drop (Z.to_nat (mHeight self * 16 + 1)) (mFramebuffer self) /\
    mI2CMaster cleared
    = Some (bus ++ [(mAddress self,
                     take 1 (mFramebuffer self)
                       ++ replicate (Z.to_nat (mHeight self * 16)) 0)]).
Proof.
  intros Hbus Hh Hlen. unfold Clear, fill.
  replace (mHeight self * 16 + 1 - 1)
    with (Z.of_nat (Z.to_nat (mHeight self * 16))) by lia.
  change 1 with (Z.of_nat 1) at 1.
  rewrite fill_loop by lia. cbn [mbind result_bind].
  change (u8 0) with 0.
  replace (1 + Z.to_nat (mHeight self * 16))%nat
    with (Z.to_nat (mHeight self * 16 + 1)) by lia.
  set (fb' := take 1 (mFramebuffer self)
                ++ replicate (Z.to_nat (mHeight self * 16)) 0
                ++ drop (Z.to_nat (mHeight self * 16 + 1)) (mFramebuffer self)).
  assert (Hlen' : length fb' = length (mFramebuffer self)).
  { unfold fb'. rewrite !length_app, length_take, length_replicate, length_drop.
    lia. }
  rewrite (WriteFramebuffer_Ok _ bus)
    by (cbn [mI2CMaster mHeight mFramebuffer set_framebuffer];
        (assumption || lia)).
  eexists. split; [reflexivity|].
  cbn [mFramebuffer mI2CMaster mAddress mHeight set_bus set_framebuffer].
  split; [reflexivity|]. do 4 f_equal. unfold fb'.
  rewrite app_assoc. rewrite take_app_length'; [reflexivity|].
  rewrite length_app, length_take, length_replicate. lia.
Qed.

Lemma Clear_zero_fills_witness :
  exists cleared,
    Clear sample_driver_pixel_set = Ok cleared /\
    mFramebuffer cleared = mFramebuffer sample_driver /\
    mI2CMaster cleared = Some [(0x3C, 0x40 :: replicate 1024 0)].
Proof.
  destruct (Clear_zero_fills sample_driver_pixel_set []) as (cleared & E & Hfb & Hb).
  - reflexivity.
  - vm_compute. discriminate.
  - vm_compute. discriminate.
  - exists cleared. split; [exact E|]. split.
    + rewrite Hfb. reflexivity.
    + rewrite Hb. reflexivity.
Defined.

(** ** Glyph cells *)

Lemma DrawChar_column_frame Font6x8 chChar rowOffset columnOffset bInverted
    bDoubleWidth i fb fb' :
  0 <= i < 6 ->
  DrawChar_column Font6x8 chChar rowOffset columnOffset bInverted bDoubleWidth
    i fb = Ok fb' ->
  length fb' = length fb /\
  forall off,
    in_block (rowOffset + columnOffset) (if bDoubleWidth then 12 else 6) off
    = false ->
    in_block (rowOffset + columnOffset + 128) (if bDoubleWidth then 12 else 6)
      off = false ->
    load fb' off = load fb off.
Proof.
  intros Hi H. unfold DrawChar_column in H. cbv zeta in H.
  bind_inv H. bind_inv H. bind_inv H.
  destruct bDoubleWidth.
  - bind_inv H. bind_inv H. bind_inv H.
    split.
    + rewrite (store_length _ _ _ _ H), (store_length _ _ _ _ E3),
        (store_length _ _ _ _ E1), (store_length _ _ _ _ E0). reflexivity.
    + intros off H1 H2. apply in_block_false in H1, H2.
      rewrite (load_store_ne _ _ _ _ off H) by lia.
      rewrite (load_store_ne _ _ _ _ off E3) by lia.
      rewrite (load_store_ne _ _ _ _ off E1) by lia.
      rewrite (load_store_ne _ _ _ _ off E0) by lia. reflexivity.
  - injection H as <-. split.
    + rewrite (store_length _ _ _ _ E1), (store_length _ _ _ _ E0). reflexivity.
    + intros off H1 H2. apply in_block_false in H1, H2.
      rewrite (load_store_ne _ _ _ _ off E1) by lia.
      rewrite (load_store_ne _ _ _ _ off E0) by lia. reflexivity.
Qed.

Lemma DrawChar_frame Font6x8 chChar nCursorX nCursorY bInverted bDoubleWidth
    self self' :
  DrawChar Font6x8 chChar nCursorX nCursorY bInverted bDoubleWidth self
  = Ok self' ->
  self' = set_framebuffer self (mFramebuffer self') /\
  length (mFramebuffer self') = length (mFramebuffer self) /\
  forall off,
    in_block (u8 nCursorY * 256
              + u8 nCursorX * (if bDoubleWidth then 12 else 6) + 4)
      (if bDoubleWidth then 12 else 6) off = false ->
    in_block (u8 nCursorY * 256
              + u8 nCursorX * (if bDoubleWidth then 12 else 6) + 4 + 128)
      (if bDoubleWidth then 12 else 6) off = false ->
    load (mFramebuffer self') off = load (mFramebuffer self) off.
Proof.
  unfold DrawChar. cbv zeta. intros H. bind_inv H. injection H as <-.
  cbn [mFramebuffer set_framebuffer]. split; [reflexivity|].
  eapply (for_each_invariant
            (fun a =>
               length a = length (mFramebuffer self) /\
               forall off,
                 in_block (u8 nCursorY * 256
                           + u8 nCursorX * (if bDoubleWidth then 12 else 6) + 4)
                   (if bDoubleWidth then 12 else 6) off = false ->
                 in_block (u8 nCursorY * 256
                           + u8 nCursorX * (if bDoubleWidth then 12 else 6)
                           + 4 + 128)
                   (if bDoubleWidth then 12 else 6) off = false ->
                 load a off = load (mFramebuffer self) off));
    [|split; reflexivity|exact E].
  intros i a a' Hi [Hl Hsame] Hstep. apply elem_of_seqZ in Hi.
  apply DrawChar_column_frame in Hstep as [Hl' Hsame']; [|lia].
  split; [lia|]. intros off H1 H2. rewrite Hsame'.
  - apply Hsame; assumption.
  - rewrite <- H1. f_equal. lia.
  - rewrite <- H2. f_equal. lia.
Qed.

(** X7.  Whatever its arguments, a [DrawChar] that returns has changed the
    framebuffer alone, and of it only bytes of the character's cell: the
    run of 6 bytes (12 when doubled in width) at offset
    [row * 256 + column * width + 4] and the run 128 bytes further on. *)
Theorem DrawChar_stays_in_cell (Font6x8 : list CharData)
    (chChar nCursorX nCursorY : Z) (bInverted bDoubleWidth : bool)
    (self self' : CSSD1306) (off : Z) :
  DrawChar Font6x8 chChar nCursorX nCursorY bInverted bDoubleWidth self
  = Ok self' ->
  let width := if bDoubleWidth then 12 else 6 in
  let cell := u8 nCursorY * 256 + u8 nCursorX * width + 4 in
  ~ (cell <= off < cell + width) ->
  ~ (cell + 128 <= off < cell + 128 + width) ->
  self' = set_framebuffer self (mFramebuffer self') /\
  length (mFramebuffer self') = length (mFramebuffer self) /\
  load (mFramebuffer self') off = load (mFramebuffer self) off.
Proof.
  intros H width cell H1 H2.
  destruct (DrawChar_frame _ _ _ _ _ _ _ _ H) as (Hself & Hlen & Hsame).
  split; [exact Hself|]. split; [exact Hlen|].
  apply Hsame; apply in_block_false; fold width cell; lia.
Qed.

Lemma DrawChar_stays_in_cell_witness :
  exists self',
    DrawChar sample_Font6x8 65 3 1 true true sample_driver = Ok self' /\
    load (mFramebuffer self') (256 + 3 * 12 + 4 + 12)
    = load (mFramebuffer sample_driver) (256 + 3 * 12 + 4 + 12).
Proof.
  assert (exists self',
             DrawChar sample_Font6x8 65 3 1 true true sample_driver = Ok self')
    as [self' E] by (vm_compute; eexists; reflexivity).
  exists self'. split; [exact E|].
  apply (DrawChar_stays_in_cell sample_Font6x8 65 3 1 true true sample_driver
           self' _ E).
  - vm_compute. intros [_ H]. discriminate H.
  - vm_compute. intros [H _]. apply H. reflexivity.
Defined.

(** One iteration of [DrawChar] for a glyph of the table: the stores it
    makes, with the glyph column looked up. *)
Lemma DrawChar_column_stores Font6x8 chChar cd rowOffset columnOffset
    bInverted bDoubleWidth i fb :
  Font6x8 !! Z.to_nat (glyph_index chChar) = Some cd ->
  0 <= i < 6 ->
  DrawChar_column Font6x8 chChar rowOffset columnOffset bInverted bDoubleWidth
    i fb
  = (let offset :=
       rowOffset + columnOffset + (if bDoubleWidth then i * 2 else i) in
     fb ← store fb offset (Z.land (drawn_column cd bInverted i) 0xFF);
     fb ← store fb (offset + 128)
            (Z.land (Z.shiftr (drawn_column cd bInverted i) 8) 0xFF);
     if bDoubleWidth then
       left ← load fb offset;
       fb ← store fb (offset + 1) left;
       left ← load fb (offset + 128);
       store fb (offset + 128 + 1) left
     else Ok fb).
Proof.
  intros Hcd Hi. unfold DrawChar_column, FontDouble.
  rewrite <- (Z2Nat.id (glyph_index chChar)) at 1
    by apply glyph_index_nonneg.
  rewrite (font_column_Font _ _ _ cd) by assumption.
  reflexivity.
Qed.

(** The loop of a glyph doubled in width: column [j] goes to the bytes
    [b + 2j] and [b + 2j + 1] of both rows. *)
Lemma doubled_rows_loop (v1 v2 : Z -> Z) (b : Z) (n : nat) :
  (n <= 64)%nat ->
  forall fb fb',
  for_each (seqZ 0 (Z.of_nat n))
    (fun j fb =>
       fb ← store fb (b + j * 2) (v1 j);
       fb ← store fb (b + j * 2 + 128) (v2 j);
       left ← load fb (b + j * 2);
       fb ← store fb (b + j * 2 + 1) left;
       left ← load fb (b + j * 2 + 128);
       store fb (b + j * 2 + 128 + 1) left) fb
  = Ok fb' ->
  length fb' = length fb /\
  forall off,
    load fb' off =
    if in_block b (2 * Z.of_nat n) off then Ok (u8 (v1 ((off - b) / 2)))
    else if in_block (b + 128) (2 * Z.of_nat n) off
         then Ok (u8 (v2 ((off - b - 128) / 2)))
         else load fb off.
Proof.
  intros Hn. induction n as [|n IH]; intros fb fb' H.
  - cbn in H. injection H as <-. split; [reflexivity|]. intros off.
    change (2 * Z.of_nat 0) with 0.
    rewrite (proj2 (in_block_false b 0 off)),
      (proj2 (in_block_false (b + 128) 0 off)) by lia.
    reflexivity.
  - rewrite seqZ_S, for_each_app in H. bind_inv H.
    apply IH in E as [Hlen Hload]; [|lia].
    cbn [for_each] in H. bind_inv H. injection H as <-.
    rewrite Z.add_0_l in E.
    bind_inv E. bind_inv E. bind_inv E. bind_inv E. bind_inv E.
    rename E into S4, E4 into L2, E3 into S3, E2 into L1, E1 into S2, E0 into S1.
    rewrite (load_store _ _ _ _ _ S2), (load_store _ _ _ _ _ S1) in L1.
    rewrite (proj2 (Z.eqb_neq _ _)), Z.eqb_refl in L1 by lia.
    injection L1 as <-.
    rewrite (load_store _ _ _ _ _ S3), (load_store _ _ _ _ _ S2) in L2.
    rewrite (proj2 (Z.eqb_neq _ _)), Z.eqb_refl in L2 by lia.
    injection L2 as <-.
    split.
    { rewrite (store_length _ _ _ _ S4), (store_length _ _ _ _ S3),
        (store_length _ _ _ _ S2), (store_length _ _ _ _ S1). exact Hlen. }
    intros off.
    rewrite (load_store _ _ _ _ off S4), (load_store _ _ _ _ off S3),
      (load_store _ _ _ _ off S2), (load_store _ _ _ _ off S1), Hload.
    rewrite !u8_u8.
    replace (2 * Z.of_nat (S n)) with (2 * Z.of_nat n + 2) by lia.
    set (m := Z.of_nat n) in *. assert (0 <= m <= 63) as Hm by lia.
    destruct (Z.eqb_spec off (b + m * 2 + 128 + 1)) as [->|N4].
    { rewrite (proj2 (in_block_false b (2 * m + 2) _)),
        (proj2 (in_block_true (b + 128) (2 * m + 2) _)) by lia.
      do 3 f_equal. Z.div_mod_to_equations. lia. }
    destruct (Z.eqb_spec off (b + m * 2 + 1)) as [->|N3].
    { rewrite (proj2 (in_block_true b (2 * m + 2) _)) by lia.
      do 3 f_equal. Z.div_mod_to_equations. lia. }
    destruct (Z.eqb_spec off (b + m * 2 + 128)) as [->|N2].
    { rewrite (proj2 (in_block_false b (2 * m + 2) _)),
        (proj2 (in_block_true (b + 128) (2 * m + 2) _)) by lia.
      do 3 f_equal. Z.div_mod_to_equations. lia. }
    destruct (Z.eqb_spec off (b + m * 2)) as [->|N1].
    { rewrite (proj2 (in_block_true b (2 * m + 2) _)) by lia.
      do 3 f_equal. Z.div_mod_to_equations. lia. }
    destruct (in_block b (2 * m) off) eqn:E1.
    { apply in_block_true in E1.
      rewrite (proj2 (in_block_true b (2 * m + 2) _)) by lia. reflexivity. }
    apply in_block_false in E1.
    rewrite (proj2 (in_block_false b (2 * m + 2) _)) by lia.
    destruct (in_block (b + 128) (2 * m) off) eqn:E2.
    { apply in_block_true in E2.
      rewrite (proj2 (in_block_true (b + 128) (2 * m + 2) _)) by lia.
      reflexivity. }
    apply in_block_false in E2.
    rewrite (proj2 (in_block_false (b + 128) (2 * m + 2) _)) by lia.
    reflexivity.
Qed.

Lemma doubled_rows_loop_total (v1 v2 : Z -> Z) (b n : Z) (fb : list Z) :
  0 <= b -> b + 128 + 2 * n <= Z.of_nat (length fb) ->
  exists fb',
    for_each (seqZ 0 n)
      (fun j fb =>
         fb ← store fb (b + j * 2) (v1 j);
         fb ← store fb (b + j * 2 + 128) (v2 j);
         left ← load fb (b + j * 2);
         fb ← store fb (b + j * 2 + 1) left;
         left ← load fb (b + j * 2 + 128);
         store fb (b + j * 2 + 128 + 1) left) fb
    = Ok fb'.
Proof.
  intros Hb Hlen.
  destruct (for_each_total (fun a => length a = length fb) (seqZ 0 n)
              (fun j fb =>
                 fb ← store fb (b + j * 2) (v1 j);
                 fb ← store fb (b + j * 2 + 128) (v2 j);
                 left ← load fb (b + j * 2);
                 fb ← store fb (b + j * 2 + 1) left;
                 left ← load fb (b + j * 2 + 128);
                 store fb (b + j * 2 + 128 + 1) left))
    with (s := fb) as (fb' & E & _); [|reflexivity|eauto].
  intros j a Hj Ha. apply elem_of_seqZ in Hj.
  rewrite store_in_range by lia. cbn [mbind result_bind].
  rewrite store_in_range by (rewrite length_insert; lia).
  cbn [mbind result_bind].
  destruct (load_in_range
              (<[Z.to_nat (b + j * 2 + 128) := u8 (v2 j)]>
                 (<[Z.to_nat (b + j * 2) := u8 (v1 j)]> a)) (b + j * 2))
    as [l1 ->]; [rewrite !length_insert; lia|].
  cbn [mbind result_bind].
  rewrite store_in_range by (rewrite !length_insert; lia).
  cbn [mbind result_bind].
  match goal with
  | |- context [load ?l (b + j * 2 + 128)] =>
      destruct (load_in_range l (b + j * 2 + 128)) as [l2 ->];
        [rewrite !length_insert; lia|]
  end.
  cbn [mbind result_bind].
  rewrite store_in_range by (rewrite !length_insert; lia).
  eexists. split; [reflexivity|]. rewrite !length_insert. exact Ha.
Qed.

(** The cell after [DrawChar] at the normal width, inverted or not. *)
Lemma DrawChar_narrow Font6x8 chChar cd nCursorX nCursorY bInverted self :
  Font6x8 !! Z.to_nat (glyph_index (u8 chChar)) = Some cd ->
  u8 nCursorY * 256 + u8 nCursorX * 6 + 4 + 128 + 6
    <= Z.of_nat (length (mFramebuffer self)) ->
  exists fb',
    DrawChar Font6x8 chChar nCursorX nCursorY bInverted false self
    = Ok (set_framebuffer self fb') /\
    forall i, 0 <= i < 6 ->
      load fb' (u8 nCursorY * 256 + u8 nCursorX * 6 + 4 + i)
      = Ok (Z.land (drawn_column cd bInverted i) 0xFF) /\
      load fb' (u8 nCursorY * 256 + u8 nCursorX * 6 + 4 + i + 128)
      = Ok (Z.land (Z.shiftr (drawn_column cd bInverted i) 8) 0xFF).
Proof.
  intros Hcd Hlen. unfold DrawChar. cbv zeta.
  pose proof (u8_range nCursorX) as Hx. pose proof (u8_range nCursorY) as Hy.
  set (base := u8 nCursorY * 128 * 2 + (u8 nCursorX * 6 + 4)).
  rewrite (for_each_ext _ _
             (fun i fb =>
                fb ← store fb (base + i)
                       ((fun i => Z.land (drawn_column cd bInverted i) 0xFF) i);
                store fb (base + 128 + i)
                  ((fun i => Z.land (Z.shiftr (drawn_column cd bInverted i) 8)
                               0xFF) i))).
  2:{ intros i fb Hi. apply elem_of_seqZ in Hi.
      rewrite (DrawChar_column_stores _ _ cd) by (assumption || lia).
      cbv zeta beta. fold base.
      replace (base + i + 128) with (base + 128 + i) by lia.
      destruct (store fb (base + i) _) as [fb1| |]; cbn [mbind result_bind];
        [|reflexivity..].
      destruct (store fb1 (base + 128 + i) _); reflexivity. }
  destruct (two_rows_loop_total
              (fun i => Z.land (drawn_column cd bInverted i) 0xFF)
              (fun i => Z.land (Z.shiftr (drawn_column cd bInverted i) 8) 0xFF)
              base (base + 128) 6 (mFramebuffer self)) as [fb' Hfb'];
    try (unfold base; lia).
  exists fb'. rewrite Hfb'. split; [reflexivity|].
  apply (two_rows_loop _ _ _ _ 6) in Hfb' as [Hl Hload]; [|lia].
  change (Z.of_nat 6) with 6 in Hload.
  intros i Hi.
  replace (u8 nCursorY * 256 + u8 nCursorX * 6 + 4 + i) with (base + i)
    by (unfold base; lia).
  rewrite !Hload.
  rewrite (proj2 (in_block_true base 6 (base + i))) by lia.
  rewrite (proj2 (in_block_false base 6 (base + i + 128))) by lia.
  rewrite (proj2 (in_block_true (base + 128) 6 (base + i + 128))) by lia.
  replace (base + i - base) with i by lia.
  replace (base + i + 128 - (base + 128)) with i by lia.
  rewrite !u8_small by apply low_byte_range.
  split; reflexivity.
Qed.

(** The cell after [DrawChar] at double width. *)
Lemma DrawChar_wide Font6x8 chChar cd nCursorX nCursorY bInverted self :
  Font6x8 !! Z.to_nat (glyph_index (u8 chChar)) = Some cd ->
  u8 nCursorY * 256 + u8 nCursorX * 12 + 4 + 128 + 12
    <= Z.of_nat (length (mFramebuffer self)) ->
  exists fb',
    DrawChar Font6x8 chChar nCursorX nCursorY bInverted true self
    = Ok (set_framebuffer self fb') /\
    forall i, 0 <= i < 6 ->
      load fb' (u8 nCursorY * 256 + u8 nCursorX * 12 + 4 + 2 * i)
      = Ok (Z.land (drawn_column cd bInverted i) 0xFF) /\
      load fb' (u8 nCursorY * 256 + u8 nCursorX * 12 + 4 + 2 * i + 1)
      = Ok (Z.land (drawn_column cd bInverted i) 0xFF) /\
      load fb' (u8 nCursorY * 256 + u8 nCursorX * 12 + 4 + 2 * i + 128)
      = Ok (Z.land (Z.shiftr (drawn_column cd bInverted i) 8) 0xFF) /\
      load fb' (u8 nCursorY * 256 + u8 nCursorX * 12 + 4 + 2 * i + 128 + 1)
      = Ok (Z.land (Z.shiftr (drawn_column cd bInverted i) 8) 0xFF).
Proof.
  intros Hcd Hlen. unfold DrawChar. cbv zeta.
  pose proof (u8_range nCursorX) as Hx. pose proof (u8_range nCursorY) as Hy.
  set (base := u8 nCursorY * 128 * 2 + (u8 nCursorX * 12 + 4)).
  rewrite (for_each_ext _ _
             (fun j fb =>
                fb ← store fb (base + j * 2)
                       ((fun i => Z.land (drawn_column cd bInverted i) 0xFF) j);
                fb ← store fb (base + j * 2 + 128)
                       ((fun i => Z.land (Z.shiftr (drawn_column cd bInverted i) 8)
                                    0xFF) j);
                left ← load fb (base + j * 2);
                fb ← store fb (base + j * 2 + 1) left;
                left ← load fb (base + j * 2 + 128);
                store fb (base + j * 2 + 128 + 1) left)).
  2:{ intros i fb Hi. apply elem_of_seqZ in Hi.
      rewrite (DrawChar_column_stores _ _ cd) by (assumption || lia).
      cbv zeta beta. fold base. reflexivity. }
  destruct (doubled_rows_loop_total
              (fun i => Z.land (drawn_column cd bInverted i) 0xFF)
              (fun i => Z.land (Z.shiftr (drawn_column cd bInverted i) 8) 0xFF)
              base 6 (mFramebuffer self)) as [fb' Hfb'];
    try (unfold base; lia).
  exists fb'. rewrite Hfb'. split; [reflexivity|].
  apply (doubled_rows_loop _ _ _ 6) in Hfb' as [Hl Hload]; [|lia].
  change (2 * Z.of_nat 6) with 12 in Hload.
  intros i Hi.
  replace (u8 nCursorY * 256 + u8 nCursorX * 12 + 4 + 2 * i)
    with (base + 2 * i) by (unfold base; lia).
  rewrite !Hload.
  rewrite (proj2 (in_block_true base 12 (base + 2 * i))) by lia.
  rewrite (proj2 (in_block_true base 12 (base + 2 * i + 1))) by lia.
  rewrite (proj2 (in_block_false base 12 (base + 2 * i + 128))) by lia.
  rewrite (proj2 (in_block_false base 12 (base + 2 * i + 128 + 1))) by lia.
  rewrite (proj2 (in_block_true (base + 128) 12 (base + 2 * i + 128))) by lia.
  rewrite (proj2 (in_block_true (base + 128) 12 (base + 2 * i + 128 + 1)))
    by lia.
  replace ((base + 2 * i - base) / 2) with i
    by (Z.div_mod_to_equations; lia).
  replace ((base + 2 * i + 1 - base) / 2) with i
    by (Z.div_mod_to_equations; lia).
  replace ((base + 2 * i + 128 - base - 128) / 2) with i
    by (Z.div_mod_to_equations; lia).
  replace ((base + 2 * i + 128 + 1 - base - 128) / 2) with i
    by (Z.div_mod_to_equations; lia).
  rewrite !u8_small by apply low_byte_range.
  repeat split; reflexivity.
Qed.

Lemma testbit_0xFF n : 0 <= n -> Z.testbit 0xFF n = (n <? 8).
Proof. intros Hn. change 0xFF with (Z.ones 8). apply Z.testbit_ones_nonneg; lia. Qed.

Lemma testbit_0x3F n : 0 <= n -> Z.testbit 0x3F n = (n <? 6).
Proof. intros Hn. change 0x3F with (Z.ones 6). apply Z.testbit_ones_nonneg; lia. Qed.

Lemma testbit_0x3FFF n : 0 <= n -> Z.testbit 0x3FFF n = (n <? 14).
Proof.
  intros Hn. change 0x3FFF with (Z.ones 14). apply Z.testbit_ones_nonneg; lia.
Qed.

Lemma inverted_low_byte d :
  Z.land (u16 (Z.lxor d 0x3FFF)) 0xFF = Z.lxor (Z.land d 0xFF) 0xFF.
Proof.
  apply Z.bits_inj'. intros n Hn.
  rewrite Z.land_spec, Z.lxor_spec, Z.land_spec, u16_testbit, Z.lxor_spec,
    testbit_0xFF, testbit_0x3FFF by lia.
  destruct (Z.ltb_spec n 8), (Z.ltb_spec n 16), (Z.ltb_spec n 14); try lia;
    destruct (Z.testbit d n); reflexivity.
Qed.

Lemma inverted_high_byte d :
  Z.land (Z.shiftr (u16 (Z.lxor d 0x3FFF)) 8) 0xFF
  = Z.lxor (Z.land (Z.shiftr d 8) 0xFF) 0x3F.
Proof.
  apply Z.bits_inj'. intros n Hn.
  rewrite Z.land_spec, Z.lxor_spec, Z.land_spec, !Z.shiftr_spec, u16_testbit,
    Z.lxor_spec, testbit_0xFF, testbit_0x3F, testbit_0x3FFF by lia.
  destruct (Z.ltb_spec n 8), (Z.ltb_spec (n + 8) 16), (Z.ltb_spec (n + 8) 14),
    (Z.ltb_spec n 6); try lia; destruct (Z.testbit d (n + 8)); reflexivity.
Qed.

(** X8.  Inversion by [DrawChar]: against the same glyph drawn plainly,
    column 0 of the cell is the same, and in columns 1 to 5 the byte of the
    upper page has all eight rows flipped while the byte of the lower page
    has its first six rows flipped and its last two rows kept. *)
Theorem DrawChar_inverts_fourteen_rows (Font6x8 : list CharData)
    (chChar nCursorX nCursorY : Z) (cd : CharData) (self : CSSD1306) :
  Font6x8 !! Z.to_nat (glyph_index (u8 chChar)) = Some cd ->
  u8 nCursorY * 256 + u8 nCursorX * 6 + 4 + 128 + 6
    <= Z.of_nat (length (mFramebuffer self)) ->
  exists plain inverted,
    DrawChar Font6x8 chChar nCursorX nCursorY false false self = Ok plain /\
    DrawChar Font6x8 chChar nCursorX nCursorY true false self = Ok inverted /\
    forall i, 0 <= i < 6 ->
      exists upper lower,
        load (mFramebuffer plain)
          (u8 nCursorY * 256 + u8 nCursorX * 6 + 4 + i) = Ok upper /\
        load (mFramebuffer plain)
          (u8 nCursorY * 256 + u8 nCursorX * 6 + 4 + i + 128) = Ok lower /\
        load (mFramebuffer inverted)
          (u8 nCursorY * 256 + u8 nCursorX * 6 + 4 + i)
        = Ok (if i =? 0 then upper else Z.lxor upper 0xFF) /\
        load (mFramebuffer inverted)
          (u8 nCursorY * 256 + u8 nCursorX * 6 + 4 + i + 128)
        = Ok (if i =? 0 then lower else Z.lxor lower 0x3F).
Proof.
  intros Hcd Hlen.
  destruct (DrawChar_narrow Font6x8 chChar cd nCursorX nCursorY false self
              Hcd Hlen) as (fp & Ep & Hp).
  destruct (DrawChar_narrow Font6x8 chChar cd nCursorX nCursorY true self
              Hcd Hlen) as (fi & Ei & Hi).
  eexists. eexists. split; [exact Ep|]. split; [exact Ei|].
  cbn [mFramebuffer set_framebuffer]. intros i Hrange.
  destruct (Hp i Hrange) as [Hp1 Hp2]. destruct (Hi i Hrange) as [Hi1 Hi2].
  eexists. eexists. split; [exact Hp1|]. split; [exact Hp2|].
  rewrite Hi1, Hi2. unfold drawn_column. rewrite andb_false_r, andb_true_r.
  destruct (Z.eqb_spec i 0) as [->|Hne].
  - split; reflexivity.
  - rewrite (proj2 (Z.ltb_lt 0 i)) by lia.
    generalize (DoubleColumn cd i) as d. intros d.
    rewrite inverted_low_byte, inverted_high_byte. split; reflexivity.
Qed.

(** X9.  Double width: [DrawChar] with [bDoubleWidth] writes each of the
    six glyph columns twice, side by side; the bytes at columns [2i] and
    [2i + 1] of its 12-byte cell are the byte the same call at the normal
    width puts at column [i] of its 6-byte cell, in both pages. *)
Theorem DrawChar_double_width_repeats_columns (Font6x8 : list CharData)
    (chChar nCursorX nCursorY : Z) (bInverted : bool) (cd : CharData)
    (self : CSSD1306) :
  Font6x8 !! Z.to_nat (glyph_index (u8 chChar)) = Some cd ->
  u8 nCursorY * 256 + u8 nCursorX * 12 + 4 + 128 + 12
    <= Z.of_nat (length (mFramebuffer self)) ->
  exists narrow wide,
    DrawChar Font6x8 chChar nCursorX nCursorY bInverted false self = Ok narrow /\
    DrawChar Font6x8 chChar nCursorX nCursorY bInverted true self = Ok wide /\
    forall i, 0 <= i < 6 ->
      exists upper lower,
        load (mFramebuffer narrow)
          (u8 nCursorY * 256 + u8 nCursorX * 6 + 4 + i) = Ok upper /\
        load (mFramebuffer narrow)
          (u8 nCursorY * 256 + u8 nCursorX * 6 + 4 + i + 128) = Ok lower /\
        load (mFramebuffer wide)
          (u8 nCursorY * 256 + u8 nCursorX * 12 + 4 + 2 * i) = Ok upper /\
        load (mFramebuffer wide)
          (u8 nCursorY * 256 + u8 nCursorX * 12 + 4 + 2 * i + 1) = Ok upper /\
        load (mFramebuffer wide)
          (u8 nCursorY * 256 + u8 nCursorX * 12 + 4 + 2 * i + 128) = Ok lower /\
        load (mFramebuffer wide)
          (u8 nCursorY * 256 + u8 nCursorX * 12 + 4 + 2 * i + 128 + 1)
        = Ok lower.
Proof.
  intros Hcd Hlen. pose proof (u8_range nCursorX) as Hx.
  destruct (DrawChar_narrow Font6x8 chChar cd nCursorX nCursorY bInverted self
              Hcd) as (fn & En & Hn); [lia|].
  destruct (DrawChar_wide Font6x8 chChar cd nCursorX nCursorY bInverted self
              Hcd Hlen) as (fw & Ew & Hw).
  eexists. eexists. split; [exact En|]. split; [exact Ew|].
  cbn [mFramebuffer set_framebuffer]. intros i Hrange.
  destruct (Hn i Hrange) as [Hn1 Hn2].
  destruct (Hw i Hrange) as (Hw1 & Hw2 & Hw3 & Hw4).
  eexists. eexists. split; [exact Hn1|]. split; [exact Hn2|].
  split; [exact Hw1|]. split; [exact Hw2|]. split; [exact Hw3|exact Hw4].
Qed.

Lemma DrawChar_inverts_fourteen_rows_witness :
  exists plain inverted,
    DrawChar sample_Font6x8 65 2 1 false false sample_driver = Ok plain /\
    DrawChar sample_Font6x8 65 2 1 true false sample_driver = Ok inverted.
Proof.
  destruct (DrawChar_inverts_fourteen_rows sample_Font6x8 65 2 1
              [0x0E; 0x11; 0x11; 0x1F; 0x11; 0x11; 0x11; 0x00] sample_driver)
    as (plain & inverted & Hp & Hi & _).
  - reflexivity.
  - rewrite sample_driver_length. vm_compute. discriminate.
  - exists plain, inverted. split; [exact Hp|exact Hi].
Defined.

Lemma DrawChar_double_width_repeats_columns_witness :
  exists narrow wide,
    DrawChar sample_Font6x8 65 2 1 true false sample_driver = Ok narrow /\
    DrawChar sample_Font6x8 65 2 1 true true sample_driver = Ok wide.
Proof.
  destruct (DrawChar_double_width_repeats_columns sample_Font6x8 65 2 1 true
              [0x0E; 0x11; 0x11; 0x1F; 0x11; 0x11; 0x11; 0x00] sample_driver)
    as (narrow & wide & Hn & Hw & _).
  - reflexivity.
  - rewrite sample_driver_length. vm_compute. discriminate.
  - exists narrow, wide. split; [exact Hn|exact Hw].
Defined.

(** ** Text rows *)

Lemma set_framebuffer_self_eq (self self' : CSSD1306) :
  self' = set_framebuffer self (mFramebuffer self') ->
  mI2CMaster self' = mI2CMaster self /\ mAddress self' = mAddress self /\
  mHeight self' = mHeight self /\ mPartLevels self' = mPartLevels self /\
  mPeakLevels self' = mPeakLevels self.
Proof. intros ->. repeat split. Qed.

(** A call of [DrawChar] by [Print] at a column below 20 stays in the cells
    from that column to column 19 of the row. *)
Lemma DrawChar_in_row Font6x8 ch x y self self' :
  0 <= x < 20 -> 0 <= y < 256 ->
  DrawChar Font6x8 ch x y DrawChar_bInverted_default
    DrawChar_bDoubleWidth_default self = Ok self' ->
  self' = set_framebuffer self (mFramebuffer self') /\
  length (mFramebuffer self') = length (mFramebuffer self) /\
  forall off, in_cells y x 20 off = false ->
              load (mFramebuffer self') off = load (mFramebuffer self) off.
Proof.
  intros Hx Hy H. apply DrawChar_frame in H as (Hs & Hl & Hsame).
  split; [exact Hs|]. split; [exact Hl|]. intros off Hoff.
  apply in_cells_false in Hoff.
  cbn [DrawChar_bDoubleWidth_default] in Hsame.
  rewrite (u8_small x), (u8_small y) in Hsame by lia.
  apply Hsame; apply in_block_false; lia.
Qed.

Lemma Print_text_frame Font6x8 pText y :
  0 <= y < 256 ->
  forall x self x' self',
  0 <= x ->
  Print_text Font6x8 pText x y self = Ok (x', self') ->
  x <= x' /\
  self' = set_framebuffer self (mFramebuffer self') /\
  length (mFramebuffer self') = length (mFramebuffer self) /\
  forall off, in_cells y x 20 off = false ->
              load (mFramebuffer self') off = load (mFramebuffer self) off.
Proof.
  intros Hy. induction pText as [|ch pText IH]; intros x self x' self' Hx H;
    cbn [Print_text] in H.
  - injection H as <- <-. rewrite set_framebuffer_id. auto with zarith.
  - destruct (Z.ltb_spec x 20) as [Hlt|Hge].
    + destruct (negb (u8 ch =? 0)); cbn [andb] in H.
      * bind_inv H. rewrite (u8_small (x + 1)) in H by lia.
        apply DrawChar_in_row in E as (Hs1 & Hl1 & Hsame1); [|lia..].
        apply IH in H as (Hle & Hs2 & Hl2 & Hsame2); [|lia].
        split; [lia|]. split; [rewrite Hs2, Hs1 at 1; reflexivity|].
        split; [lia|]. intros off Hoff.
        rewrite Hsame2, Hsame1; [reflexivity|exact Hoff|].
        apply in_cells_false in Hoff. apply in_cells_false. lia.
      * injection H as <- <-. rewrite set_framebuffer_id. auto with zarith.
    + rewrite andb_false_r in H. injection H as <- <-.
      rewrite set_framebuffer_id. auto with zarith.
Qed.

Lemma Print_clear_frame Font6x8 y :
  0 <= y < 256 ->
  forall fuel x self x' self',
  0 <= x ->
  Print_clear Font6x8 fuel x y self = Ok (x', self') ->
  self' = set_framebuffer self (mFramebuffer self') /\
  length (mFramebuffer self') = length (mFramebuffer self) /\
  forall off, in_cells y x 20 off = false ->
              load (mFramebuffer self') off = load (mFramebuffer self) off.
Proof.
  intros Hy. induction fuel as [|fuel IH]; intros x self x' self' Hx H;
    cbn [Print_clear] in H.
  - injection H as <- <-. rewrite set_framebuffer_id. auto.
  - destruct (Z.ltb_spec x 20) as [Hlt|Hge].
    + bind_inv H. rewrite (u8_small (x + 1)) in H by lia.
      apply DrawChar_in_row in E as (Hs1 & Hl1 & Hsame1); [|lia..].
      apply IH in H as (Hs2 & Hl2 & Hsame2); [|lia].
      split; [rewrite Hs2, Hs1 at 1; reflexivity|].
      split; [lia|]. intros off Hoff.
      rewrite Hsame2, Hsame1; [reflexivity|exact Hoff|].
      apply in_cells_false in Hoff. apply in_cells_false. lia.
    + injection H as <- <-. rewrite set_framebuffer_id. auto.
Qed.

(** X10.  Whatever the text and the cursor, a [Print] that returns has
    written only inside the cells from its start column to column 19 of its
    row, in the two pages of that row; from a start column of 20 or more it
    writes nothing.  Without [bImmediate] it leaves the bus alone; levels,
    peaks, address and height are never touched. *)
Theorem Print_stays_in_row (Font6x8 : list CharData) (pText : list Z)
    (nCursorX nCursorY : Z) (bClearLine bImmediate : bool)
    (self self' : CSSD1306) :
  Print Font6x8 pText nCursorX nCursorY bClearLine bImmediate self = Ok self' ->
  length (mFramebuffer self') = length (mFramebuffer self) /\
  (forall off,
      in_cells (u8 nCursorY) (u8 nCursorX) 20 off = false ->
      load (mFramebuffer self') off = load (mFramebuffer self) off) /\
  (20 <= u8 nCursorX -> mFramebuffer self' = mFramebuffer self) /\
  (bImmediate = false -> mI2CMaster self' = mI2CMaster self) /\
  mAddress self' = mAddress self /\ mHeight self' = mHeight self /\
  mPartLevels self' = mPartLevels self /\ mPeakLevels self' = mPeakLevels self.
Proof.
  unfold Print. cbv zeta. intros H.
  pose proof (u8_range nCursorX) as Hx. pose proof (u8_range nCursorY) as Hy.
  bind_inv H. destruct r as [x1 s1]. bind_inv H. destruct r as [x2 s2].
  apply Print_text_frame in E as (Hle & Hs1 & Hl1 & Hsame1); [|lia..].
  assert (s2 = set_framebuffer s1 (mFramebuffer s2) /\
          length (mFramebuffer s2) = length (mFramebuffer s1) /\
          forall off, in_cells (u8 nCursorY) (u8 nCursorX) 20 off = false ->
                      load (mFramebuffer s2) off = load (mFramebuffer s1) off)
    as (Hs2 & Hl2 & Hsame2).
  { destruct bClearLine.
    - apply Print_clear_frame in E0 as (Hs2 & Hl2 & Hsame2); [|lia..].
      split; [exact Hs2|]. split; [exact Hl2|]. intros off Hoff.
      apply Hsame2. apply in_cells_false in Hoff. apply in_cells_false. lia.
    - injection E0 as _ <-. rewrite set_framebuffer_id. auto. }
  assert (Hfb : mFramebuffer self' = mFramebuffer s2 /\
                (bImmediate = false -> mI2CMaster self' = mI2CMaster s2) /\
                mAddress self' = mAddress s2 /\ mHeight self' = mHeight s2 /\
                mPartLevels self' = mPartLevels s2 /\
                mPeakLevels self' = mPeakLevels s2).
  { destruct bImmediate.
    - unfold WriteFramebuffer, bus_write in H.
      destruct (mI2CMaster s2); [|discriminate].
      bind_inv H. injection H as <-. repeat split. discriminate.
    - injection H as <-. repeat split. }
  destruct Hfb as (Hfb & Hbus & Ha & Hh & Hp & Hk).
  destruct (set_framebuffer_self_eq _ _ Hs1) as (B1 & A1 & H1 & P1 & K1).
  destruct (set_framebuffer_self_eq _ _ Hs2) as (B2 & A2 & H2 & P2 & K2).
  rewrite Hfb.
  split; [lia|]. split.
  { intros off Hoff. rewrite Hsame2, Hsame1 by exact Hoff. reflexivity. }
  split.
  { intros Hcol. apply list_eq. intros k.
    assert (Hk' : load (mFramebuffer s2) (Z.of_nat k)
                  = load (mFramebuffer self) (Z.of_nat k)).
    { rewrite Hsame2, Hsame1; [reflexivity|apply in_cells_false; lia..]. }
    unfold load in Hk'. rewrite Nat2Z.id in Hk'.
    destruct (Z.leb_spec 0 (Z.of_nat k)); [|lia].
    destruct (mFramebuffer s2 !! k), (mFramebuffer self !! k); congruence. }
  split; [intros Himm; rewrite (Hbus Himm); congruence|].
  repeat split; congruence.
Qed.

Lemma Print_stays_in_row_witness :
  exists self',
    Print sample_Font6x8 sample_text 15 1 true false sample_driver = Ok self' /\
    load (mFramebuffer self') (256 + 14 * 6 + 4 + 5)
    = load (mFramebuffer sample_driver) (256 + 14 * 6 + 4 + 5).
Proof.
  assert (exists self',
             Print sample_Font6x8 sample_text 15 1 true false sample_driver
             = Ok self') as [self' E] by (vm_compute; eexists; reflexivity).
  exists self'. split; [exact E|].
  apply (Print_stays_in_row _ _ _ _ _ _ _ _ E). reflexivity.
Defined.

(** ** Meters *)

Lemma range_check3 (P : Z -> Z -> Z -> bool) (n1 n2 n3 : Z) :
  forallb (fun a => forallb (fun b => forallb (P a b) (seqZ 0 n3)) (seqZ 0 n2))
    (seqZ 0 n1) = true ->
  forall a b c, 0 <= a < n1 -> 0 <= b < n2 -> 0 <= c < n3 -> P a b c = true.
Proof.
  intros H a b c Ha Hb Hc.
  pose proof (range_check _ 0 n1 H a ltac:(lia)) as H1. cbv beta in H1.
  pose proof (range_check _ 0 n2 H1 b ltac:(lia)) as H2. cbv beta in H2.
  exact (range_check _ 0 n3 H2 c ltac:(lia)).
Qed.

(** The meter bytes of every level, peak and row, checked one by one. *)
Lemma meter_rows_checked (level peak r : Z) :
  0 <= level <= 16 -> 0 <= peak <= 16 -> 0 <= r <= 15 ->
  exists vals,
    (bar ← BarGraph level; PeakMeter peak bar) = Ok vals /\
    0 <= vals.1 < 256 /\ 0 <= vals.2 < 256 /\
    Z.testbit (meter_rows vals) r
    = (16 - level <=? r) || ((0 <? peak) && (r =? 16 - peak)).
Proof.
  intros Hl Hp Hr.
  set (check := fun l p r =>
       match (bar ← BarGraph l; PeakMeter p bar) with
       | Ok vals =>
           (0 <=? vals.1) && (vals.1 <? 256) && (0 <=? vals.2)
           && (vals.2 <? 256)
           && Bool.eqb (Z.testbit (meter_rows vals) r)
                ((16 - l <=? r) || ((0 <? p) && (r =? 16 - p)))
       | _ => false
       end).
  assert (Hall : forallb
                   (fun a => forallb (fun b => forallb (check a b) (seqZ 0 16))
                               (seqZ 0 17)) (seqZ 0 17) = true)
    by (vm_compute; reflexivity).
  pose proof (range_check3 check 17 17 16 Hall level peak r
                ltac:(lia) ltac:(lia) ltac:(lia)) as H.
  unfold check in H. clear Hall check.
  cbv beta in H.
  destruct (bar ← BarGraph level; PeakMeter peak bar) as [vals| |];
    try discriminate.
  exists vals. split; [reflexivity|].
  repeat (apply andb_true_iff in H; destruct H as [H ?]).
  apply Bool.eqb_prop in H0.
  repeat split; try (apply Z.leb_le; assumption);
    try (apply Z.ltb_lt; assumption).
  exact H0.
Qed.

(** X11.  The two bytes of a meter column, read as its 16 rows from the top
    (row 0) to the bottom (row 15): for a level and a peak of at most 16,
    row [r] is lit exactly when it is one of the bottom [level] rows or the
    peak's row [16 - peak]; a peak of 0 has no row. *)
Theorem meter_rows_lit (level peak r : Z) :
  0 <= level <= 16 -> 0 <= peak <= 16 -> 0 <= r <= 15 ->
  exists vals,
    (bar ← BarGraph level; PeakMeter peak bar) = Ok vals /\
    0 <= vals.1 < 256 /\ 0 <= vals.2 < 256 /\
    Z.testbit (meter_rows vals) r
    = (16 - level <=? r) || ((0 <? peak) && (r =? 16 - peak)).
Proof. exact (meter_rows_checked level peak r). Qed.

Lemma meter_rows_lit_witness :
  exists vals,
    (bar ← BarGraph 5; PeakMeter 12 bar) = Ok vals /\
    0 <= vals.1 < 256 /\ 0 <= vals.2 < 256 /\
    Z.testbit (meter_rows vals) 4 = true.
Proof.
  destruct (meter_rows_lit 5 12 4) as (vals & E & H1 & H2 & Hbit); [lia..|].
  exists vals. split; [exact E|]. split; [exact H1|]. split; [exact H2|].
  rewrite Hbit. reflexivity.
Defined.

(** Whatever the flag, a [DrawPartLevels] that returns has changed only
    bytes of the nine channels' blocks. *)
Lemma DrawPartLevels_channel_frame bDrawPeaks i self self' :
  0 <= i ->
  DrawPartLevels_channel bDrawPeaks i self = Ok self' ->
  self' = set_framebuffer self (mFramebuffer self') /\
  length (mFramebuffer self') = length (mFramebuffer self) /\
  forall off,
    in_block (256 + i * 14 + 3) 12 off = false ->
    in_block (256 + i * 14 + 128 + 3) 12 off = false ->
    load (mFramebuffer self') off = load (mFramebuffer self) off.
Proof.
  intros Hi H. unfold DrawPartLevels_channel in H.
  bind_inv H. bind_inv H. destruct bDrawPeaks.
  - bind_inv H. bind_inv H. destruct r2 as [topVal bottomVal].
    bind_inv H. injection H as <-. cbn [mFramebuffer set_framebuffer].
    split; [reflexivity|].
    eapply (for_each_invariant
              (fun a =>
                 length a = length (mFramebuffer self) /\
                 forall off,
                   in_block (256 + i * 14 + 3) 12 off = false ->
                   in_block (256 + i * 14 + 128 + 3) 12 off = false ->
                   load a off = load (mFramebuffer self) off));
      [|split; reflexivity|exact E3].
    intros j a a' Hj [Hl Hsame] Hstep. apply elem_of_seqZ in Hj.
    bind_inv Hstep. split.
    + rewrite (store_length _ _ _ _ Hstep), (store_length _ _ _ _ E4).
      exact Hl.
    + intros off H1 H2. pose proof H1 as H1'. pose proof H2 as H2'.
      apply in_block_false in H1', H2'.
      rewrite (load_store_ne _ _ _ _ off Hstep) by lia.
      rewrite (load_store_ne _ _ _ _ off E4) by lia.
      apply Hsame; assumption.
  - injection H as <-. rewrite set_framebuffer_id. auto.
Qed.

Lemma DrawPartLevels_frame bDrawPeaks self self' :
  DrawPartLevels bDrawPeaks self = Ok self' ->
  self' = set_framebuffer self (mFramebuffer self') /\
  length (mFramebuffer self') = length (mFramebuffer self) /\
  forall off,
    (forall i, 0 <= i < 9 ->
       in_block (256 + i * 14 + 3) 12 off = false /\
       in_block (256 + i * 14 + 128 + 3) 12 off = false) ->
    load (mFramebuffer self') off = load (mFramebuffer self) off.
Proof.
  unfold DrawPartLevels. intros H.
  eapply (for_each_invariant
            (fun s =>
               s = set_framebuffer self (mFramebuffer s) /\
               length (mFramebuffer s) = length (mFramebuffer self) /\
               forall off,
                 (forall i, 0 <= i < 9 ->
                    in_block (256 + i * 14 + 3) 12 off = false /\
                    in_block (256 + i * 14 + 128 + 3) 12 off = false) ->
                 load (mFramebuffer s) off = load (mFramebuffer self) off));
    [| |exact H].
  - intros i s s' Hi (Hs & Hl & Hsame) Hstep. apply elem_of_seqZ in Hi.
    apply DrawPartLevels_channel_frame in Hstep as (Hs' & Hl' & Hsame');
      [|lia].
    split; [rewrite Hs', Hs at 1; reflexivity|]. split; [lia|].
    intros off Hoff. destruct (Hoff i ltac:(lia)) as [H1 H2].
    rewrite Hsame' by assumption. apply Hsame. exact Hoff.
  - rewrite set_framebuffer_id. auto.
Qed.

(** X12.  With peaks drawn, levels and peaks of at most 16 in the nine
    channels and a framebuffer of at least 511 bytes, [DrawPartLevels]
    succeeds; all 12 columns of channel [i]'s block then hold the channel's
    two bytes (bar and peak bit), the top byte at offsets
    [259 + 14 i .. 270 + 14 i] and the bottom byte 128 bytes further on; the
    two columns between neighbouring blocks and every other byte of the
    framebuffer are as before, and nothing but the framebuffer changes. *)
Theorem DrawPartLevels_draws_meters (self : CSSD1306) :
  511 <= Z.of_nat (length (mFramebuffer self)) ->
  length (mPartLevels self) = 9%nat -> length (mPeakLevels self) = 9%nat ->
  Forall (fun l => 0 <= l <= 16) (mPartLevels self) ->
  Forall (fun p => 0 <= p <= 16) (mPeakLevels self) ->
  exists fb',
    DrawPartLevels true self = Ok (set_framebuffer self fb') /\
    length fb' = length (mFramebuffer self) /\
    (forall i j, 0 <= i < 9 -> 0 <= j < 12 ->
       exists level peak vals,
         load (mPartLevels self) i = Ok level /\
         load (mPeakLevels self) i = Ok peak /\
         (bar ← BarGraph level; PeakMeter peak bar) = Ok vals /\
         load fb' (259 + 14 * i + j) = Ok vals.1 /\
         load fb' (259 + 14 * i + j + 128) = Ok vals.2) /\
    (forall off,
       (forall i, 0 <= i < 9 ->
          ~ (259 + 14 * i <= off < 271 + 14 * i) /\
          ~ (387 + 14 * i <= off < 399 + 14 * i)) ->
       load fb' off = load (mFramebuffer self) off).
Proof.
  intros Hlen Hl Hp Hls Hps.
  destruct (DrawPartLevels_with_peaks self Hlen) as (fb' & E & Hl' & Hblocks & _).
  { intros k Hk. apply channel_vals_total; assumption. }
  exists fb'. split; [exact E|]. split; [exact Hl'|]. split.
  - intros i j Hi Hj.
    destruct (channel_vals_total self i Hi Hl Hp Hls Hps) as (t & b & Hv).
    destruct (Hblocks i j t b Hi Hj Hv) as [H1 H2].
    unfold channel_vals in Hv. bind_inv Hv. bind_inv Hv. bind_inv Hv.
    exists r, r1, (t, b). split; [exact E0|]. split; [exact E2|].
    split; [rewrite E1; exact Hv|]. cbn [fst snd].
    replace (259 + 14 * i + j) with (256 + i * 14 + j + 3) by lia.
    replace (256 + i * 14 + j + 3 + 128) with (256 + i * 14 + j + 128 + 3)
      by lia.
    split; assumption.
  - intros off Hoff.
    apply DrawPartLevels_frame in E as (_ & _ & Hsame).
    cbn [mFramebuffer set_framebuffer] in Hsame. apply Hsame.
    intros i Hi. destruct (Hoff i Hi) as [H1 H2].
    split; apply in_block_false; lia.
Qed.

Lemma DrawPartLevels_draws_meters_witness :
  exists fb',
    DrawPartLevels true sample_driver_full_level
    = Ok (set_framebuffer sample_driver_full_level fb') /\
    length fb' = length (mFramebuffer sample_driver_full_level).
Proof.
  destruct (DrawPartLevels_draws_meters sample_driver_full_level)
    as (fb' & E & Hl & _).
  - vm_compute. discriminate.
  - reflexivity.
  - reflexivity.
  - repeat constructor; lia.
  - repeat constructor; lia.
  - exists fb'. split; [exact E|exact Hl].
Defined.

(** ** The bus protocol *)

Lemma effect_refl self : effect self self [].
Proof.
  unfold effect. repeat split.
  destruct (mI2CMaster self); [rewrite app_nil_r|]; auto.
Qed.

Lemma effect_trans self1 self2 self3 sent sent' :
  effect self1 self2 sent -> effect self2 self3 sent' ->
  effect self1 self3 (sent ++ sent').
Proof.
  unfold effect. intros (A1 & H1 & L1 & B1 & S1) (A2 & H2 & L2 & B2 & S2).
  repeat split; try congruence.
  destruct (mI2CMaster self1) as [bus|].
  - rewrite S1 in S2. rewrite S2, app_assoc. reflexivity.
  - destruct S1 as [S1 ->]. rewrite S1 in S2. exact S2.
Qed.

(** A call that changes the framebuffer alone, and not its control byte. *)
Lemma effect_set_framebuffer self self' :
  self' = set_framebuffer self (mFramebuffer self') ->
  length (mFramebuffer self') = length (mFramebuffer self) ->
  load (mFramebuffer self') 0 = load (mFramebuffer self) 0 ->
  effect self self' [].
Proof.
  intros Hs Hl H0. unfold effect.
  destruct (set_framebuffer_self_eq _ _ Hs) as (B & A & H & _).
  repeat split; try assumption.
  rewrite B. destruct (mI2CMaster self); [rewrite app_nil_r|]; auto.
Qed.

Lemma WriteFramebuffer_inv self self' :
  WriteFramebuffer self = Ok self' ->
  exists bus,
    mI2CMaster self = Some bus /\
    0 <= mHeight self * 16 + 1 <= Z.of_nat (length (mFramebuffer self)) /\
    self' = set_bus self
              (bus ++ [(mAddress self,
                        take (Z.to_nat (mHeight self * 16 + 1))
                          (mFramebuffer self))]).
Proof.
  unfold WriteFramebuffer, bus_write, CI2CMaster_Write. intros H.
  destruct (mI2CMaster self) as [bus|]; [|discriminate].
  destruct (Z.leb_spec 0 (mHeight self * 16 + 1)); [|discriminate].
  destruct (Z.leb_spec (mHeight self * 16 + 1)
              (Z.of_nat (length (mFramebuffer self)))); [|discriminate].
  cbn in H. injection H as <-. exists bus. auto.
Qed.

(** The frame [WriteFramebuffer] sends from a framebuffer that starts with
    the data-mode marker. *)
Lemma frame_is_protocol_write (fb : list Z) address height :
  load fb 0 = Ok 0x40 ->
  0 <= height * 16 + 1 <= Z.of_nat (length fb) ->
  protocol_write address height
    (address, take (Z.to_nat (height * 16 + 1)) fb).
Proof.
  intros H0 Hh. apply load_Ok in H0 as [_ H0].
  destruct fb as [|b fb]; [discriminate|]. cbn in H0. injection H0 as ->.
  split; [reflexivity|]. right. cbn [snd].
  replace (Z.to_nat (height * 16 + 1)) with (S (Z.to_nat (height * 16)))
    by lia.
  cbn [take]. eexists. split; [reflexivity|].
  rewrite length_take. cbn [length] in Hh. lia.
Qed.

Lemma WriteFramebuffer_effect self self' :
  WriteFramebuffer self = Ok self' ->
  exists sent,
    effect self self' sent /\
    mFramebuffer self' = mFramebuffer self /\
    mPartLevels self' = mPartLevels self /\
    mPeakLevels self' = mPeakLevels self /\
    sent = [(mAddress self,
             take (Z.to_nat (mHeight self * 16 + 1)) (mFramebuffer self))] /\
    0 <= mHeight self * 16 + 1 <= Z.of_nat (length (mFramebuffer self)).
Proof.
  intros H. apply WriteFramebuffer_inv in H as (bus & Hbus & Hh & ->).
  eexists. split; [|repeat split; try reflexivity; lia].
  unfold effect. rewrite Hbus. repeat split.
Qed.

Lemma fill_length (a : list Z) first last value a' :
  fill a first last value = Ok a' -> length a' = length a.
Proof.
  intros H. unfold fill in H.
  eapply (for_each_invariant (fun b => length b = length a));
    [|reflexivity|exact H].
  intros i b b' _ Hb Hstep. rewrite (store_length _ _ _ _ Hstep). exact Hb.
Qed.

(** [Initialize] returns with nothing sent, or with the whole sequence
    sent. *)
Lemma Initialize_effect NDEBUG self ok self' :
  Initialize NDEBUG self = Ok (ok, self') ->
  (self' = self /\ ok = false) \/
  (exists bus,
     mI2CMaster self = Some bus /\ ok = true /\
     self' = set_bus self (bus ++ command_writes (mAddress self) InitSequence)).
Proof.
  unfold Initialize. intros H. bind_inv H.
  destruct (negb ((mHeight self =? 32) || (mHeight self =? 64))).
  - injection H as <- <-. left. auto.
  - bind_inv H. destruct r0 as [buffer s]. injection H as <- <-.
    destruct (mI2CMaster self) as [bus|] eqn:Hbus.
    + destruct (Initialize_loop InitSequence self bus 0 Hbus) as [b1 Hloop].
      rewrite Hloop in E0. injection E0 as _ <-. right. exists bus.
      split; [reflexivity|]. split; reflexivity.
    + unfold InitSequence in E0. cbn [for_each] in E0.
      replace (store [0x80; 0] 1 0xAE) with (Ok [0x80; 0xAE] : result (list Z))
        in E0 by reflexivity.
      cbn [mbind result_bind] in E0.
      rewrite (bus_write_null _ _ _ Hbus) in E0. discriminate E0.
Qed.

Lemma command_writes_protocol address height bytes :
  Forall (protocol_write address height) (command_writes address bytes).
Proof.
  unfold command_writes. apply Forall_fmap, Forall_forall. intros byte _.
  split; [reflexivity|]. left. eexists. reflexivity.
Qed.

Lemma protocol_step_trans self1 self2 self3 :
  protocol_step self1 self2 -> protocol_step self2 self3 ->
  protocol_step self1 self3.
Proof.
  intros H12 H23 H0. destruct (H12 H0) as (sent & He & Hp).
  pose proof He as (A & H & _ & B & _).
  destruct H23 as (sent' & He' & Hp'); [congruence|].
  exists (sent ++ sent'). split; [eapply effect_trans; eassumption|].
  apply Forall_app. split; [exact Hp|]. rewrite <- A, <- H. exact Hp'.
Qed.

Lemma protocol_step_silent self self' :
  self' = set_framebuffer self (mFramebuffer self') ->
  length (mFramebuffer self') = length (mFramebuffer self) ->
  load (mFramebuffer self') 0 = load (mFramebuffer self) 0 ->
  protocol_step self self'.
Proof.
  intros Hs Hl H0 _. exists []. split; [|constructor].
  apply effect_set_framebuffer; assumption.
Qed.

Lemma protocol_step_WriteFramebuffer self self' :
  WriteFramebuffer self = Ok self' -> protocol_step self self'.
Proof.
  intros H H0. apply WriteFramebuffer_effect in H
    as (sent & He & _ & _ & _ & -> & Hh).
  eexists. split; [exact He|]. constructor; [|constructor].
  apply frame_is_protocol_write; assumption.
Qed.

Lemma protocol_step_Initialize NDEBUG self ok self' :
  Initialize NDEBUG self = Ok (ok, self') -> protocol_step self self'.
Proof.
  intros H _. apply Initialize_effect in H as [[-> _]|(bus & Hbus & _ & ->)].
  - exists []. split; [apply effect_refl|constructor].
  - exists (command_writes (mAddress self) InitSequence).
    split; [|apply command_writes_protocol].
    unfold effect. rewrite Hbus. repeat split.
Qed.

(** [Print] as its two loops, which change the framebuffer alone, followed
    by the transmission when [bImmediate] is set. *)
Lemma Print_inv Font6x8 pText nCursorX nCursorY bClearLine bImmediate
    self self' :
  Print Font6x8 pText nCursorX nCursorY bClearLine bImmediate self = Ok self' ->
  exists drawn,
    drawn = set_framebuffer self (mFramebuffer drawn) /\
    length (mFramebuffer drawn) = length (mFramebuffer self) /\
    load (mFramebuffer drawn) 0 = load (mFramebuffer self) 0 /\
    (if bImmediate then WriteFramebuffer drawn = Ok self' else self' = drawn).
Proof.
  unfold Print. cbv zeta. intros H.
  pose proof (u8_range nCursorX) as Hx. pose proof (u8_range nCursorY) as Hy.
  bind_inv H. destruct r as [x1 s1]. bind_inv H. destruct r as [x2 s2].
  pose proof (Print_text_keeps_byte0 _ _ _ _ _ _ E) as B1. cbn [snd] in B1.
  apply Print_text_frame in E as (Hle & Hs1 & Hl1 & _); [|lia..].
  exists s2.
  assert (s2 = set_framebuffer s1 (mFramebuffer s2) /\
          length (mFramebuffer s2) = length (mFramebuffer s1) /\
          load (mFramebuffer s2) 0 = load (mFramebuffer s1) 0)
    as (Hs2 & Hl2 & B2).
  { destruct bClearLine.
    - pose proof (Print_clear_keeps_byte0 _ _ _ _ _ _ E0) as B2.
      apply Print_clear_frame in E0 as (Hs2 & Hl2 & _); [|lia..]. auto.
    - injection E0 as _ <-. rewrite set_framebuffer_id. auto. }
  split; [rewrite Hs2, Hs1 at 1; reflexivity|]. split; [lia|].
  split; [congruence|].
  destruct bImmediate; [exact H|]. injection H as <-. reflexivity.
Qed.

Lemma protocol_step_Print Font6x8 pText nCursorX nCursorY bClearLine
    bImmediate self self' :
  Print Font6x8 pText nCursorX nCursorY bClearLine bImmediate self = Ok self' ->
  protocol_step self self'.
Proof.
  intros H. apply Print_inv in H as (drawn & Hs & Hl & H0 & Hsend).
  pose proof (protocol_step_silent _ _ Hs Hl H0) as Hdraw.
  destruct bImmediate.
  - eapply protocol_step_trans; [exact Hdraw|].
    apply protocol_step_WriteFramebuffer. exact Hsend.
  - subst self'. exact Hdraw.
Qed.

Lemma protocol_step_DrawPartLevels bDrawPeaks self self' :
  DrawPartLevels bDrawPeaks self = Ok self' -> protocol_step self self'.
Proof.
  intros H. pose proof (DrawPartLevels_keeps_byte0 _ _ _ H) as H0.
  apply DrawPartLevels_frame in H as (Hs & Hl & _).
  apply protocol_step_silent; assumption.
Qed.

Lemma protocol_step_run Font6x8 op self self' :
  run Font6x8 op self = Ok self' -> protocol_step self self'.
Proof.
  destruct op; cbn [run]; intros H.
  - pose proof (SetPixel_keeps_byte0 _ _ _ _ H) as H0.
    rewrite SetPixel_bind in H. bind_inv H. injection H as <-.
    apply protocol_step_silent;
      [reflexivity|apply length_insert|exact H0].
  - pose proof (ClearPixel_keeps_byte0 _ _ _ _ H) as H0.
    rewrite ClearPixel_bind in H. bind_inv H. injection H as <-.
    apply protocol_step_silent;
      [reflexivity|apply length_insert|exact H0].
  - pose proof (DrawChar_keeps_byte0 _ _ _ _ _ _ _ _ H) as H0.
    apply DrawChar_frame in H as (Hs & Hl & _).
    apply protocol_step_silent; assumption.
  - eapply protocol_step_Print. exact H.
  - eapply protocol_step_DrawPartLevels. exact H.
  - unfold Clear in H. bind_inv H.
    eapply protocol_step_trans;
      [|apply protocol_step_WriteFramebuffer; exact H].
    apply protocol_step_silent;
      [reflexivity|exact (fill_length _ _ _ _ _ E)|].
    cbn [mFramebuffer set_framebuffer].
    eapply fill_keeps_byte0; [|exact E]. lia.
Qed.

Lemma protocol_step_set_levels self partLevels peakLevels :
  protocol_step self (set_levels self partLevels peakLevels).
Proof.
  intros _. exists []. split; [|constructor].
  unfold effect. cbn [set_levels mAddress mHeight mFramebuffer mI2CMaster].
  repeat split. destruct (mI2CMaster self); [rewrite app_nil_r|]; auto.
Qed.

Lemma protocol_step_serve Font6x8 NDEBUG req self self' :
  serve Font6x8 NDEBUG req self = Ok self' -> protocol_step self self'.
Proof.
  destruct req; cbn [serve]; intros H.
  - bind_inv H. destruct r as [ok s]. injection H as <-.
    eapply protocol_step_Initialize. exact E.
  - apply protocol_step_WriteFramebuffer. exact H.
  - eapply protocol_step_run. exact H.
  - unfold Update in H. cbv zeta in H. bind_inv H. bind_inv H.
    eapply protocol_step_trans; [apply protocol_step_set_levels|].
    eapply protocol_step_trans; [eapply protocol_step_Print; exact E|].
    eapply protocol_step_trans;
      [eapply protocol_step_DrawPartLevels; exact E0|].
    apply protocol_step_WriteFramebuffer. exact H.
Qed.

Lemma protocol_step_serve_all Font6x8 NDEBUG reqs : forall self self',
  serve_all Font6x8 NDEBUG reqs self = Ok self' -> protocol_step self self'.
Proof.
  induction reqs as [|req reqs IH]; intros self self' H; cbn [serve_all] in H.
  - injection H as <-. intros _. exists []. split; [apply effect_refl|constructor].
  - bind_inv H. eapply protocol_step_trans.
    + eapply protocol_step_serve. exact E.
    + apply IH. exact H.
Qed.

(** X13.  From a driver as constructed over a bus, every sequence of calls
    of [Initialize], [WriteFramebuffer], [Update] and the drawing and
    clearing operations that returns has sent only well-formed writes, all
    to the driver's address: two-byte commands behind the marker 0x80, and
    frames of the marker 0x40 followed by [height * 16] bytes.  The control
    byte is still 0x40 afterwards. *)
Theorem bus_protocol_invariant (Font6x8 : list CharData)
    (FramebufferLength : nat) (NDEBUG : bool) (bus : CI2CMaster)
    (nAddress nHeight : Z) (partLevels peakLevels : list Z)
    (reqs : list request) (constructed self : CSSD1306) :
  CSSD1306_new FramebufferLength NDEBUG (Some bus) nAddress nHeight
    partLevels peakLevels = Ok constructed ->
  serve_all Font6x8 NDEBUG reqs constructed = Ok self ->
  exists sent,
    mI2CMaster self = Some (bus ++ sent) /\
    Forall (protocol_write (u8 nAddress) (u8 nHeight)) sent /\
    load (mFramebuffer self) 0 = Ok 0x40.
Proof.
  intros Hnew Hserve.
  unfold CSSD1306_new in Hnew. cbv zeta in Hnew. bind_inv Hnew.
  injection Hnew as <-.
  destruct (protocol_step_serve_all _ _ _ _ _ Hserve eq_refl)
    as (sent & (_ & _ & _ & H0 & Hbus) & Hsent).
  exists sent. cbn [mI2CMaster mAddress mHeight mFramebuffer] in *.
  split; [exact Hbus|]. split; [exact Hsent|]. rewrite H0. reflexivity.
Qed.

Lemma bus_protocol_invariant_witness :
  exists self sent,
    serve_all sample_Font6x8 false
      [ReqInitialize; ReqDraw (OpSetPixel 3 3); ReqWriteFramebuffer]
      sample_driver = Ok self /\
    mI2CMaster self = Some ([] ++ sent) /\
    Forall (protocol_write (u8 0x3C) (u8 64)) sent.
Proof.
  assert (exists self,
    serve_all sample_Font6x8 false
      [ReqInitialize; ReqDraw (OpSetPixel 3 3); ReqWriteFramebuffer]
      sample_driver = Ok self) as [self E]
    by (vm_compute; eexists; reflexivity).
  destruct (bus_protocol_invariant sample_Font6x8 1025 false [] 0x3C 64
              (replicate 9 0) (replicate 9 0) _ sample_driver self eq_refl E)
    as (sent & Hbus & Hsent & _).
  exists self, sent. split; [exact E|]. split; [exact Hbus|exact Hsent].
Defined.

(** ** The refresh *)

(** [Print] of a whole line: from column 0, with [bClearLine]. *)
Lemma Print_line Font6x8 pText nCursorY bImmediate self bus blank :
  Forall (fun ch => u8 ch <> 0 /\
                    glyph_index (u8 ch) < Z.of_nat (length Font6x8))
    (take 20 pText) ->
  Font6x8 !! 0%nat = Some blank ->
  u8 nCursorY * 256 + 252 <= Z.of_nat (length (mFramebuffer self)) ->
  mI2CMaster self = Some bus ->
  0 <= mHeight self * 16 + 1 <= Z.of_nat (length (mFramebuffer self)) ->
  exists fb',
    Print Font6x8 pText 0 nCursorY true bImmediate self
    = Ok (if bImmediate
          then set_bus (set_framebuffer self fb')
                 (bus ++ [(mAddress self,
                           take (Z.to_nat (mHeight self * 16 + 1)) fb')])
          else set_framebuffer self fb') /\
    length fb' = length (mFramebuffer self) /\
    (forall (k : nat) ch cd,
        pText !! k = Some ch -> (k < 20)%nat ->
        Font6x8 !! Z.to_nat (glyph_index (u8 ch)) = Some cd ->
        shows_glyph fb' cd (Z.of_nat k) (u8 nCursorY)) /\
    (forall k, Z.of_nat (length pText) <= k < 20 ->
        shows_glyph fb' blank k (u8 nCursorY)).
Proof.
  intros Hok Hblank Hlen Hbus Hh.
  pose proof (u8_range nCursorY) as Hy. set (y := u8 nCursorY) in *.
  set (x1 := Z.min 20 (0 + Z.of_nat (length pText))).
  destruct (Print_text_cells Font6x8 y Hy pText 0 self)
    as (fb1 & E1 & Hl1 & Hshow1 & Hframe1); [lia|exact Hok|exact Hlen|].
  fold x1 in E1, Hframe1.
  destruct (Print_clear_cells Font6x8 y blank Hy Hblank 20 x1
              (set_framebuffer self fb1))
    as (fb2 & E2 & Hl2 & Hshow2 & Hframe2);
    [lia|lia|cbn [mFramebuffer set_framebuffer]; lia|].
  cbn [mFramebuffer set_framebuffer] in Hl2, Hframe2.
  rewrite set_framebuffer_twice in E2.
  exists fb2. split; [|split; [lia|split]].
  - unfold Print. cbv zeta. fold y. change (u8 0) with 0.
    rewrite E1. cbn [mbind result_bind]. rewrite E2. cbn [mbind result_bind].
    destruct bImmediate; [|reflexivity].
    rewrite (WriteFramebuffer_Ok _ bus)
      by (cbn [mI2CMaster mHeight mFramebuffer set_framebuffer];
          (assumption || lia)).
    reflexivity.
  - intros k ch cd Hk Hk20 Hcd.
    pose proof (lookup_lt_Some _ _ _ Hk) as Hklen.
    apply (shows_glyph_frame fb1).
    + replace (Z.of_nat k) with (0 + Z.of_nat k) by lia.
      apply (Hshow1 k ch cd); [exact Hk|lia|exact Hcd].
    + intros off Hoff. apply Hframe2.
      apply in_cells_true in Hoff. apply in_cells_false. lia.
  - intros k Hk. apply Hshow2. lia.
Qed.

(** X14.  [Update], with the text, levels and peaks the base class left:
    for a text whose first 20 characters have glyphs and levels and peaks of
    at most 16, it succeeds, and the frame it sends last is the framebuffer
    as rendered: in row 0 the glyphs of the first 20 characters, padded with
    blanks to column 19, and in every channel's block the channel's two
    meter bytes; drawing the meters does not disturb the text.  One frame
    is sent, preceded by one more if [Print] transmits by default. *)
Theorem Update_renders_text_and_meters (Font6x8 : list CharData)
    (Print_bImmediate_default : bool)
    (mTextBuffer partLevels peakLevels : list Z) (self : CSSD1306)
    (bus : CI2CMaster) (blank : CharData) :
  Forall (fun ch => u8 ch <> 0 /\
                    glyph_index (u8 ch) < Z.of_nat (length Font6x8))
    (take 20 mTextBuffer) ->
  Font6x8 !! 0%nat = Some blank ->
  length partLevels = 9%nat -> length peakLevels = 9%nat ->
  Forall (fun l => 0 <= l <= 16) partLevels ->
  Forall (fun p => 0 <= p <= 16) peakLevels ->
  mI2CMaster self = Some bus ->
  511 <= Z.of_nat (length (mFramebuffer self)) ->
  0 <= mHeight self * 16 + 1 <= Z.of_nat (length (mFramebuffer self)) ->
  exists self' earlier,
    Update Font6x8 Print_bImmediate_default true mTextBuffer partLevels
      peakLevels self = Ok self' /\
    (forall (k : nat) ch cd,
        mTextBuffer !! k = Some ch -> (k < 20)%nat ->
        Font6x8 !! Z.to_nat (glyph_index (u8 ch)) = Some cd ->
        shows_glyph (mFramebuffer self') cd (Z.of_nat k) 0) /\
    (forall k, Z.of_nat (length mTextBuffer) <= k < 20 ->
        shows_glyph (mFramebuffer self') blank k 0) /\
    (forall i j, 0 <= i < 9 -> 0 <= j < 12 ->
       exists level peak vals,
         load partLevels i = Ok level /\ load peakLevels i = Ok peak /\
         (bar ← BarGraph level; PeakMeter peak bar) = Ok vals /\
         load (mFramebuffer self') (259 + 14 * i + j) = Ok vals.1 /\
         load (mFramebuffer self') (259 + 14 * i + j + 128) = Ok vals.2) /\
    mI2CMaster self'
    = Some (bus ++ earlier
              ++ [(mAddress self,
                   take (Z.to_nat (mHeight self * 16 + 1))
                     (mFramebuffer self'))]) /\
    length earlier = (if Print_bImmediate_default then 1 else 0)%nat.
Proof.
  intros Hok Hblank Hl Hp Hls Hps Hbus Hlen Hh.
  unfold Update. cbv zeta.
  set (s0 := set_levels self partLevels peakLevels).
  destruct (Print_line Font6x8 mTextBuffer 0 Print_bImmediate_default s0 bus
              blank Hok Hblank)
    as (fb2 & E2 & Hl2 & Htext & Hpad);
    [change (u8 0) with 0; cbn [s0 set_levels mFramebuffer]; lia
    |exact Hbus|exact Hh|].
  change (u8 0) with 0 in Htext, Hpad.
  cbn [s0 set_levels mFramebuffer mHeight mAddress] in E2, Hl2.
  rewrite E2. cbn [mbind result_bind].
  set (earlier := if Print_bImmediate_default
                  then [(mAddress self,
                         take (Z.to_nat (mHeight self * 16 + 1)) fb2)]
                  else [] : CI2CMaster).
  set (s3 := if Print_bImmediate_default
             then set_bus (set_framebuffer s0 fb2)
                    (bus ++ [(mAddress self,
                              take (Z.to_nat (mHeight self * 16 + 1)) fb2)])
             else set_framebuffer s0 fb2).
  assert (Hs3 : mFramebuffer s3 = fb2 /\ mPartLevels s3 = partLevels /\
                mPeakLevels s3 = peakLevels /\ mAddress s3 = mAddress self /\
                mHeight s3 = mHeight self /\
                mI2CMaster s3 = Some (bus ++ earlier)).
  { unfold s3, earlier. destruct Print_bImmediate_default;
      cbn [mFramebuffer mPartLevels mPeakLevels mAddress mHeight mI2CMaster
           set_bus set_framebuffer s0 set_levels];
      rewrite ?app_nil_r; repeat split; assumption. }
  destruct Hs3 as (F3 & P3 & K3 & A3 & H3 & B3).
  destruct (DrawPartLevels_with_peaks s3)
    as (fb4 & E4 & Hl4 & Hblocks & Hframe4).
  { rewrite F3. lia. }
  { intros i Hi. apply channel_vals_total; rewrite ?P3, ?K3; assumption. }
  rewrite E4. cbn [mbind result_bind].
  rewrite F3 in Hl4, Hframe4.
  rewrite (WriteFramebuffer_Ok _ (bus ++ earlier))
    by (cbn [mI2CMaster mHeight mFramebuffer set_framebuffer];
        rewrite ?H3; (assumption || lia)).
  eexists. exists earlier. split; [reflexivity|].
  cbn [mFramebuffer mI2CMaster mAddress mHeight set_bus set_framebuffer].
  rewrite A3, H3.
  assert (Hkeep : forall cd k, 0 <= k < 20 ->
                    shows_glyph fb2 cd k 0 -> shows_glyph fb4 cd k 0).
  { intros cd k Hk Hs. apply (shows_glyph_frame fb2); [exact Hs|].
    intros off Hoff. apply in_cells_true in Hoff. apply Hframe4. lia. }
  split; [|split; [|split; [|split]]].
  - intros k ch cd Hk Hk20 Hcd. apply Hkeep; [lia|].
    apply (Htext k ch cd); assumption.
  - intros k Hk. apply Hkeep; [lia|]. apply Hpad. exact Hk.
  - intros i j Hi Hj.
    destruct (channel_vals_total s3 i Hi) as (t & b & Hv);
      rewrite ?P3, ?K3; try assumption.
    destruct (Hblocks i j t b Hi Hj Hv) as [H1 H2].
    unfold channel_vals in Hv. rewrite P3, K3 in Hv.
    bind_inv Hv. bind_inv Hv. bind_inv Hv.
    exists r, r1, (t, b). split; [exact E|]. split; [exact E1|].
    split; [rewrite E0; exact Hv|]. cbn [fst snd].
    replace (259 + 14 * i + j) with (256 + i * 14 + j + 3) by lia.
    replace (256 + i * 14 + j + 3 + 128) with (256 + i * 14 + j + 128 + 3)
      by lia.
    split; assumption.
  - rewrite <- app_assoc. reflexivity.
  - unfold earlier. destruct Print_bImmediate_default; reflexivity.
Qed.

Lemma Update_renders_text_and_meters_witness :
  exists self' earlier,
    Update sample_Font6x8 false true sample_text
      (16 :: replicate 8 0) (16 :: replicate 8 0) sample_driver = Ok self' /\
    mI2CMaster self'
    = Some ([] ++ earlier
              ++ [(0x3C, take 1025 (mFramebuffer self'))]) /\
    length earlier = 0%nat.
Proof.
  destruct (Update_renders_text_and_meters sample_Font6x8 false sample_text
              (16 :: replicate 8 0) (16 :: replicate 8 0) sample_driver []
              [0x0E; 0x11; 0x11; 0x1F; 0x11; 0x11; 0x11; 0x00])
    as (self' & earlier & E & _ & _ & _ & Hbus & Hn).
  - exact sample_text_ok.
  - reflexivity.
  - reflexivity.
  - reflexivity.
  - repeat constructor; lia.
  - repeat constructor; lia.
  - reflexivity.
  - rewrite sample_driver_length. lia.
  - rewrite sample_driver_length. change (mHeight sample_driver) with 64. lia.
  - exists self', earlier. split; [exact E|]. split; [exact Hbus|exact Hn].
Defined.

(** ** From construction to initialization *)

Lemma Initialize_with_bus NDEBUG self bus :
  mI2CMaster self = Some bus ->
  Initialize NDEBUG self
  = Ok (if (mHeight self =? 32) || (mHeight self =? 64)
        then (true,
              set_bus self
                (bus ++ command_writes (mAddress self) InitSequence))
        else (false, self)).
Proof.
  intros Hbus. unfold Initialize, assert_. rewrite Hbus.
  replace (if NDEBUG then Ok tt
           else if bool_decide (Some bus ≠ None) then Ok tt
                else AssertionFailed) with (Ok tt : result unit)
    by (destruct NDEBUG; reflexivity).
  cbn [mbind result_bind].
  destruct ((mHeight self =? 32) || (mHeight self =? 64)); [|reflexivity].
  cbn [negb].
  destruct (Initialize_loop InitSequence self bus 0 Hbus) as [b1 E].
  rewrite E. reflexivity.
Qed.

(** X15.  Construction and initialization together.  Where assertions are
    active the constructor lets only the heights 32 and 64 through, so on a
    driver it has built over a bus [Initialize] cannot fail: it returns
    success with the 30 commands sent and the framebuffer (the marker
    followed by zeros) untouched.  Where assertions are compiled out the
    constructor accepts any height, and [Initialize] returns failure with
    nothing sent exactly for the heights other than 32 and 64. *)
Theorem constructed_driver_initializes (FramebufferLength : nat)
    (NDEBUG : bool) (bus : CI2CMaster) (nAddress nHeight : Z)
    (partLevels peakLevels : list Z) (constructed : CSSD1306) :
  CSSD1306_new FramebufferLength NDEBUG (Some bus) nAddress nHeight
    partLevels peakLevels = Ok constructed ->
  let supported := (u8 nHeight =? 32) || (u8 nHeight =? 64) in
  (NDEBUG = false -> supported = true) /\
  mFramebuffer constructed = 0x40 :: replicate (FramebufferLength - 1) 0 /\
  Initialize NDEBUG constructed
  = Ok (supported,
        if supported
        then set_bus constructed
               (bus ++ command_writes (u8 nAddress) InitSequence)
        else constructed).
Proof.
  intros Hnew. cbv zeta. unfold CSSD1306_new, assert_ in Hnew.
  cbv zeta in Hnew.
  assert (Hc : constructed
               = {| mI2CMaster := Some bus; mAddress := u8 nAddress;
                    mHeight := u8 nHeight;
                    mFramebuffer := 0x40 :: replicate (FramebufferLength - 1) 0;
                    mPartLevels := partLevels; mPeakLevels := peakLevels |} /\
               (NDEBUG = false ->
                (u8 nHeight =? 32) || (u8 nHeight =? 64) = true)).
  { destruct NDEBUG.
    - cbn [mbind result_bind] in Hnew. injection Hnew as <-.
      split; [reflexivity|discriminate].
    - destruct ((u8 nHeight =? 32) || (u8 nHeight =? 64));
        [|discriminate Hnew].
      cbn [mbind result_bind] in Hnew. injection Hnew as <-.
      split; reflexivity. }
  destruct Hc as [-> Hdebug]. clear Hnew.
  split; [exact Hdebug|]. split; [reflexivity|].
  rewrite (Initialize_with_bus NDEBUG _ bus) by reflexivity.
  cbn [mHeight mAddress].
  destruct ((u8 nHeight =? 32) || (u8 nHeight =? 64)); reflexivity.
Qed.

Lemma constructed_driver_initializes_witness :
  Initialize false sample_driver
  = Ok ((u8 64 =? 32) || (u8 64 =? 64),
        if (u8 64 =? 32) || (u8 64 =? 64)
        then set_bus sample_driver
               ([] ++ command_writes (u8 0x3C) InitSequence)
        else sample_driver).
Proof.
  apply (constructed_driver_initializes 1025 false [] 0x3C 64
           (replicate 9 0) (replicate 9 0) sample_driver).
  reflexivity.
Defined.

(** ** What appears on the display *)

Lemma low_byte_testbit v n : 0 <= n < 8 ->
  Z.testbit (Z.land v 0xFF) n = Z.testbit v n.
Proof.
  intros Hn. rewrite Z.land_spec, testbit_0xFF by lia.
  rewrite (proj2 (Z.ltb_lt n 8)) by lia. apply andb_true_r.
Qed.

Lemma high_byte_testbit v n : 0 <= n < 8 ->
  Z.testbit (Z.land (Z.shiftr v 8) 0xFF) n = Z.testbit v (n + 8).
Proof.
  intros Hn. rewrite low_byte_testbit by lia. apply Z.shiftr_spec. lia.
Qed.

(** The pixel at column [x] of row [16 row + r], in terms of the two bytes
    of column [x] in the pages [2 row] and [2 row + 1]. *)
Lemma pixel_lit_row16 (fb : list Z) x row r :
  0 <= row -> 0 <= r <= 15 ->
  pixel_lit fb x (16 * row + r)
  = (byte ← load fb (row * 256 + x + 1 + (if r <? 8 then 0 else 128));
     Ok (Z.testbit byte (if r <? 8 then r else r - 8))).
Proof.
  intros Hrow Hr. unfold pixel_lit.
  destruct (Z.ltb_spec r 8).
  - replace ((16 * row + r) / 8) with (2 * row)
      by (Z.div_mod_to_equations; lia).
    replace ((16 * row + r) mod 8) with r by (Z.div_mod_to_equations; lia).
    replace (1 + 128 * (2 * row) + x) with (row * 256 + x + 1 + 0) by lia.
    reflexivity.
  - replace ((16 * row + r) / 8) with (2 * row + 1)
      by (Z.div_mod_to_equations; lia).
    replace ((16 * row + r) mod 8) with (r - 8)
      by (Z.div_mod_to_equations; lia).
    replace (1 + 128 * (2 * row + 1) + x) with (row * 256 + x + 1 + 128)
      by lia.
    reflexivity.
Qed.

(** X16.  What [DrawChar] with its default arguments shows: the glyph's
    pixel in row [r / 2] and column [c] (bit [5 - c] of that row in the
    font table) appears at display column [6 x + 3 + c], display row
    [16 y + r]: each glyph row is two display rows tall, the cell is 6
    columns wide and starts 3 columns from the left edge. *)
Theorem DrawChar_renders_glyph_pixels (Font6x8 : list CharData)
    (chChar nCursorX nCursorY : Z) (cd : CharData) (self : CSSD1306)
    (c r : Z) :
  Font6x8 !! Z.to_nat (glyph_index (u8 chChar)) = Some cd ->
  0 <= nCursorX <= 19 -> 0 <= nCursorY <= 3 ->
  nCursorY * 256 + nCursorX * 6 + 4 + 128 + 6
    <= Z.of_nat (length (mFramebuffer self)) ->
  0 <= c <= 5 -> 0 <= r <= 15 ->
  exists drawn,
    DrawChar Font6x8 chChar nCursorX nCursorY false false self = Ok drawn /\
    pixel_lit (mFramebuffer drawn) (6 * nCursorX + 3 + c) (16 * nCursorY + r)
    = Ok (Z.testbit (row cd (r / 2)) (5 - c)).
Proof.
  intros Hcd Hx Hy Hlen Hc Hr.
  destruct (DrawChar_narrow Font6x8 chChar cd nCursorX nCursorY false self Hcd)
    as (fb' & E & Hcell); [rewrite !u8_small by lia; exact Hlen|].
  rewrite (u8_small nCursorX), (u8_small nCursorY) in Hcell by lia.
  eexists. split; [exact E|]. cbn [mFramebuffer set_framebuffer].
  destruct (Hcell c ltac:(lia)) as [Hup Hlow].
  unfold drawn_column in Hup, Hlow. rewrite andb_false_r in Hup, Hlow.
  rewrite pixel_lit_row16 by lia.
  assert (Hbit : Z.testbit (DoubleColumn cd c) r
                 = Z.testbit (row cd (r / 2)) (5 - c)).
  { rewrite DoubleColumn_bits by lia.
    apply SingleColumn_bits; [lia|Z.div_mod_to_equations; lia]. }
  revert Hup Hlow Hbit. generalize (DoubleColumn cd c) as d.
  intros d Hup Hlow Hbit.
  destruct (Z.ltb_spec r 8).
  - replace (nCursorY * 256 + (6 * nCursorX + 3 + c) + 1 + 0)
      with (nCursorY * 256 + nCursorX * 6 + 4 + c) by lia.
    rewrite Hup. cbn [mbind result_bind].
    rewrite low_byte_testbit by lia. rewrite Hbit. reflexivity.
  - replace (nCursorY * 256 + (6 * nCursorX + 3 + c) + 1 + 128)
      with (nCursorY * 256 + nCursorX * 6 + 4 + c + 128) by lia.
    rewrite Hlow. cbn [mbind result_bind].
    rewrite high_byte_testbit by lia.
    replace (r - 8 + 8) with r by lia. rewrite Hbit. reflexivity.
Qed.

Lemma DrawChar_renders_glyph_pixels_witness :
  exists drawn,
    DrawChar sample_Font6x8 65 2 1 false false sample_driver = Ok drawn /\
    pixel_lit (mFramebuffer drawn) (6 * 2 + 3 + 1) (16 * 1 + 6)
    = Ok (Z.testbit (row [0x0E; 0x11; 0x11; 0x1F; 0x11; 0x11; 0x11; 0x00]
                       (6 / 2)) (5 - 1)).
Proof.
  apply (DrawChar_renders_glyph_pixels sample_Font6x8 65 2 1).
  - reflexivity.
  - lia.
  - lia.
  - rewrite sample_driver_length. lia.
  - lia.
  - lia.
Defined.

Lemma meter_rows_testbit top bottom r :
  0 <= top < 256 -> 0 <= r ->
  Z.testbit (meter_rows (top, bottom)) r
  = if r <? 8 then Z.testbit top r else Z.testbit bottom (r - 8).
Proof.
  intros Ht Hr. unfold meter_rows. cbn [fst snd].
  destruct (Z.ltb_spec r 8).
  - rewrite <- (Z.mod_pow2_bits_low (top + 256 * bottom) 8) by lia.
    f_equal. change (2 ^ 8) with 256. Z.div_mod_to_equations. lia.
  - replace r with (r - 8 + 8) at 1 by lia.
    rewrite <- Z.shiftr_spec by lia. f_equal.
    rewrite Z.shiftr_div_pow2 by lia. change (2 ^ 8) with 256.
    Z.div_mod_to_equations. lia.
Qed.

(** X17.  What [DrawPartLevels] shows when peaks are drawn: in the 12
    display columns [2 + 14 i .. 13 + 14 i] of channel [i], rows 16 to 31,
    the pixel [r] rows below row 16 is lit exactly when it is one of the
    bottom [level] of those 16 rows or the peak's row [16 - peak]. *)
Theorem DrawPartLevels_renders_meter_pixels (self : CSSD1306)
    (i j r level peak : Z) :
  511 <= Z.of_nat (length (mFramebuffer self)) ->
  length (mPartLevels self) = 9%nat -> length (mPeakLevels self) = 9%nat ->
  Forall (fun l => 0 <= l <= 16) (mPartLevels self) ->
  Forall (fun p => 0 <= p <= 16) (mPeakLevels self) ->
  load (mPartLevels self) i = Ok level ->
  load (mPeakLevels self) i = Ok peak ->
  0 <= i < 9 -> 0 <= j < 12 -> 0 <= r <= 15 ->
  exists fb',
    DrawPartLevels true self = Ok (set_framebuffer self fb') /\
    pixel_lit fb' (2 + 14 * i + j) (16 + r)
    = Ok ((16 - level <=? r) || ((0 <? peak) && (r =? 16 - peak))).
Proof.
  intros Hlen Hl Hp Hls Hps Elevel Epeak Hi Hj Hr.
  destruct (DrawPartLevels_with_peaks self Hlen) as (fb' & E & _ & Hblocks & _).
  { intros k Hk. apply channel_vals_total; assumption. }
  exists fb'. split; [exact E|].
  assert (0 <= level <= 16) as Hlevel.
  { apply load_Ok in Elevel as [_ El].
    exact (proj1 (Forall_lookup _ _) Hls _ _ El). }
  assert (0 <= peak <= 16) as Hpeak.
  { apply load_Ok in Epeak as [_ Ep].
    exact (proj1 (Forall_lookup _ _) Hps _ _ Ep). }
  destruct (meter_rows_checked level peak r Hlevel Hpeak Hr)
    as ([top bottom] & Hvals & Htop & Hbottom & Hbit).
  cbn [fst snd] in Htop, Hbottom.
  assert (Hv : channel_vals self i = Ok (top, bottom)).
  { unfold channel_vals. rewrite Elevel. cbn [mbind result_bind].
    destruct (BarGraph level) as [bar| |]; try discriminate.
    cbn [mbind result_bind] in Hvals |- *. rewrite Epeak. exact Hvals. }
  destruct (Hblocks i j top bottom Hi Hj Hv) as [H1 H2].
  change (16 + r) with (16 * 1 + r). rewrite pixel_lit_row16 by lia.
  rewrite meter_rows_testbit in Hbit by lia. rewrite <- Hbit.
  destruct (Z.ltb_spec r 8).
  - replace (1 * 256 + (2 + 14 * i + j) + 1 + 0)
      with (256 + i * 14 + j + 3) by lia.
    rewrite H1. reflexivity.
  - replace (1 * 256 + (2 + 14 * i + j) + 1 + 128)
      with (256 + i * 14 + j + 128 + 3) by lia.
    rewrite H2. reflexivity.
Qed.

Lemma DrawPartLevels_renders_meter_pixels_witness :
  exists fb',
    DrawPartLevels true sample_driver_full_level
    = Ok (set_framebuffer sample_driver_full_level fb') /\
    pixel_lit fb' (2 + 14 * 0 + 11) (16 + 0) = Ok true.
Proof.
  apply (DrawPartLevels_renders_meter_pixels sample_driver_full_level
           0 11 0 16 16).
  - vm_compute. discriminate.
  - reflexivity.
  - reflexivity.
  - repeat constructor; lia.
  - repeat constructor; lia.
  - reflexivity.
  - reflexivity.
  - lia.
  - lia.
  - lia.
Defined.

(** * The configuration parsers *)

(** ** Comparison ignoring case *)

Lemma tolower_pos c : 0 < c -> 0 < tolower c.
Proof.
  unfold tolower. intros H.
  destruct ((65 <=? c) && (c <=? 90)); lia.
Qed.

Lemma c_string_cons c s :
  c_string (c :: s) = true <-> 0 < c < 256 /\ c_string s = true.
Proof.
  unfold c_string. cbn [forallb]. rewrite !andb_true_iff.
  rewrite Z.ltb_lt, Z.ltb_lt. tauto.
Qed.

Lemma strcasecmp_0 s1 s2 :
  c_string s1 = true -> c_string s2 = true ->
  strcasecmp s1 s2 = 0 <-> map tolower s1 = map tolower s2.
Proof.
  revert s2. induction s1 as [|c1 s1 IH]; intros [|c2 s2] H1 H2; cbn.
  - tauto.
  - apply c_string_cons in H2 as [H2 _].
    pose proof (tolower_pos c2 ltac:(lia)). split; [lia|discriminate].
  - apply c_string_cons in H1 as [H1 _].
    pose proof (tolower_pos c1 ltac:(lia)). split; [lia|discriminate].
  - apply c_string_cons in H1 as [_ H1]. apply c_string_cons in H2 as [_ H2].
    destruct (Z.eqb_spec (tolower c1) (tolower c2)) as [E|E].
    + rewrite (IH s2 H1 H2). rewrite E. split; [congruence|].
      intros H. injection H as H. exact H.
    + split; [lia|]. intros H. injection H as H _. contradiction.
Qed.

Lemma c_strings_cons (name : list Z) (names : list (list Z)) :
  forallb c_string (name :: names) = true <->
  c_string name = true /\ forallb c_string names = true.
Proof. cbn [forallb]. apply andb_true_iff. Qed.

(** ** Enumerations *)

Lemma ParseEnum_from_no_name pEnumStrings i pString pOut :
  c_string pString = true -> forallb c_string pEnumStrings = true ->
  map tolower pString ∉ map (map tolower) pEnumStrings ->
  ParseEnum_from pEnumStrings i pString pOut = (false, pOut).
Proof.
  intros Hs. revert i.
  induction pEnumStrings as [|name names IH]; intros i Hn Hnot; cbn.
  - reflexivity.
  - apply c_strings_cons in Hn as [Hname Hnames].
    cbn [map] in Hnot. apply not_elem_of_cons in Hnot as [Hne Hnot].
    destruct (Z.eqb_spec (strcasecmp pString name) 0) as [E|E].
    + apply strcasecmp_0 in E; [contradiction|assumption..].
    + apply IH; assumption.
Qed.

Lemma ParseEnum_from_name pEnumStrings i pString pOut k name :
  c_string pString = true -> forallb c_string pEnumStrings = true ->
  NoDup (map (map tolower) pEnumStrings) ->
  pEnumStrings !! k = Some name ->
  map tolower pString = map tolower name ->
  ParseEnum_from pEnumStrings i pString pOut = (true, i + Z.of_nat k).
Proof.
  intros Hs. revert i k.
  induction pEnumStrings as [|e names IH]; intros i k Hn Hnd Hk Heq.
  - discriminate.
  - apply c_strings_cons in Hn as [He Hnames].
    cbn [map] in Hnd. apply NoDup_cons in Hnd as [Hfirst Hnd].
    cbn [ParseEnum_from].
    destruct k as [|k]; cbn in Hk.
    + injection Hk as ->.
      destruct (Z.eqb_spec (strcasecmp pString name) 0) as [E|E].
      * f_equal. lia.
      * exfalso. apply E. apply strcasecmp_0; assumption.
    + destruct (Z.eqb_spec (strcasecmp pString e) 0) as [E|E].
      * exfalso. apply Hfirst. apply strcasecmp_0 in E; [|assumption..].
        rewrite <- E, Heq. apply list_elem_of_fmap_2.
        eapply list_elem_of_lookup_2, Hk.
      * rewrite (IH (i + 1) k Hnames Hnd Hk Heq). f_equal. lia.
Qed.

(** X18.  [ParseEnum] accepts the names of its table in any
    capitalisation: when no two names of the table are equal up to case, a
    string equal up to case to the name at index [k] is accepted and yields
    [k]; a string equal up to case to no name is rejected, and the value
    behind [pOut] keeps its content. *)
Theorem ParseEnum_accepts_names_ignoring_case
    (pEnumStrings : list (list Z)) (pString : list Z) (pOut : Z) :
  c_string pString = true ->
  forallb c_string pEnumStrings = true ->
  NoDup (map (map tolower) pEnumStrings) ->
  (forall (k : nat) name,
      pEnumStrings !! k = Some name ->
      map tolower pString = map tolower name ->
      ParseEnum pEnumStrings pString pOut = (true, Z.of_nat k)) /\
  (map tolower pString ∉ map (map tolower) pEnumStrings ->
   ParseEnum pEnumStrings pString pOut = (false, pOut)).
Proof.
  intros Hs Hn Hnd. split.
  - intros k name Hk Heq. unfold ParseEnum.
    rewrite (ParseEnum_from_name _ 0 _ _ k name Hs Hn Hnd Hk Heq).
    reflexivity.
  - intros Hnot. apply ParseEnum_from_no_name; assumption.
Qed.

(** ** Booleans *)

Lemma existsb_strcasecmp pString names :
  c_string pString = true -> forallb c_string names = true ->
  existsb (fun name => strcasecmp pString name =? 0) names =
  bool_decide (map tolower pString ∈ map (map tolower) names).
Proof.
  intros Hs. induction names as [|name names IH]; intros Hn; cbn [existsb map].
  - symmetry. apply bool_decide_eq_false. apply not_elem_of_nil.
  - apply c_strings_cons in Hn as [Hname Hnames]. rewrite (IH Hnames).
    destruct (Z.eqb_spec (strcasecmp pString name) 0) as [E|E]; cbn [orb].
    + symmetry. apply bool_decide_eq_true.
      apply strcasecmp_0 in E; [|assumption..]. rewrite E. constructor.
    + apply bool_decide_ext. rewrite elem_of_cons. split; [tauto|].
      intros [H|H]; [|exact H]. exfalso. apply E.
      apply strcasecmp_0; assumption.
Qed.

(** X19.  The boolean parser accepts exactly the words [true], [on], [1],
    [false], [off] and [0], in any capitalisation: the first three yield
    [true], the last three [false]; any other string is rejected, and the
    value behind [pOutBool] keeps its content. *)
Theorem ParseOption_bool_accepts_six_words (pString : list Z) (pOutBool : bool) :
  c_string pString = true ->
  ParseOption_bool pString pOutBool =
  if bool_decide (map tolower pString ∈ Literal.TrueStrings) then (true, true)
  else if bool_decide (map tolower pString ∈ Literal.FalseStrings)
  then (true, false)
  else (false, pOutBool).
Proof.
  intros Hs. unfold ParseOption_bool.
  rewrite !(existsb_strcasecmp pString) by (exact Hs || reflexivity).
  reflexivity.
Qed.

(** ** Tokens *)

Lemma strncpy_fits (src : list Z) (n : nat) :
  (length src <= n)%nat ->
  strncpy src n = src ++ replicate (n - length src) 0.
Proof.
  intros H. unfold strncpy.
  rewrite take_app_ge by exact H. f_equal.
  rewrite take_replicate. f_equal. lia.
Qed.

Lemma is_delimiter_single sep c : is_delimiter [sep] c = (c =? sep).
Proof. unfold is_delimiter. cbn. apply orb_false_r. Qed.

Lemma scan_token_field sep t rest :
  field sep t -> sep <> 0 ->
  scan_token [sep] (t ++ sep :: rest) = Ok (t, rest).
Proof.
  intros Ht Hsep. induction Ht as [|c t [Hc0 Hcs] _ IH]; cbn [app scan_token].
  - rewrite is_delimiter_single, Z.eqb_refl.
    destruct (Z.eqb_spec sep 0); [contradiction|reflexivity].
  - rewrite is_delimiter_single.
    destruct (Z.eqb_spec c 0); [contradiction|].
    destruct (Z.eqb_spec c sep); [contradiction|].
    rewrite IH. reflexivity.
Qed.

Lemma scan_token_last sep t rest :
  field sep t ->
  scan_token [sep] (t ++ 0 :: rest) = Ok (t, 0 :: rest).
Proof.
  intros Ht. induction Ht as [|c t [Hc0 Hcs] _ IH]; cbn [app scan_token].
  - reflexivity.
  - rewrite is_delimiter_single.
    destruct (Z.eqb_spec c 0); [contradiction|].
    destruct (Z.eqb_spec c sep); [contradiction|].
    rewrite IH. reflexivity.
Qed.

Lemma strtok_nul sep rest : strtok (0 :: rest) [sep] = Ok (None, 0 :: rest).
Proof. reflexivity. Qed.

Lemma strtok_skip sep rest :
  sep <> 0 -> strtok (sep :: rest) [sep] = strtok rest [sep].
Proof.
  intros Hsep. unfold strtok. cbn [skip_delimiters].
  rewrite is_delimiter_single, Z.eqb_refl.
  destruct (Z.eqb_spec sep 0); [contradiction|reflexivity].
Qed.

Lemma strtok_start sep c mem :
  c <> 0 -> c <> sep ->
  strtok (c :: mem) [sep] =
  '(tok, saved) ← scan_token [sep] (c :: mem); Ok (Some tok, saved).
Proof.
  intros Hc0 Hcs. unfold strtok. cbn [skip_delimiters].
  rewrite is_delimiter_single.
  destruct (Z.eqb_spec c 0); [contradiction|].
  destruct (Z.eqb_spec c sep); [contradiction|].
  cbn [mbind result_bind]. 
  destruct (Z.eqb_spec c 0); [contradiction|]. reflexivity.
Qed.

Lemma strtok_field sep t rest :
  field sep t -> t <> [] -> sep <> 0 ->
  strtok (t ++ sep :: rest) [sep] = Ok (Some t, rest).
Proof.
  intros Ht Hne Hsep. destruct t as [|c t]; [contradiction|].
  pose proof (Forall_inv Ht) as [Hc0 Hcs].
  change ((c :: t) ++ sep :: rest) with (c :: (t ++ sep :: rest)).
  rewrite strtok_start by assumption.
  change (c :: (t ++ sep :: rest)) with ((c :: t) ++ sep :: rest).
  rewrite scan_token_field by assumption. reflexivity.
Qed.

Lemma strtok_last sep t rest :
  field sep t -> t <> [] ->
  strtok (t ++ 0 :: rest) [sep] = Ok (Some t, 0 :: rest).
Proof.
  intros Ht Hne. destruct t as [|c t]; [contradiction|].
  pose proof (Forall_inv Ht) as [Hc0 Hcs].
  change ((c :: t) ++ 0 :: rest) with (c :: (t ++ 0 :: rest)).
  rewrite strtok_start by assumption.
  change (c :: (t ++ 0 :: rest)) with ((c :: t) ++ 0 :: rest).
  rewrite scan_token_last by assumption. reflexivity.
Qed.

(** ** Fields *)

Lemma field_checked sep t :
  forallb (fun c => negb (c =? 0) && negb (c =? sep)) t = true -> field sep t.
Proof.
  intros H. unfold field. apply Forall_forall. intros c Hc.
  rewrite forallb_forall in H. specialize (H c).
  rewrite andb_true_iff, !negb_true_iff, !Z.eqb_neq in H.
  apply H. apply list_elem_of_In. exact Hc.
Qed.

Lemma fields_field sep s :
  c_string s = true -> Forall (field sep) (fields sep s).
Proof.
  induction s as [|c s IH]; intros Hs; cbn [fields].
  - repeat constructor.
  - apply c_string_cons in Hs as [Hc Hs]. specialize (IH Hs).
    destruct (Z.eqb_spec c sep) as [E|E].
    + constructor; [constructor|exact IH].
    + destruct (fields sep s) as [|t ts].
      * repeat constructor; lia.
      * apply Forall_cons in IH as [Ht Hts].
        constructor; [|exact Hts]. constructor; [split; [lia|exact E]|exact Ht].
Qed.

Lemma fields_not_nil sep s : fields sep s <> [].
Proof.
  destruct s as [|c s]; cbn [fields]; [discriminate|].
  destruct (c =? sep); [discriminate|].
  destruct (fields sep s); discriminate.
Qed.

Lemma join_with_cons sep t ts :
  ts <> [] -> join_with sep (t :: ts) = t ++ sep :: join_with sep ts.
Proof. destruct ts; [contradiction|reflexivity]. Qed.

Lemma join_with_fields sep s : join_with sep (fields sep s) = s.
Proof.
  induction s as [|c s IH]; cbn [fields]; [reflexivity|].
  destruct (Z.eqb_spec c sep) as [->|E].
  - rewrite join_with_cons by apply fields_not_nil. rewrite IH. reflexivity.
  - pose proof (fields_not_nil sep s) as Hne.
    destruct (fields sep s) as [|t ts]; [contradiction|].
    destruct ts as [|t' ts].
    + cbn in IH |- *. congruence.
    + rewrite join_with_cons in IH |- * by discriminate.
      rewrite <- IH. reflexivity.
Qed.

Lemma join_with_length sep ts :
  (length ts <= length (join_with sep ts) + 1)%nat.
Proof.
  induction ts as [|t ts IH]; [cbn; lia|].
  destruct ts as [|t' ts]; [cbn; lia|].
  rewrite join_with_cons by discriminate.
  rewrite length_app. cbn [length] in IH |- *. lia.
Qed.

(** ** MIDI routing *)

Lemma routing_of_cons t ts :
  routing_of (t :: ts) =
  match routing_dest t with
  | Some dest => {[dest]} ∪ routing_of ts
  | None => routing_of ts
  end.
Proof.
  unfold routing_of. cbn [omap list_omap].
  destruct (routing_dest t); reflexivity.
Qed.

Lemma routing_loop_step fuel tok saved Routing :
  ParseOption_TMIDIRouting_loop (S fuel) (Some tok) saved Routing =
  routing_run fuel saved
    (match routing_dest tok with
     | Some dest => Routing ∪ {[dest]}
     | None => Routing
     end).
Proof. reflexivity. Qed.

Lemma routing_of_nil : routing_of [] = ∅.
Proof. reflexivity. Qed.

Lemma routing_dest_nil : routing_dest [] = None.
Proof. reflexivity. Qed.

(** The loop over the memory that holds the fields [ts], separated by
    commas and followed by NUL. *)
Lemma routing_run_fields ts : forall fuel Routing rest,
  Forall (field 44) ts -> (length ts <= fuel)%nat ->
  routing_run fuel (join_with 44 ts ++ 0 :: rest) Routing =
  Some (Ok (Routing ∪ routing_of ts)).
Proof.
  assert (Hcomma : Literal.comma = [44]) by reflexivity.
  assert (Hnil : forall fuel Routing rest,
             routing_run fuel (0 :: rest) Routing =
             Some (Ok (Routing ∪ routing_of []))).
  { intros fuel Routing rest. unfold routing_run. rewrite Hcomma, strtok_nul.
    rewrite routing_of_nil, (right_id_L ∅ (∪)). destruct fuel; reflexivity. }
  induction ts as [|t ts IH]; intros fuel Routing rest Hts Hfuel.
  - cbn [join_with app]. apply Hnil.
  - apply Forall_cons in Hts as [Ht Hts]. rewrite routing_of_cons.
    destruct ts as [|t' ts].
    + cbn [join_with]. destruct t as [|c t].
      * cbn [app]. rewrite routing_dest_nil. apply Hnil.
      * destruct fuel as [|fuel]; [cbn in Hfuel; lia|].
        unfold routing_run at 1. rewrite Hcomma.
        rewrite strtok_last by (exact Ht || discriminate).
        rewrite routing_loop_step, Hnil. f_equal. f_equal.
        destruct (routing_dest (c :: t)); [|reflexivity].
        symmetry. apply (assoc_L (∪)).
    + rewrite join_with_cons by discriminate. rewrite <- app_assoc.
      cbn [app]. destruct t as [|c t].
      * cbn [app]. rewrite routing_dest_nil.
        unfold routing_run at 1. rewrite Hcomma.
        rewrite strtok_skip by discriminate. rewrite <- Hcomma.
        apply (IH fuel Routing rest Hts). cbn [length] in Hfuel |- *. lia.
      * destruct fuel as [|fuel]; [cbn in Hfuel; lia|].
        unfold routing_run at 1. rewrite Hcomma.
        rewrite strtok_field by (exact Ht || discriminate).
        rewrite routing_loop_step.
        rewrite IH by (exact Hts || (cbn [length] in Hfuel |- *; lia)).
        f_equal. f_equal.
        destruct (routing_dest (c :: t)); [|reflexivity].
        symmetry. apply (assoc_L (∪)).
Qed.

(** The parser on the fields [ts] joined by commas. *)
Lemma ParseOption_TMIDIRouting_fields ts pOut :
  Forall (field 44) ts ->
  ParseOption_TMIDIRouting (join_with 44 ts) pOut =
  Some (Ok (true, routing_of ts)).
Proof.
  intros Hts. unfold ParseOption_TMIDIRouting.
  rewrite strncpy_fits by lia.
  replace (length (join_with 44 ts) + 1 - length (join_with 44 ts))%nat
    with 1%nat by lia.
  cbn [replicate].
  pose proof (routing_run_fields ts
                (length (join_with 44 ts ++ [0])) ∅ [] Hts) as H.
  unfold routing_run in H. rewrite length_app in H. cbn [length] in H.
  specialize (H (join_with_length 44 ts)).
  rewrite length_app. cbn [length].
  destruct (strtok (join_with 44 ts ++ [0]) Literal.comma)
    as [[pToken saved]| |]; [|discriminate..].
  rewrite H. rewrite (left_id_L ∅ (∪)). reflexivity.
Qed.

(** X20.  The routing parser reads a list of names separated by commas:
    the routing it yields holds the destination of every field that names
    one.  It accepts every string: a field that names no destination,
    and an empty one, adds nothing. *)
Theorem ParseOption_TMIDIRouting_collects_fields
    (pString : list Z) (pOut : TMIDIRouting) :
  c_string pString = true ->
  ParseOption_TMIDIRouting pString pOut =
  Some (Ok (true, list_to_set (omap routing_dest (fields 44 pString)))).
Proof.
  intros Hs.
  rewrite <- (join_with_fields 44 pString) at 1.
  apply ParseOption_TMIDIRouting_fields. apply fields_field. exact Hs.
Qed.

(** X21.  Neither the order of the names of a routing nor their repetition
    matters, and what [pOut] held before is forgotten: two lists with the
    same fields yield the same routing. *)
Theorem ParseOption_TMIDIRouting_order_irrelevant
    (ts ts' : list (list Z)) (pOut pOut' : TMIDIRouting) :
  Forall (field 44) ts -> Forall (field 44) ts' ->
  (forall t, t ∈ ts <-> t ∈ ts') ->
  ParseOption_TMIDIRouting (join_with 44 ts) pOut =
  ParseOption_TMIDIRouting (join_with 44 ts') pOut'.
Proof.
  intros Hts Hts' Hsame.
  rewrite !ParseOption_TMIDIRouting_fields by assumption.
  f_equal. f_equal. f_equal. unfold routing_of.
  apply set_eq. intros dest.
  rewrite !elem_of_list_to_set, !list_elem_of_omap.
  split; intros (t & Ht & Hd); exists t; (split; [apply Hsame, Ht|exact Hd]).
Qed.

(** ** Addresses *)

Lemma address_loop_step n i tok saved IPAddress :
  ParseOption_CIPAddress_loop (S n) i (Some tok) saved IPAddress =
  v ← atoi tok; address_run n (S i) saved (<[i := u8 v]> IPAddress).
Proof. reflexivity. Qed.

Lemma address_loop_null n i saved IPAddress :
  ParseOption_CIPAddress_loop n i None saved IPAddress =
  if (length (@nil Z) =? n)%nat then Ok (Some IPAddress) else Ok None.
Proof. destruct n; reflexivity. Qed.

Lemma atoi_cases tok : (exists v, atoi tok = Ok v) \/ atoi tok = Undefined.
Proof.
  unfold atoi.
  destruct ((- 2 ^ 31 <=? atoi_sign tok) && (atoi_sign tok <? 2 ^ 31));
    eauto.
Qed.

Lemma address_outcome_cons n i t ts IPAddress :
  address_outcome (S n) i (t :: ts) IPAddress =
  v ← atoi t; address_outcome n (S i) ts (<[i := u8 v]> IPAddress).
Proof.
  unfold address_outcome. cbn [take atoi_each].
  destruct (atoi t) as [v| |]; cbn [mbind result_bind]; [|reflexivity..].
  destruct (atoi_each (take n ts)) as [vs| |]; reflexivity.
Qed.

Lemma address_outcome_0 i ts IPAddress :
  address_outcome 0 i ts IPAddress = Ok (Some IPAddress).
Proof. reflexivity. Qed.

Lemma address_outcome_nil n i IPAddress :
  address_outcome n i [] IPAddress =
  if (0 =? n)%nat then Ok (Some IPAddress) else Ok None.
Proof. destruct n; reflexivity. Qed.

(** The loop over the memory that holds the fields [ts], separated by
    periods and followed by NUL. *)
Lemma address_run_fields ts : forall n i IPAddress rest,
  Forall (field 46) ts ->
  address_run n i (join_with 46 ts ++ 0 :: rest) IPAddress =
  address_outcome n i (filter (fun t => t <> []) ts) IPAddress.
Proof.
  assert (Hperiod : Literal.period = [46]) by reflexivity.
  assert (Hnil : forall n i IPAddress rest,
             address_run n i (0 :: rest) IPAddress =
             address_outcome n i [] IPAddress).
  { intros n i IPAddress rest. unfold address_run.
    rewrite Hperiod, strtok_nul. cbn [mbind result_bind].
    rewrite address_loop_null, address_outcome_nil. reflexivity. }
  induction ts as [|t ts IH]; intros n i IPAddress rest Hts.
  - cbn [join_with app]. apply Hnil.
  - apply Forall_cons in Hts as [Ht Hts].
    destruct ts as [|t' ts].
    + cbn [join_with]. destruct t as [|c t].
      * cbn [app]. apply Hnil.
      * rewrite filter_cons_True by discriminate. rewrite filter_nil.
        unfold address_run. rewrite Hperiod.
        rewrite strtok_last by (exact Ht || discriminate).
        cbn [mbind result_bind]. destruct n as [|n]; [reflexivity|].
        rewrite address_loop_step, address_outcome_cons.
        destruct (atoi (c :: t)) as [v| |]; cbn [mbind result_bind];
          [|reflexivity..].
        apply Hnil.
    + rewrite join_with_cons by discriminate. rewrite <- app_assoc.
      cbn [app]. destruct t as [|c t].
      * cbn [app]. rewrite filter_cons_False by (intros H; now apply H).
        unfold address_run. rewrite Hperiod.
        rewrite strtok_skip by discriminate. rewrite <- Hperiod.
        apply (IH n i IPAddress rest Hts).
      * rewrite filter_cons_True by discriminate.
        unfold address_run at 1. rewrite Hperiod.
        rewrite strtok_field by (exact Ht || discriminate).
        cbn [mbind result_bind]. destruct n as [|n]; [reflexivity|].
        rewrite address_loop_step, address_outcome_cons.
        destruct (atoi (c :: t)) as [v| |]; cbn [mbind result_bind];
          [|reflexivity..].
        apply (IH n (S i) _ rest Hts).
Qed.

Lemma assign_from_four vs :
  length vs = 4%nat -> assign_from 0 vs (replicate 4 0) = map u8 vs.
Proof.
  intros H. do 4 (destruct vs as [|? vs]; [discriminate|]).
  destruct vs; [reflexivity|discriminate].
Qed.

(** The parser on the fields [ts] joined by periods, when the string fits
    the buffer. *)
Lemma ParseOption_CIPAddress_fields ts pOut :
  Forall (field 46) ts ->
  (length (join_with 46 ts) < 16)%nat ->
  ParseOption_CIPAddress (join_with 46 ts) pOut =
  vs ← atoi_each (take 4 (filter (fun t => t <> []) ts));
  if (length vs =? 4)%nat then Ok (true, map u8 vs) else Ok (false, pOut).
Proof.
  intros Hts Hlen. unfold ParseOption_CIPAddress.
  rewrite strncpy_fits by lia.
  destruct (16 - length (join_with 46 ts))%nat as [|k] eqn:Ek; [lia|].
  change (replicate (S k) 0) with (0 :: replicate k 0).
  pose proof (address_run_fields ts 4 0 (replicate 4 0) (replicate k 0) Hts)
    as H.
  unfold address_run in H.
  destruct (strtok (join_with 46 ts ++ 0 :: replicate k 0) Literal.period)
    as [[pToken saved]| |]; cbn [mbind result_bind] in H |- *.
  - rewrite H. unfold address_outcome.
    destruct (atoi_each (take 4 (filter (fun t => t <> []) ts)))
      as [vs| |]; cbn [mbind result_bind]; [|reflexivity..].
    destruct (Nat.eqb_spec (length vs) 4) as [E|E]; cbn [mbind result_bind].
    + rewrite assign_from_four by exact E. reflexivity.
    + reflexivity.
  - unfold address_outcome in H.
    destruct (atoi_each (take 4 (filter (fun t => t <> []) ts)))
      as [vs| |]; cbn [mbind result_bind] in H |- *;
      [|reflexivity|discriminate].
    destruct (length vs =? 4)%nat; discriminate.
  - unfold address_outcome in H.
    destruct (atoi_each (take 4 (filter (fun t => t <> []) ts)))
      as [vs| |]; cbn [mbind result_bind] in H |- *;
      [|discriminate|reflexivity].
    destruct (length vs =? 4)%nat; discriminate.
Qed.

(** X22.  The address parser on a string that fits its buffer of 16
    bytes: the groups are the fields between periods that are not empty;
    the first four are read with [atoi] and stored as bytes; with fewer
    than four groups the string is rejected and the address behind [pOut]
    keeps its content.  Groups beyond the fourth are ignored. *)
Theorem ParseOption_CIPAddress_reads_four_groups
    (pString : list Z) (pOut : list Z) :
  c_string pString = true ->
  (length pString < 16)%nat ->
  ParseOption_CIPAddress pString pOut =
  vs ← atoi_each (take 4 (groups pString));
  if (length vs =? 4)%nat then Ok (true, map u8 vs) else Ok (false, pOut).
Proof.
  intros Hs Hlen. unfold groups.
  rewrite <- (join_with_fields 46 pString) at 1.
  apply ParseOption_CIPAddress_fields.
  - apply fields_field. exact Hs.
  - rewrite join_with_fields. exact Hlen.
Qed.

Lemma decimal_checked n :
  0 <= n < 256 ->
  field 46 (decimal n) /\ decimal n <> [] /\
  (length (decimal n) <= 3)%nat /\ atoi (decimal n) = Ok n.
Proof.
  intros Hn.
  set (check := fun n =>
    forallb (fun c => negb (c =? 0) && negb (c =? 46)) (decimal n) &&
    (0 <? length (decimal n))%nat && (length (decimal n) <=? 3)%nat &&
    match atoi (decimal n) with Ok v => v =? n | _ => false end).
  assert (Hall : forallb check (seqZ 0 256) = true) by (vm_compute; reflexivity).
  pose proof (range_check check 0 256 Hall n ltac:(lia)) as H.
  unfold check in H. rewrite !andb_true_iff in H.
  destruct H as [[[H1 H2] H3] H4].
  split; [|split; [|split]].
  - apply field_checked. exact H1.
  - apply Nat.ltb_lt in H2. intros E. rewrite E in H2. cbn in H2. lia.
  - apply Nat.leb_le. exact H3.
  - destruct (atoi (decimal n)) as [v| |]; [|discriminate..].
    apply Z.eqb_eq in H4. congruence.
Qed.

(** X23.  An address written as four decimal bytes with periods between
    them is read back as these four bytes. *)
Theorem ParseOption_CIPAddress_dotted_quad (a b c d : Z) (pOut : list Z) :
  0 <= a < 256 -> 0 <= b < 256 -> 0 <= c < 256 -> 0 <= d < 256 ->
  ParseOption_CIPAddress (dotted_quad a b c d) pOut = Ok (true, [a; b; c; d]).
Proof.
  intros Ha Hb Hc Hd.
  destruct (decimal_checked a Ha) as (Fa & Na & La & Aa).
  destruct (decimal_checked b Hb) as (Fb & Nb & Lb & Ab).
  destruct (decimal_checked c Hc) as (Fc & Nc & Lc & Ac).
  destruct (decimal_checked d Hd) as (Fd & Nd & Ld & Ad).
  unfold dotted_quad. rewrite ParseOption_CIPAddress_fields.
  - rewrite !filter_cons_True by assumption. rewrite filter_nil.
    cbn [take atoi_each]. rewrite Aa, Ab, Ac, Ad.
    cbn [mbind result_bind length Nat.eqb map].
    unfold u8. rewrite !Z.mod_small by lia. reflexivity.
  - repeat (constructor; [assumption|]). constructor.
  - cbn [join_with]. rewrite !length_app. cbn [length].
    rewrite !length_app. cbn [length]. rewrite !length_app. cbn [length]. lia.
Qed.

(** ** Strings that do not fit the buffer *)

Lemma periods_cons c mem :
  periods (c :: mem) = (if c =? 46 then S (periods mem) else periods mem).
Proof.
  unfold periods. destruct (Z.eqb_spec c 46) as [E|E].
  - rewrite filter_cons_True by exact E. reflexivity.
  - rewrite filter_cons_False by exact E. reflexivity.
Qed.

Lemma skip_delimiters_unterminated mem :
  Forall (fun c => c <> 0) mem ->
  skip_delimiters [46] mem = Undefined \/
  exists c rest, skip_delimiters [46] mem = Ok (c :: rest) /\
    c <> 0 /\ c <> 46 /\ Forall (fun c => c <> 0) rest /\
    (periods rest <= periods mem)%nat.
Proof.
  intros H. induction H as [|c mem Hc Hmem IH]; cbn [skip_delimiters].
  - left. reflexivity.
  - rewrite is_delimiter_single, periods_cons.
    destruct (Z.eqb_spec c 0); [contradiction|].
    destruct (Z.eqb_spec c 46).
    + destruct IH as [IH|(c' & rest & E & H1 & H2 & H3 & H4)]; [left; exact IH|].
      right. exists c', rest. repeat split; try assumption. lia.
    + right. exists c, mem. repeat split; try assumption. lia.
Qed.

Lemma scan_token_unterminated mem :
  Forall (fun c => c <> 0) mem ->
  scan_token [46] mem = Undefined \/
  exists tok saved, scan_token [46] mem = Ok (tok, saved) /\
    Forall (fun c => c <> 0) saved /\ (periods saved < periods mem)%nat.
Proof.
  intros H. induction H as [|c mem Hc Hmem IH]; cbn [scan_token].
  - left. reflexivity.
  - rewrite is_delimiter_single, periods_cons.
    destruct (Z.eqb_spec c 0); [contradiction|].
    destruct (Z.eqb_spec c 46).
    + right. exists [], mem. repeat split; [assumption|lia].
    + destruct IH as [IH|(tok & saved & E & H1 & H2)].
      * left. rewrite IH. reflexivity.
      * right. exists (c :: tok), saved. rewrite E.
        repeat split; assumption.
Qed.

Lemma strtok_unterminated mem :
  Forall (fun c => c <> 0) mem ->
  strtok mem [46] = Undefined \/
  exists tok saved, strtok mem [46] = Ok (Some tok, saved) /\
    Forall (fun c => c <> 0) saved /\ (periods saved < periods mem)%nat.
Proof.
  intros H. unfold strtok.
  destruct (skip_delimiters_unterminated mem H)
    as [E|(c & rest & E & H1 & H2 & H3 & H4)]; rewrite E;
    cbn [mbind result_bind]; [left; reflexivity|].
  destruct (Z.eqb_spec c 0); [contradiction|].
  destruct (scan_token_unterminated (c :: rest))
    as [E'|(tok & saved & E' & H5 & H6)].
  - constructor; assumption.
  - left. rewrite E'. reflexivity.
  - right. exists tok, saved. rewrite E'. split; [reflexivity|].
    split; [assumption|]. rewrite periods_cons in H6.
    destruct (Z.eqb_spec c 46); [contradiction|]. lia.
Qed.

Lemma address_loop_unterminated n : forall i tok saved IPAddress,
  Forall (fun c => c <> 0) saved -> (periods saved < n)%nat ->
  ParseOption_CIPAddress_loop n i (Some tok) saved IPAddress = Undefined.
Proof.
  assert (Hperiod : Literal.period = [46]) by reflexivity.
  induction n as [|n IH]; intros i tok saved IPAddress Hsaved Hn; [lia|].
  rewrite address_loop_step.
  destruct (atoi_cases tok) as [[v E]|E]; rewrite E; cbn [mbind result_bind];
    [|reflexivity].
  unfold address_run. rewrite Hperiod.
  destruct (strtok_unterminated saved Hsaved)
    as [E'|(tok' & saved' & E' & H1 & H2)]; rewrite E';
    cbn [mbind result_bind]; [reflexivity|].
  apply IH; [assumption|lia].
Qed.

(** X24.  A string of 16 characters or more fills the buffer of the
    address parser and leaves no room for the terminating NUL.  Unless its
    first 16 characters hold five periods, [strtok] then reads past the
    end of the buffer: the behaviour of the parser is undefined. *)
Theorem ParseOption_CIPAddress_overruns_buffer
    (pString : list Z) (pOut : list Z) :
  c_string pString = true ->
  (16 <= length pString)%nat ->
  (periods (take 16 pString) < 5)%nat ->
  ParseOption_CIPAddress pString pOut = Undefined.
Proof.
  intros Hs Hlen Hperiods. unfold ParseOption_CIPAddress.
  assert (Hbuf : strncpy pString 16 = take 16 pString).
  { unfold strncpy. rewrite take_app_le by lia. reflexivity. }
  rewrite Hbuf.
  assert (Hnul : Forall (fun c => c <> 0) (take 16 pString)).
  { apply Forall_take. clear Hlen Hperiods Hbuf.
    induction pString as [|c s IH]; [constructor|].
    apply c_string_cons in Hs as [Hc Hs].
    constructor; [lia|apply IH, Hs]. }
  change Literal.period with [46].
  destruct (strtok_unterminated _ Hnul)
    as [E|(tok & saved & E & H1 & H2)]; rewrite E; cbn [mbind result_bind];
    [reflexivity|].
  rewrite address_loop_unterminated by (assumption || lia). reflexivity.
Qed.

(** ** Instances *)

Lemma ParseEnum_accepts_names_ignoring_case_witness :
  ParseEnum Literal.FalseStrings [79; 70; 70] 7 = (true, 1) /\
  ParseEnum Literal.FalseStrings [110; 111] 7 = (false, 7).
Proof.
  assert (Hnd : NoDup (map (map tolower) Literal.FalseStrings)).
  { apply (bool_decide_unpack _). vm_compute. exact I. }
  split.
  - apply (proj1 (ParseEnum_accepts_names_ignoring_case
                    Literal.FalseStrings [79; 70; 70] 7
                    eq_refl eq_refl Hnd) 1%nat [111; 102; 102]);
      reflexivity.
  - apply (proj2 (ParseEnum_accepts_names_ignoring_case
                    Literal.FalseStrings [110; 111] 7
                    eq_refl eq_refl Hnd)).
    apply (bool_decide_unpack _). vm_compute. exact I.
Defined.

Lemma ParseOption_bool_accepts_six_words_witness :
  ParseOption_bool [79; 110] false = (true, true) /\
  ParseOption_bool [121; 101; 115] true = (false, true).
Proof.
  split.
  - exact (ParseOption_bool_accepts_six_words [79; 110] false eq_refl).
  - exact (ParseOption_bool_accepts_six_words [121; 101; 115] true eq_refl).
Defined.

Lemma ParseOption_TMIDIRouting_collects_fields_witness :
  c_string Sample.routing = true /\
  ParseOption_TMIDIRouting Sample.routing ∅ =
  Some (Ok (true, list_to_set [GPIO; Pisound; Synth])).
Proof.
  split; [reflexivity|].
  exact (ParseOption_TMIDIRouting_collects_fields Sample.routing ∅ eq_refl).
Defined.

Lemma ParseOption_TMIDIRouting_order_irrelevant_witness :
  ParseOption_TMIDIRouting
    (join_with 44 [Literal.udp; Literal.synth]) ∅ =
  ParseOption_TMIDIRouting
    (join_with 44 [Literal.synth; Literal.udp; Literal.synth]) {[GPIO]}.
Proof.
  apply ParseOption_TMIDIRouting_order_irrelevant.
  - repeat (apply Forall_cons_2; [apply field_checked; reflexivity|]).
    apply Forall_nil_2.
  - repeat (apply Forall_cons_2; [apply field_checked; reflexivity|]).
    apply Forall_nil_2.
  - intros t. rewrite !elem_of_cons, !elem_of_nil. tauto.
Defined.

Lemma ParseOption_CIPAddress_reads_four_groups_witness :
  ParseOption_CIPAddress Sample.three_groups [10; 0; 0; 1] =
  Ok (false, [10; 0; 0; 1]).
Proof.
  apply (ParseOption_CIPAddress_reads_four_groups Sample.three_groups
           [10; 0; 0; 1]).
  - reflexivity.
  - vm_compute. lia.
Defined.

Lemma ParseOption_CIPAddress_dotted_quad_witness :
  ParseOption_CIPAddress (dotted_quad 192 168 1 20) [] =
  Ok (true, [192; 168; 1; 20]).
Proof. apply ParseOption_CIPAddress_dotted_quad; lia. Defined.

Lemma ParseOption_CIPAddress_overruns_buffer_witness :
  ParseOption_CIPAddress Sample.long_address [] = Undefined.
Proof.
  apply ParseOption_CIPAddress_overruns_buffer.
  - reflexivity.
  - vm_compute. lia.
  - vm_compute. lia.
Defined.
